(** * Genimeg: the prompt-to-image generation pipeline

    A shallow embedding of the pipeline logic of the application
    ([handleGenerate] and its helpers in the [App] component, [generateImage]
    of the Gemini service, [generateImageWithStability] of the Stability
    service) together with the properties of its specification, and of the
    code around it: [generatePrompts] of the Gemini service, the readers and
    the archive of [utils/fileHelper], and the handlers of the [App]
    component for the script file and for the failed prompts.

    Modelling conventions.
    - A JavaScript string is the list of its UTF-16 code units ([jsstring]);
      string literals are written [js "..."].
    - Prompt ids are JavaScript numbers holding non-negative integers; they
      are modelled as [N].  [parseInt] and the number-to-string conversion of
      template literals are exact for integers up to [MAX_SAFE_INTEGER], and
      statements that depend on the rendering of an id carry that bound.
    - The external services (the Gemini SDK, the Stability HTTP endpoint)
      are oracles threaded through an abstract world, so that successive
      calls may answer differently; every call is recorded in a log.  *)

From Stdlib Require Import String Ascii NArith Bool Lia Sorted Permutation List.
Import ListNotations.
Local Open Scope N_scope.
Local Open Scope list_scope.

(** ** JavaScript strings *)

Module JsString.

(** A UTF-16 code unit, and a string as the list of its code units. *)
Abbreviation code_unit := N.
Abbreviation jsstring := (list N).

Fixpoint js (s : string) : jsstring :=
  match s with
  | EmptyString => []
  | String a s' => N_of_ascii a :: js s'
  end.

Arguments js : simpl never.

Definition LF : code_unit := 10.
Definition CR : code_unit := 13.
Definition SPACE : code_unit := 32.
Definition DOT : code_unit := 46.

(** The characters matched by [\s] and stripped by [String.prototype.trim]:
    the WhiteSpace and LineTerminator productions of ECMAScript. *)
Definition is_space (c : code_unit) : bool :=
  (c =? 9) || (c =? 10) || (c =? 11) || (c =? 12) || (c =? 13) || (c =? 32)
  || (c =? 160) || (c =? 5760) || ((8192 <=? c) && (c <=? 8202))
  || (c =? 8232) || (c =? 8233) || (c =? 8239) || (c =? 8287)
  || (c =? 12288) || (c =? 65279).

(** The characters that [.] does not match (no [s] flag): LF, CR, U+2028,
    U+2029. *)
Definition is_line_terminator (c : code_unit) : bool :=
  (c =? 10) || (c =? 13) || (c =? 8232) || (c =? 8233).

(** [\d] without the [u] flag: the ASCII digits. *)
Definition is_digit (c : code_unit) : bool := (48 <=? c) && (c <=? 57).

Fixpoint trimStart (s : jsstring) : jsstring :=
  match s with
  | [] => []
  | c :: s' => if is_space c then trimStart s' else s
  end.

Fixpoint trimEnd (s : jsstring) : jsstring :=
  match s with
  | [] => []
  | c :: s' =>
      match trimEnd s' with
      | [] => if is_space c then [] else [c]
      | t => c :: t
      end
  end.

(** [s.trim()] *)
Definition trim (s : jsstring) : jsstring := trimEnd (trimStart s).

(** Truthiness of a string: non-empty. *)
Definition truthy (s : jsstring) : bool :=
  match s with [] => false | _ => true end.

Fixpoint split_lf_aux (s : jsstring) : jsstring * list jsstring :=
  match s with
  | [] => ([], [])
  | c :: s' =>
      let (l, ls) := split_lf_aux s' in
      if c =? LF then ([], l :: ls) else (c :: l, ls)
  end.

(** [s.split('\n')] *)
Definition split_lf (s : jsstring) : list jsstring :=
  let (l, ls) := split_lf_aux s in l :: ls.

(** [parts.join(sep)] *)
Fixpoint join (sep : jsstring) (parts : list jsstring) : jsstring :=
  match parts with
  | [] => []
  | [p] => p
  | p :: ps => p ++ sep ++ join sep ps
  end.

Fixpoint startsWith (s p : jsstring) : bool :=
  match p, s with
  | [], _ => true
  | _ :: _, [] => false
  | a :: p', b :: s' => (a =? b) && startsWith s' p'
  end.

(** [s.includes(sub)] *)
Fixpoint includes (s sub : jsstring) : bool :=
  startsWith s sub ||
  match s with
  | [] => false
  | _ :: s' => includes s' sub
  end.

Fixpoint span_digits (s : jsstring) : jsstring * jsstring :=
  match s with
  | [] => ([], [])
  | c :: s' =>
      if is_digit c then let (d, r) := span_digits s' in (c :: d, r)
      else ([], s)
  end.

(** [parseInt(digits, 10)] on a string of ASCII digits. *)
Definition parseInt10 (digits : jsstring) : N :=
  fold_left (fun acc c => 10 * acc + (c - 48)) digits 0.

Definition MAX_SAFE_INTEGER : N := 9007199254740991.

Fixpoint digits_fuel (fuel : nat) (n : N) : jsstring :=
  match fuel with
  | O => []
  | S f =>
      if n <? 10 then [48 + n]
      else digits_fuel f (n / 10) ++ [48 + n mod 10]
  end.

(** The string a template literal produces for a number holding a
    non-negative integer (exact up to [MAX_SAFE_INTEGER]): its decimal
    digits. *)
Definition numberToString (n : N) : jsstring :=
  digits_fuel (S (N.to_nat (N.log2 n))) n.

End JsString.
Import JsString.

(** ** The custom-prompt parser (lines 124-162 of [handleGenerate]) *)

(** [trimmedLine.match(re)] for the numbered-line pattern [re] of line 131:
    start of input, one or more digits (captured), a period, any run of
    whitespace, then any characters but line terminators up to the end of
    input (captured).  The digits are matched greedily, so the captured run
    is the longest digit prefix and must be followed by the period; the
    whitespace is matched greedily too, and giving some of it back cannot
    help, so the body is the rest of the line without its leading whitespace
    and the match succeeds exactly when that rest has no line terminator.
    Returns the two captures, or [None] when the line does not match. *)
Definition matchNumbered (trimmedLine : jsstring) : option (jsstring * jsstring) :=
  match span_digits trimmedLine with
  | ((_ :: _) as digits, c :: rest) =>
      if c =? DOT then
        let body := trimStart rest in
        if forallb (fun x => negb (is_line_terminator x)) body
        then Some (digits, body) else None
      else None
  | _ => None
  end.

(** *** The pattern run by backtracking

    The pattern of line 131 is a sequence of single characters and greedy
    runs of character classes between the two anchors.  The matcher below
    runs such a sequence the way a backtracking engine does: a greedy run
    first takes all it can and gives characters back one at a time while
    the rest of the pattern fails.  [matchNumbered] is proved to compute the
    same captures ([matchNumbered_backtracking]). *)

Inductive piece :=
| One (cls : N -> bool)
| Many (cls : N -> bool)
| Many1 (cls : N -> bool).

(** The ways to cut a leading run of [cls] off [s], the longest run first. *)
Fixpoint cuts (cls : N -> bool) (s : jsstring) : list (jsstring * jsstring) :=
  match s with
  | [] => [([], [])]
  | c :: s' =>
      if cls c
      then map (fun cut => (c :: fst cut, snd cut)) (cuts cls s') ++ [([], s)]
      else [([], s)]
  end.

Fixpoint firstSuccess {A B} (f : A -> option B) (l : list A) : option B :=
  match l with
  | [] => None
  | x :: rest =>
      match f x with
      | Some r => Some r
      | None => firstSuccess f rest
      end
  end.

(** The text taken by each piece in the first way of matching the whole of
    [s] that succeeds. *)
Fixpoint matchPieces (pieces : list piece) (s : jsstring)
  : option (list jsstring) :=
  match pieces with
  | [] => match s with [] => Some [] | _ => None end
  | One cls :: rest =>
      match s with
      | c :: s' =>
          if cls c then option_map (cons [c]) (matchPieces rest s') else None
      | [] => None
      end
  | Many cls :: rest =>
      firstSuccess
        (fun cut => option_map (cons (fst cut)) (matchPieces rest (snd cut)))
        (cuts cls s)
  | Many1 cls :: rest =>
      firstSuccess
        (fun cut =>
           match fst cut with
           | [] => None
           | _ => option_map (cons (fst cut)) (matchPieces rest (snd cut))
           end)
        (cuts cls s)
  end.

(** Digits, a period, whitespace, anything but line terminators. *)
Definition numberedLine : list piece :=
  [Many1 is_digit; One (fun c => c =? DOT); Many is_space;
   Many (fun c => negb (is_line_terminator c))].

Definition matchByBacktracking (line : jsstring)
  : option (jsstring * jsstring) :=
  match matchPieces numberedLine line with
  | Some [digits; _; _; body] => Some (digits, body)
  | _ => None
  end.

(** [{ index: number; text: string }] *)
Record ParsedPrompt := mkParsed { index : N; text : jsstring }.

(** [{ id: number; text: string }] *)
Record Prompt := mkPrompt { p_id : N; p_text : jsstring }.

(** The state of the parsing loop: the [parsedPrompts] array and
    [currentPrompt]. *)
Definition ParserState : Type := list ParsedPrompt * option ParsedPrompt.

(** One iteration of [for (const line of lines)]. *)
Definition parseLine (st : ParserState) (line : jsstring) : ParserState :=
  let '(parsedPrompts, currentPrompt) := st in
  let trimmedLine := trim line in
  match matchNumbered trimmedLine with
  | Some (digits, body) =>
      (match currentPrompt with
       | Some cur => parsedPrompts ++ [mkParsed (index cur) (trim (text cur))]
       | None => parsedPrompts
       end,
       Some (mkParsed (parseInt10 digits) (trim body)))
  | None =>
      match currentPrompt with
      | Some cur =>
          if truthy trimmedLine
          then (parsedPrompts,
                Some (mkParsed (index cur) (text cur ++ LF :: trimmedLine)))
          else st
      | None => st
      end
  end.

(** The push of the last prompt after the loop. *)
Definition flushLast (st : ParserState) : list ParsedPrompt :=
  let '(parsedPrompts, currentPrompt) := st in
  match currentPrompt with
  | Some cur => parsedPrompts ++ [mkParsed (index cur) (trim (text cur))]
  | None => parsedPrompts
  end.

(** [parsedPrompts] as it stands when the loop and the final push are done. *)
Definition parsePrompts (customPrompts : jsstring) : list ParsedPrompt :=
  flushLast (fold_left parseLine (split_lf (trim customPrompts)) ([], None)).

(** [parsedPrompts.sort((a, b) => a.index - b.index)]: [Array.prototype.sort]
    is stable, so the result is the one of a stable insertion sort. *)
Fixpoint insertByIndex (x : ParsedPrompt) (l : list ParsedPrompt) : list ParsedPrompt :=
  match l with
  | [] => [x]
  | y :: l' => if index x <=? index y then x :: l else y :: insertByIndex x l'
  end.

Fixpoint sortByIndex (l : list ParsedPrompt) : list ParsedPrompt :=
  match l with
  | [] => []
  | x :: l' => insertByIndex x (sortByIndex l')
  end.

(** [.sort(...).map(p => ({ id: p.index, text: p.text }))] *)
Definition toProcess (parsed : list ParsedPrompt) : list Prompt :=
  map (fun p => mkPrompt (index p) (text p)) (sortByIndex parsed).

(** The whole custom-prompt parser: from the raw field to [promptsToProcess]. *)
Definition parseCustomPrompts (customPrompts : jsstring) : list Prompt :=
  toProcess (parsePrompts customPrompts).

(** [prompts.map(p => `${p.id}. ${p.text}`).join(sep)] *)
Definition renderPrompts (sep : jsstring) (prompts : list Prompt) : jsstring :=
  join sep (map (fun p => numberToString (p_id p) ++ js ". " ++ p_text p) prompts).

(** The text [handleCopyFailedPrompts] builds: blocks joined by a blank line. *)
Definition copyText (prompts : list Prompt) : jsstring :=
  renderPrompts [LF; LF] prompts.

(** The text [downloadPrompts] builds: blocks joined by a ruler line. *)
Definition downloadText (prompts : list Prompt) : jsstring :=
  renderPrompts ([LF; LF] ++ js "---" ++ [LF; LF]) prompts.

(** ** Types of the application ([types.ts]) *)

Inductive AspectRatio := Ratio_1_1 | Ratio_16_9 | Ratio_9_16 | Ratio_4_3 | Ratio_3_4.

Inductive AppState := IDLE | GENERATING_PROMPTS | GENERATING_IMAGES | DONE.

Inductive Engine := google | stability.

(** ['script' | 'custom'] *)
Inductive PromptSource := script_source | custom_source.

(** [GeneratedImage]; every field but [id] and [prompt] is optional. *)
Record GeneratedImage := mkImage {
  img_id : N;
  img_prompt : jsstring;
  img_base64 : option jsstring;
  img_url : option jsstring;
  img_error : option jsstring;
  img_engine : option Engine
}.

(** What both image services return: [{ base64: string | null; error: string | null }]. *)
Record GenResult := mkResult {
  res_base64 : option jsstring;
  res_error : option jsstring
}.

(** A thrown or rejected value: an [Error] with its message, or anything else. *)
Inductive Thrown := ErrorObject (message : jsstring) | NonError.

(** [err instanceof Error ? err.message : fallback] *)
Definition messageOr (fallback : jsstring) (err : Thrown) : jsstring :=
  match err with
  | ErrorObject m => m
  | NonError => fallback
  end.

(** Truthiness of an optional string: present and non-empty. *)
Definition truthyOpt (o : option jsstring) : bool :=
  match o with
  | Some s => truthy s
  | None => false
  end.

(** ** The external services *)

(** What [ai.models.generateImages] answers: it throws, or returns a response
    whose [generatedImages] is absent or an array; an entry may lack its
    [image], and an image may lack its [imageBytes]. *)
Inductive SdkImages :=
| SdkResponse (generatedImages : option (list (option (option jsstring))))
| SdkThrows (err : Thrown).

(** What the Stability request yields: a response that is [ok], with the
    base64 text cut from the data URL of its blob (absent when the URL has
    no comma); a response that is not [ok], with the first entry of the
    [errors] of its body when the body has some; or a rejection anywhere on
    the way (the fetch, the body, the reader). *)
Inductive StabilityResponse :=
| StabilityOk (base64 : option jsstring)
| StabilityNotOk (firstError : option jsstring)
| StabilityRejects (err : Thrown).

(** [{ base64, mimeType }] as [fileToBase64] resolves it. *)
Record ImageData := mkImageData {
  data_base64 : option jsstring;
  mimeType : jsstring
}.

Record Services (World File : Type) := mkServices {
  (** [ai.models.generateImages({ model, prompt, config: { aspectRatio } })] *)
  sdk_generateImages : jsstring -> AspectRatio -> World -> SdkImages * World;
  (** the POST of [generateImageWithStability], with key, prompt and ratio *)
  stability_post : jsstring -> jsstring -> AspectRatio -> World -> StabilityResponse * World;
  (** [fileToBase64(file)]: the browser's [FileReader] *)
  fileToBase64 : File -> World -> (ImageData + Thrown) * World;
  (** [ai.models.generateContent] on the reference image: [response.text],
      possibly absent, or a throw *)
  sdk_describeImage : ImageData -> World -> (option jsstring + Thrown) * World;
  (** [generatePrompts(script, style, niche)]: the prompts and the request
      text, or a throw *)
  generatePrompts : jsstring -> jsstring -> jsstring -> World ->
                    (list jsstring * jsstring + Thrown) * World;
  (** [process.env.STABILITY_API_KEY] *)
  STABILITY_API_KEY : option jsstring
}.

Arguments sdk_generateImages {World File}.
Arguments stability_post {World File}.
Arguments fileToBase64 {World File}.
Arguments sdk_describeImage {World File}.
Arguments generatePrompts {World File}.
Arguments STABILITY_API_KEY {World File}.

(** A call to one of the AI providers. *)
Inductive ProviderCall :=
| CallAnalyzeStyle
| CallGeneratePrompts (script style niche : jsstring)
| CallGoogle (prompt : jsstring) (aspectRatio : AspectRatio)
| CallStability (prompt : jsstring) (aspectRatio : AspectRatio).

(** ** The state of the [App] component *)

(** The values [handleGenerate] closes over. *)
Record Inputs (File : Type) := mkInputs {
  script : jsstring;
  niche : jsstring;
  imageStyle : jsstring;
  aspectRatio : AspectRatio;
  promptSource : PromptSource;
  customPrompts : jsstring;
  referenceImageFile : option File
}.

Arguments script {File}.
Arguments niche {File}.
Arguments imageStyle {File}.
Arguments aspectRatio {File}.
Arguments promptSource {File}.
Arguments customPrompts {File}.
Arguments referenceImageFile {File}.

(** The state [handleGenerate] writes. *)
Record Display := mkDisplay {
  generatedPrompts : list Prompt;
  generatedImages : list GeneratedImage;
  appState : AppState;
  progressMessage : jsstring;
  error : option jsstring;
  failedPrompts : list Prompt;
  aiRequestPrompt : jsstring
}.

Definition initialDisplay : Display :=
  mkDisplay [] [] IDLE [] None [] [].

(** The component state, the world of the services, and the log of the
    provider calls made so far, each with the [appState] it was made in. *)
Record Machine (World : Type) := mkMachine {
  display : Display;
  world : World;
  calls : list (AppState * ProviderCall)
}.

Arguments mkMachine {World}.
Arguments display {World}.
Arguments world {World}.
Arguments calls {World}.

(** ** A state monad for the handler *)

Definition M (World A : Type) : Type := Machine World -> A * Machine World.

Definition ret {World A} (a : A) : M World A := fun m => (a, m).

Definition bind {World A B} (c : M World A) (k : A -> M World B) : M World B :=
  fun m => let (a, m') := c m in k a m'.

Declare Scope handler_scope.
Delimit Scope handler_scope with handler.
Notation "x <- c ;; k" := (bind c (fun x => k))
  (at level 61, c at next level, right associativity) : handler_scope.
Notation "c ;; k" := (bind c (fun _ => k))
  (at level 61, right associativity) : handler_scope.

Definition modifyDisplay {World} (f : Display -> Display) : M World unit :=
  fun m => (tt, mkMachine (f (display m)) (world m) (calls m)).

Definition setGeneratedPrompts {World} (v : list Prompt) : M World unit :=
  modifyDisplay (fun d => mkDisplay v (generatedImages d) (appState d)
    (progressMessage d) (error d) (failedPrompts d) (aiRequestPrompt d)).

Definition setGeneratedImages {World} (v : list GeneratedImage) : M World unit :=
  modifyDisplay (fun d => mkDisplay (generatedPrompts d) v (appState d)
    (progressMessage d) (error d) (failedPrompts d) (aiRequestPrompt d)).

Definition setAppState {World} (v : AppState) : M World unit :=
  modifyDisplay (fun d => mkDisplay (generatedPrompts d) (generatedImages d) v
    (progressMessage d) (error d) (failedPrompts d) (aiRequestPrompt d)).

Definition setProgressMessage {World} (v : jsstring) : M World unit :=
  modifyDisplay (fun d => mkDisplay (generatedPrompts d) (generatedImages d)
    (appState d) v (error d) (failedPrompts d) (aiRequestPrompt d)).

Definition setError {World} (v : option jsstring) : M World unit :=
  modifyDisplay (fun d => mkDisplay (generatedPrompts d) (generatedImages d)
    (appState d) (progressMessage d) v (failedPrompts d) (aiRequestPrompt d)).

Definition setFailedPrompts {World} (v : list Prompt) : M World unit :=
  modifyDisplay (fun d => mkDisplay (generatedPrompts d) (generatedImages d)
    (appState d) (progressMessage d) (error d) v (aiRequestPrompt d)).

Definition setAiRequestPrompt {World} (v : jsstring) : M World unit :=
  modifyDisplay (fun d => mkDisplay (generatedPrompts d) (generatedImages d)
    (appState d) (progressMessage d) (error d) (failedPrompts d) v).

(** An awaited operation that is no provider call. *)
Definition await {World A} (f : World -> A * World) : M World A :=
  fun m => let (a, w) := f (world m) in (a, mkMachine (display m) w (calls m)).

(** An awaited provider call: logged with the current [appState]. *)
Definition awaitProvider {World A} (c : ProviderCall) (f : World -> A * World)
  : M World A :=
  fun m =>
    let (a, w) := f (world m) in
    (a, mkMachine (display m) w (calls m ++ [(appState (display m), c)])).

(** ** The pipeline *)

Section Pipeline.

Context {World File : Type}.
Variable svc : Services World File.

Local Open Scope handler_scope.

(** *** [services/gemini]: [generateImage] *)

Definition SAFETY_BLOCKED : jsstring :=
  js "This prompt was blocked for safety reasons. Please try rephrasing it.".

(** The raw error texts taken as a policy block (line 163). *)
Definition isPolicyBlock (errorMessage : jsstring) : bool :=
  includes errorMessage (js "sensitive words")
  || includes errorMessage (js "Responsible AI practices")
  || includes errorMessage (js "prompt contains sensitive words").

(** An entry without [image] makes the read of [imageBytes] throw a
    [TypeError] inside the [try]; the message of that error is the engine's
    and holds none of the texts of [isPolicyBlock], so the [catch] answers
    with the generic failure. *)
Definition generateImage (prompt : jsstring) (ratio : AspectRatio) (w : World)
  : GenResult * World :=
  match sdk_generateImages svc prompt ratio w with
  | (SdkResponse (Some (Some imageBytes :: _)), w') =>
      (mkResult imageBytes None, w')
  | (SdkResponse (Some (None :: _)), w') =>
      (mkResult None (Some (js "Image generation failed.")), w')
  | (SdkResponse _, w') =>
      (mkResult None (Some (js "The API did not return an image.")), w')
  | (SdkThrows err, w') =>
      let errorMessage := messageOr (js "An unknown error occurred.") err in
      if isPolicyBlock errorMessage
      then (mkResult None (Some SAFETY_BLOCKED), w')
      else (mkResult None (Some (js "Image generation failed.")), w')
  end.

(** *** [services/stability]: [generateImageWithStability] *)

Definition generateImageWithStability (prompt : jsstring) (ratio : AspectRatio)
  (w : World) : GenResult * World :=
  match STABILITY_API_KEY svc with
  | Some ((_ :: _) as key) =>
      match stability_post svc key prompt ratio w with
      | (StabilityOk base64, w') => (mkResult base64 None, w')
      | (StabilityNotOk firstError, w') =>
          let errorMessage :=
            match firstError with
            | Some e => e
            | None => js "Unknown Stability AI error"
            end in
          (mkResult None (Some (js "Stability AI Error: " ++ errorMessage)), w')
      | (StabilityRejects err, w') =>
          let errorMessage :=
            messageOr (js "An unknown error occurred with Stability AI.") err in
          (mkResult None (Some (js "Stability AI Error: " ++ errorMessage)), w')
      end
  | _ =>
      (mkResult None (Some (js "Stability AI API key is not configured.")), w)
  end.

(** *** [services/gemini]: [analyzeImageStyle] *)

Definition analyzeImageStyle (imageData : ImageData) (w : World)
  : (jsstring + Thrown) * World :=
  match sdk_describeImage svc imageData w with
  | (inl (Some responseText), w') => (inl (trim responseText), w')
  | (_, w') =>
      (inr (ErrorObject (js "Failed to analyze the reference image style.")), w')
  end.

(** *** [App]: [handleGenerate] *)

(** Step 1 (lines 84-101): the effective style, or [None] when the handler
    has returned. *)
Definition resolveStyle (inp : Inputs File) : M World (option jsstring) :=
  match referenceImageFile inp with
  | None => ret (Some (imageStyle inp))
  | Some file =>
      setProgressMessage (js "Analyzing reference image style...") ;;
      read <- await (fileToBase64 svc file) ;;
      analysis <-
        match read with
        | inl imageData =>
            awaitProvider CallAnalyzeStyle (analyzeImageStyle imageData)
        | inr err => ret (inr err)
        end ;;
      match analysis with
      | inl styleFromImage =>
          ret (Some (styleFromImage ++ js ", " ++ imageStyle inp))
      | inr err =>
          setError
            (Some (messageOr (js "Failed to analyze reference image.") err)) ;;
          setAppState IDLE ;;
          ret None
      end
  end.

(** [generated.map((p, i) => ({ id: i + 1, text: p }))], from index [i]. *)
Fixpoint numberFrom (i : N) (generated : list jsstring) : list Prompt :=
  match generated with
  | [] => []
  | p :: rest => mkPrompt (i + 1) p :: numberFrom (i + 1) rest
  end.

(** The [catch] of the handler (lines 237-242). *)
Definition catchAll (err : Thrown) : M World unit :=
  setError (Some (messageOr (js "An unknown error occurred.") err)) ;;
  setAppState IDLE.

Definition NO_VALID_PROMPTS : jsstring :=
  js "No valid numbered prompts found. Use a format like " ++ [34]
  ++ js "1. Your prompt" ++ [34]
  ++ js ". Each prompt must start on a new line with a number and a period.".

(** Step 2 (lines 103-171): [promptsToProcess], or [None] when the handler
    has returned. *)
Definition acquirePrompts (inp : Inputs File) (effectiveImageStyle : jsstring)
  : M World (option (list Prompt)) :=
  acquired <-
    match promptSource inp with
    | script_source =>
        if negb (truthy (trim (script inp))) then
          setError (Some (js "Script cannot be empty.")) ;;
          setAppState IDLE ;;
          ret None
        else
          setProgressMessage (js "Analyzing script and generating prompts...") ;;
          answer <- awaitProvider
            (CallGeneratePrompts (script inp) effectiveImageStyle (niche inp))
            (generatePrompts svc (script inp) effectiveImageStyle (niche inp)) ;;
          match answer with
          | inl (generated, requestPrompt) =>
              let scriptPrompts := numberFrom 0 generated in
              setGeneratedPrompts scriptPrompts ;;
              setAiRequestPrompt requestPrompt ;;
              ret (Some scriptPrompts)
          | inr err => catchAll err ;; ret None
          end
    | custom_source =>
        if negb (truthy (trim (customPrompts inp))) then
          setError (Some (js "Custom prompts field cannot be empty.")) ;;
          setAppState IDLE ;;
          ret None
        else
          let parsedPrompts := parsePrompts (customPrompts inp) in
          if (N.of_nat (List.length parsedPrompts) =? 0) then
            setError (Some NO_VALID_PROMPTS) ;;
            setAppState IDLE ;;
            ret None
          else
            let promptsToProcess := toProcess parsedPrompts in
            setGeneratedPrompts promptsToProcess ;;
            ret (Some promptsToProcess)
    end ;;
  match acquired with
  | Some [] =>
      setError (Some (js "No prompts were generated or provided.")) ;;
      setAppState IDLE ;;
      ret None
  | other => ret other
  end.

(** Lines 182-186: the text sent to the image services. *)
Definition finalPromptOf (inp : Inputs File) (effectiveImageStyle : jsstring)
  (promptData : Prompt) : jsstring :=
  match promptSource inp with
  | custom_source =>
      if truthy (trim effectiveImageStyle)
      then p_text promptData ++ js ", " ++ effectiveImageStyle
      else p_text promptData
  | script_source => p_text promptData
  end.

(** The condition of the fallback (line 193). *)
Definition shouldFallBack (result : GenResult) : bool :=
  match res_error result with
  | Some e =>
      truthy e && includes e (js "safety reasons")
      && truthyOpt (STABILITY_API_KEY svc)
  | None => false
  end.

(** Lines 198-201: the error of a failed fallback, enriched. *)
Definition enrich (result : GenResult) : GenResult :=
  match res_error result with
  | Some ((_ :: _) as e) =>
      mkResult (res_base64 result)
        (Some (js "Google blocked prompt. Stability AI also failed: " ++ e))
  | _ => result
  end.

(** Lines 188-202: the attempt with Google and, when it is blocked, the
    retry with Stability AI. *)
Definition attemptImage (promptData : Prompt) (finalPrompt : jsstring)
  (ratio : AspectRatio) : M World (GenResult * Engine) :=
  result <- awaitProvider (CallGoogle finalPrompt ratio)
              (generateImage finalPrompt ratio) ;;
  if shouldFallBack result then
    setProgressMessage
      (js "Prompt #" ++ numberToString (p_id promptData)
       ++ js " rejected. Retrying with Stability AI...") ;;
    retried <- awaitProvider (CallStability finalPrompt ratio)
                 (generateImageWithStability finalPrompt ratio) ;;
    ret (enrich retried, stability)
  else ret (result, google).

(** Lines 205-222: the result recorded for the prompt. *)
Definition newImageOf (promptData : Prompt) (result : GenResult)
  (engine : Engine) : GeneratedImage :=
  match res_base64 result with
  | Some ((_ :: _) as base64) =>
      mkImage (p_id promptData) (p_text promptData) (Some base64)
        (Some (js "data:image/jpeg;base64," ++ base64)) None (Some engine)
  | _ =>
      mkImage (p_id promptData) (p_text promptData) None None
        (Some (match res_error result with
               | Some ((_ :: _) as e) => e
               | _ => js "Failed to generate image."
               end))
        (Some engine)
  end.

(** [result.base64] is falsy: the prompt goes to [localFailedPrompts]. *)
Definition hasFailed (result : GenResult) : bool :=
  negb (truthyOpt (res_base64 result)).

(** The body of the loop (lines 179-225) and its iteration over the prompts
    left to process; [i] is the loop index and [total] is
    [promptsToProcess.length]. *)
Fixpoint imageLoop (inp : Inputs File) (effectiveImageStyle : jsstring)
  (total : N) (i : N) (todo : list Prompt)
  (imageResults : list GeneratedImage) (localFailedPrompts : list Prompt)
  : M World (list GeneratedImage * list Prompt) :=
  match todo with
  | [] => ret (imageResults, localFailedPrompts)
  | promptData :: rest =>
      setProgressMessage
        (js "Generating image " ++ numberToString (i + 1) ++ js " of "
         ++ numberToString total ++ js " (Prompt #"
         ++ numberToString (p_id promptData) ++ js ")...") ;;
      let finalPrompt := finalPromptOf inp effectiveImageStyle promptData in
      attempt <- attemptImage promptData finalPrompt (aspectRatio inp) ;;
      let (result, engine) := attempt in
      let newImage := newImageOf promptData result engine in
      let imageResults' := imageResults ++ [newImage] in
      let localFailedPrompts' :=
        if hasFailed result then localFailedPrompts ++ [promptData]
        else localFailedPrompts in
      setGeneratedImages imageResults' ;;
      imageLoop inp effectiveImageStyle total (i + 1) rest
        imageResults' localFailedPrompts'
  end.

(** [!img.error] *)
Definition succeeded (img : GeneratedImage) : bool :=
  negb (truthyOpt (img_error img)).

(** Step 3 (lines 173-235). *)
Definition imageStage (inp : Inputs File) (effectiveImageStyle : jsstring)
  (promptsToProcess : list Prompt) : M World unit :=
  setAppState GENERATING_IMAGES ;;
  let total := N.of_nat (List.length promptsToProcess) in
  done <- imageLoop inp effectiveImageStyle total 0 promptsToProcess [] [] ;;
  let (imageResults, localFailedPrompts) := done in
  setFailedPrompts localFailedPrompts ;;
  setAppState DONE ;;
  let successfulImages := N.of_nat (List.length (filter succeeded imageResults)) in
  if successfulImages =? total then
    setProgressMessage (js "All images generated successfully!")
  else
    setProgressMessage
      (js "Generated " ++ numberToString successfulImages ++ js " of "
       ++ numberToString total ++ js " images. Some prompts may have failed.").

Definition handleGenerate (inp : Inputs File) : M World unit :=
  setError None ;;
  setProgressMessage (js "Starting generation...") ;;
  setGeneratedImages [] ;;
  setGeneratedPrompts [] ;;
  setFailedPrompts [] ;;
  setAiRequestPrompt [] ;;
  setAppState GENERATING_PROMPTS ;;
  style <- resolveStyle inp ;;
  match style with
  | None => ret tt
  | Some effectiveImageStyle =>
      prompts <- acquirePrompts inp effectiveImageStyle ;;
      match prompts with
      | None => ret tt
      | Some promptsToProcess =>
          imageStage inp effectiveImageStyle promptsToProcess
      end
  end.

(** *** [App]: the Generate button (lines 419-423) *)

(** [isLoading] *)
Definition isLoading (d : Display) : bool :=
  match appState d with
  | GENERATING_PROMPTS | GENERATING_IMAGES => true
  | _ => false
  end.

(** The [disabled] attribute of the button whose [onClick] is
    [handleGenerate]. *)
Definition generateDisabled (inp : Inputs File) (d : Display) : bool :=
  isLoading d
  || match promptSource inp with
     | script_source => negb (truthy (trim (script inp)))
     | custom_source => negb (truthy (trim (customPrompts inp)))
     end.

(** A click on the button: a disabled button dispatches nothing. *)
Definition clickGenerate (inp : Inputs File) : M World unit :=
  fun m =>
    if generateDisabled inp (display m) then (tt, m)
    else handleGenerate inp m.

End Pipeline.

Arguments handleGenerate {World File}.
Arguments clickGenerate {World File}.
Arguments imageStage {World File}.
Arguments imageLoop {World File}.
Arguments attemptImage {World File}.
Arguments acquirePrompts {World File}.
Arguments resolveStyle {World File}.
Arguments generateImage {World File}.
Arguments generateImageWithStability {World File}.
Arguments analyzeImageStyle {World File}.
Arguments shouldFallBack {World File}.
Arguments finalPromptOf {File}.
Arguments generateDisabled {File}.

(** ** More of JavaScript's strings *)

(** [a === b] on two strings. *)
Fixpoint strictEq (a b : jsstring) : bool :=
  match a, b with
  | [], [] => true
  | x :: a', y :: b' => (x =? y) && strictEq a' b'
  | _, _ => false
  end.

(** [s.endsWith(suffix)] *)
Definition endsWith (s suffix : jsstring) : bool :=
  startsWith (rev s) (rev suffix).

Definition COMMA : code_unit := 44.

Fixpoint splitOn_aux (sep : code_unit) (s : jsstring)
  : jsstring * list jsstring :=
  match s with
  | [] => ([], [])
  | c :: s' =>
      let (l, ls) := splitOn_aux sep s' in
      if c =? sep then ([], l :: ls) else (c :: l, ls)
  end.

(** [s.split(sep)] for a separator of one character. *)
Definition splitOn (sep : code_unit) (s : jsstring) : list jsstring :=
  let (l, ls) := splitOn_aux sep s in l :: ls.

(** [dataUrl.split(',')[1]]: what [fileToBase64] and [blobToBase64] keep of
    the data URL the reader gives; [None] is [undefined]. *)
Definition payloadOf (dataUrl : jsstring) : option jsstring :=
  nth_error (splitOn COMMA dataUrl) 1.

(** ** [services/gemini]: [generatePrompts] *)

Module Gemini.

(** What [generatePrompts] reads of the response of [generateContent]:
    [response.text] and [response.candidates?.[0]?.finishReason], each
    possibly [undefined]. *)
Record ContentResponse := mkContent {
  response_text : option jsstring;
  response_finishReason : option jsstring
}.

(** What [JSON.parse(jsonText)] gives, as far as [generatePrompts] looks at
    it: it throws; or it returns a [result] for which
    [result && Array.isArray(result.prompts)] holds, with the items of that
    array (strings, as the response schema asks and the return type
    declares); or it returns any other value. *)
Inductive JsonOutcome :=
| JsonThrows (parseError : Thrown)
| JsonWithPrompts (prompts : list jsstring)
| JsonOther.

(** The text of the request before the context lines (lines 28-33). *)
Definition REQUEST_HEAD : jsstring :=
  join [LF]
  [js "System Instruction: You are an expert script analyst and " ++
     js "creative director specializing in creating highly detailed, " ++
     js "multi-layered visual scenes for documentary-style motion " ++
     js "graphics. Your task is to transform a script into a series " ++
     js "of structured, descriptive prompts for a text-to-image AI.";
   [];
   js "User Request:";
   js "I have a script that needs to be visualized. Please " ++
     js "generate a series of image prompts based on it, following a " ++
     js "very specific layered format.";
   [];
   js "**Context & Style:**";
   []].

(** The text of the request between the style and the script (lines
    34-60). *)
Definition REQUEST_BODY : jsstring :=
  join [LF]
  [[];
   [];
   js "**CRITICAL INSTRUCTIONS:**";
   js "1.  **Analyze and Breakdown:** Read the script and divide " ++
     js "it into key visual moments or scenes.";
   js "2.  **Structure Each Prompt:** For each scene, create a " ++
     js "SINGLE multi-line prompt. Each line within the prompt must " ++
     js "describe a distinct element of the scene (e.g., Background, " ++
     js "Character, Object, Text Overlay, Special Effect). Use " ++
     js "newline characters to separate elements.";
   js "3.  **Detailed Element Descriptions:** For each element, " ++
     js "clearly define its role, style, and context. The goal is to " ++
     js "describe a highly creative documentary video scene.";
   js "4.  **Adherence to Style:** Every element's description " ++
     js "MUST strictly adhere to the provided **Visual Style** and " ++
     js "incorporate the **Topic/Niche** (if provided).";
   js "5.  **IMPORTANT SAFETY RULE:** You MUST generate prompts " ++
     js "that are safe and appropriate for a general audience. Do " ++
     js "not describe or imply violence, explicit situations, or " ++
     js "sensitive interactions. If the script contains such themes, " ++
     js "you MUST represent them abstractly or symbolically. Focus " ++
     js "on setting, atmosphere, and emotion.";
   js "6.  **Output Format:** Your entire response MUST be a valid " ++
     js "JSON object with a single key " ++ [34] ++ js "prompts" ++ [34] ++
     js ", which is an array of strings. Each string in the array is " ++
     js "a complete, multi-line image prompt for one scene. Do not " ++
     js "add any commentary, explanations, or markdown formatting " ++
     js "around the JSON.";
   [];
   js "**Example of a SINGLE Prompt String (for one scene):**";
   js "Background: Complex Financial System Diagram - The " ++
     js "abstract, intricate diagram of interconnected gears and " ++
     js "pipes , now slightly out of focus or with reduced opacity " ++
     js "to serve as a background element. Style: A Minimalist 2D " ++
     js "Vector Illustration, Flat Design 2.0, with Glowing Light " ++
     js "Effects in Electric Green on a Deep Black Canvas, designed " ++
     js "for a Layered Composition. Context: This provides a visual " ++
     js "continuity, showing the system being discussed is the one " ++
     js "previously established as overwhelmingly complex.";
   js "Characters: Multiple Identical White Silhouettes - A series " ++
     js "of minimalist, glowing white human silhouettes, identical " ++
     js "in shape and posture. They are positioned in the " ++
     js "foreground, performing a synchronized action. Style: A set " ++
     js "of Minimalist 2D Vector Illustrations in the Kurzgesagt " ++
     js "Style, designed as Motion Graphics Assets. Rendered with " ++
     js "High Contrast and Glowing Light Effects on a Deep Black " ++
     js "Canvas at 4K Resolution. Context: These silhouettes " ++
     js "represent Hoenig's colleagues or " ++ [34] ++ js "the consensus," ++
     [34] ++ js " all working together within the system.";
   js "Object: Large Central Gear - A single, large, minimalist " ++
     js "gear, rendered in a solid, slightly glowing white or light " ++
     js "grey. It is the central focal point for the silhouettes' " ++
     js "action. Style: A Minimalist 2D Vector Illustration, " ++
     js "Geometric Abstraction with Clean Lines. This is a " ++
     js "Professional Grade, 4K Resolution Motion Graphics Asset in " ++
     js "a Neo-Retro Futurism style. Context: This gear symbolizes a " ++
     js "core mechanism of the financial system that the colleagues " ++
     js "are manipulating.";
   js "Special Effect: Gear Crack - A jagged, dark crack that " ++
     js "appears on the surface of the central gear. It should be " ++
     js "designed as a separate layer to be animated appearing and " ++
     js "widening. Style: A clean, sharp vector shape designed for a " ++
     js "Layered Composition. This is a Motion Graphics Asset with " ++
     js "High Contrast at 4K Resolution. Context: This visual " ++
     js "element represents the beginning of a systemic failure.";
   js "Special Effect: Ominous Red Glow - A pulsing, Ominous Red " ++
     js "Glow that emanates from within the gear crack. This should " ++
     js "be a soft, light-emitting effect that can be animated. " ++
     js "Style: A Glowing Light Effect asset, designed for a Layered " ++
     js "Composition to be placed behind the crack layer. This is a " ++
     js "4K Resolution asset with a Smooth Render. Context: The red " ++
     js "glow signifies the danger and profound mistake Hoenig " ++
     js "believes is being made.";
   [];
   js "**Example JSON Response:**";
   js "{";
   js "  " ++ [34] ++ js "prompts" ++ [34] ++ js ": [";
   js "    " ++ [34] ++ js "Background: Complex Financial System " ++
     js "Diagram...\nCharacters: Multiple Identical White " ++
     js "Silhouettes...\n(this is a single string with newlines, " ++
     js "containing the full example above)" ++ [34] ++ js ",";
   js "    " ++ [34] ++ js "Object: A single, glowing red 'dissenting' " ++
     js "gear...\n(another complete multi-line prompt string for the " ++
     js "next scene)" ++ [34];
   js "  ]";
   js "}";
   [];
   js "**SCRIPT TO ANALYZE:**";
   js "---";
   []].

(** The template of lines 28-63. *)
Definition requestPromptOf (script style niche : jsstring) : jsstring :=
  REQUEST_HEAD
  ++ (if truthy niche then js "- **Topic/Niche:** " ++ niche ++ [LF] else [])
  ++ js "- **Visual Style:** " ++ style
  ++ REQUEST_BODY ++ script ++ LF :: js "---" ++ [LF].

Definition EMPTY_RESPONSE : jsstring :=
  js "The AI returned an empty response. This can happen if the script is "
  ++ js "too short, vague, or contains content that goes against the "
  ++ js "safety policy.".

Definition SAFETY_VIOLATION : jsstring :=
  js "The script or style contains content that violates safety policies. "
  ++ js "Please revise your input and try again.".

Definition RECITATION : jsstring :=
  js "The response was blocked due to potential recitation issues. "
  ++ js "Try rephrasing your script.".

Definition stoppedFor (finishReason : jsstring) : jsstring :=
  js "Prompt generation stopped unexpectedly. Reason: " ++ finishReason
  ++ js ". Please check your script content.".

Definition INVALID_STRUCTURE : jsstring :=
  js "The AI returned a response with an invalid structure. "
  ++ js "Please try again.".

Definition NOT_VALID_JSON : jsstring :=
  js "The AI returned a response that was not valid JSON. This may be a "
  ++ js "temporary issue, please try again.".

Definition UNEXPECTED : jsstring :=
  js "Failed to generate prompts from the script due to an unexpected AI "
  ++ js "service error.".

(** Lines 77-90: the message thrown for an empty response. *)
Definition emptyResponseError (finishReason : option jsstring) : jsstring :=
  match finishReason with
  | Some reason =>
      if strictEq reason (js "SAFETY") then SAFETY_VIOLATION
      else if strictEq reason (js "RECITATION") then RECITATION
      else if truthy reason && negb (strictEq reason (js "STOP"))
      then stoppedFor reason
      else EMPTY_RESPONSE
  | None => EMPTY_RESPONSE
  end.

(** The test of the outer [catch] (lines 107-112): the messages thrown
    again as they are. *)
Definition isUserFriendly (message : jsstring) : bool :=
  startsWith message (js "The AI returned")
  || startsWith message (js "The script or style")
  || startsWith message (js "The response was blocked")
  || startsWith message (js "Prompt generation stopped").

(** The outer [catch] (lines 104-116): what it throws for what it caught. *)
Definition rethrow (error : Thrown) : Thrown :=
  match error with
  | ErrorObject message =>
      if isUserFriendly message then error else ErrorObject UNEXPECTED
  | NonError => ErrorObject UNEXPECTED
  end.

Section GeneratePrompts.

Context {World : Type}.

(** [ai.models.generateContent({ model, contents, config })], by its
    [contents]: a response or a throw. *)
Variable generateContent :
  jsstring -> World -> (ContentResponse + Thrown) * World.

Variable JSON_parse : jsstring -> JsonOutcome.

(** The inner [try] and its [catch] (lines 92-102): the error thrown in the
    [else] branch is caught there as well. *)
Definition decode (jsonText requestPrompt : jsstring)
  : (list jsstring * jsstring) + Thrown :=
  let tried :=
    match JSON_parse jsonText with
    | JsonWithPrompts prompts => inl (prompts, requestPrompt)
    | JsonOther => inr (ErrorObject INVALID_STRUCTURE)
    | JsonThrows parseError => inr parseError
    end in
  match tried with
  | inl result => inl result
  | inr parseError => inr (ErrorObject NOT_VALID_JSON)
  end.

Definition generatePrompts (script style niche : jsstring) (w : World)
  : (list jsstring * jsstring + Thrown) * World :=
  let requestPrompt := requestPromptOf script style niche in
  let (answer, w') := generateContent requestPrompt w in
  let tried :=
    match answer with
    | inl response =>
        match response_text response with
        | Some ((_ :: _) as jsonText) => decode jsonText requestPrompt
        | _ =>
            inr (ErrorObject
                   (emptyResponseError (response_finishReason response)))
        end
    | inr err => inr err
    end in
  (match tried with
   | inl result => inl result
   | inr error => inr (rethrow error)
   end, w').

End GeneratePrompts.

End Gemini.

(** The services with [generatePrompts] as [services/gemini] writes it. *)
Definition withGemini {World File} (svc : Services World File)
  (generateContent :
     jsstring -> World -> (Gemini.ContentResponse + Thrown) * World)
  (JSON_parse : jsstring -> Gemini.JsonOutcome) : Services World File :=
  mkServices World File (sdk_generateImages svc) (stability_post svc)
    (fileToBase64 svc) (sdk_describeImage svc)
    (Gemini.generatePrompts generateContent JSON_parse)
    (STABILITY_API_KEY svc).

(** ** [utils/fileHelper] *)

Module FileHelper.

(** How a [FileReader] ends a read: the [load] event with [reader.result],
    or the [error] event. *)
Inductive ReaderEvent (A : Type) :=
| Load (result : A)
| ReadError.

Arguments Load {A}.
Arguments ReadError {A}.

Section Readers.

Context {World File Buffer : Type}.

(** [file.name] and [file.type] *)
Variable fileName : File -> jsstring.
Variable fileType : File -> jsstring.

(** [reader.readAsText(file)] and [reader.readAsArrayBuffer(file)]: the
    result that [onload] reads, [None] when it is [null]. *)
Variable readAsText : File -> World -> ReaderEvent (option jsstring) * World.
Variable readAsArrayBuffer :
  File -> World -> ReaderEvent (option Buffer) * World.

(** [reader.readAsDataURL(file)]: on [load] the result is a string. *)
Variable readAsDataURL : File -> World -> ReaderEvent jsstring * World.

(** [mammoth.extractRawText({ arrayBuffer })]: [result.value], or a throw. *)
Variable extractRawText : Buffer -> World -> (jsstring + Thrown) * World.

(** Lines 6-40.  A promise that resolves is [inl], one that rejects is
    [inr]. *)
Definition readTextFromFile (file : File) (w : World)
  : (jsstring + Thrown) * World :=
  if endsWith (fileName file) (js ".docx") then
    match readAsArrayBuffer file w with
    | (Load (Some arrayBuffer), w1) =>
        match extractRawText arrayBuffer w1 with
        | (inl value, w2) => (inl value, w2)
        | (inr _, w2) =>
            (inr (ErrorObject (js "Could not parse the .docx file.")), w2)
        end
    | (Load None, w1) => (inr (ErrorObject (js "Failed to read file.")), w1)
    | (ReadError, w1) => (inr (ErrorObject (js "Error reading file.")), w1)
    end
  else
    match readAsText file w with
    | (Load (Some ((_ :: _) as result)), w1) => (inl result, w1)
    | (Load _, w1) => (inr (ErrorObject (js "Failed to read file.")), w1)
    | (ReadError, w1) => (inr (ErrorObject (js "Error reading file.")), w1)
    end.

(** Lines 42-55.  The promise rejects with the event of the reader, which
    is no [Error]. *)
Definition fileToBase64 (file : File) (w : World)
  : (ImageData + Thrown) * World :=
  match readAsDataURL file w with
  | (Load result, w') =>
      (inl (mkImageData (payloadOf result) (fileType file)), w')
  | (ReadError, w') => (inr NonError, w')
  end.

End Readers.

(** [zip.file(filename, data)]: the entry is added, or takes the place of
    the entry of that name. *)
Fixpoint zipFile (filename data : jsstring)
  (files : list (jsstring * jsstring)) : list (jsstring * jsstring) :=
  match files with
  | [] => [(filename, data)]
  | (n, d) :: rest =>
      if strictEq n filename then (filename, data) :: rest
      else (n, d) :: zipFile filename data rest
  end.

(** [`${image.id}.jpeg`] *)
Definition filenameOf (id : N) : jsstring := numberToString id ++ js ".jpeg".

(** The body of the [forEach] (lines 65-68). *)
Definition addImage (zip : list (jsstring * jsstring)) (image : GeneratedImage)
  : list (jsstring * jsstring) :=
  match img_base64 image with
  | Some ((_ :: _) as base64) => zipFile (filenameOf (img_id image)) base64 zip
  | _ => zip
  end.

(** The archive that lines 59-69 build: the entries of [zip] once the
    [forEach] is done. *)
Definition zipOf (images : list GeneratedImage) : list (jsstring * jsstring) :=
  fold_left addImage (filter (fun img => truthyOpt (img_base64 img)) images) [].

Section Archive.

Context {World Blob : Type}.

(** [zip.generateAsync({ type: 'blob' })] on an archive: the blob, or a
    rejection (on data that is no base64, for one). *)
Variable generateAsync :
  list (jsstring * jsstring) -> World -> (Blob + Thrown) * World.

(** Lines 58-75: the call of [saveAs] that is made, with the blob and the
    name of the file, or [None] when none is made: no image has data, or the
    archive cannot be generated, and the [catch] only logs the rejection. *)
Definition downloadImagesAsZip (images : list GeneratedImage) (w : World)
  : option (Blob * jsstring) * World :=
  let successfulImages :=
    filter (fun img => truthyOpt (img_base64 img)) images in
  if N.of_nat (List.length successfulImages) =? 0 then (None, w)
  else
    let zip := fold_left addImage successfulImages [] in
    match generateAsync zip w with
    | (inl content, w') => (Some (content, js "waris_s2i_images.zip"), w')
    | (inr _, w') => (None, w')
    end.

End Archive.

End FileHelper.

(** The services with [fileToBase64] as [utils/fileHelper] writes it. *)
Definition withFileReader {World File} (svc : Services World File)
  (fileType : File -> jsstring)
  (readAsDataURL : File -> World -> FileHelper.ReaderEvent jsstring * World)
  : Services World File :=
  mkServices World File (sdk_generateImages svc) (stability_post svc)
    (FileHelper.fileToBase64 fileType readAsDataURL) (sdk_describeImage svc)
    (generatePrompts svc) (STABILITY_API_KEY svc).

(** ** [App]: the other handlers and buttons *)

(** [setScript(v)] *)
Definition setScript {File} (v : jsstring) (inp : Inputs File) : Inputs File :=
  mkInputs File v (niche inp) (imageStyle inp) (aspectRatio inp)
    (promptSource inp) (customPrompts inp) (referenceImageFile inp).

Section Handlers.

Context {World File : Type}.

Local Open Scope handler_scope.

(** [readTextFromFile], as imported. *)
Variable readTextFromFile : File -> World -> (jsstring + Thrown) * World.

(** [handleFileChange] (lines 38-49), on [event.target.files?.[0]]; it
    writes the script and the error. *)
Definition handleFileChange (file : option File) (inp : Inputs File)
  : M World (Inputs File) :=
  match file with
  | Some f =>
      read <- await (readTextFromFile f) ;;
      match read with
      | inl text =>
          setError None ;;
          ret (setScript text inp)
      | inr err =>
          setError (Some (messageOr (js "Failed to read file.") err)) ;;
          ret (setScript [] inp)
      end
  | None => ret inp
  end.

End Handlers.

(** [handleCopyFailedPrompts] (lines 258-268): the text written to the
    clipboard, or [None] when it returns at once. *)
Definition handleCopyFailedPrompts (d : Display) : option jsstring :=
  if N.of_nat (List.length (failedPrompts d)) =? 0 then None
  else Some (copyText (failedPrompts d)).

(** The [disabled] attribute of the Download All button (line 493). *)
Definition downloadAllDisabled (d : Display) : bool :=
  negb (existsb succeeded (generatedImages d)) || isLoading d.

(** ** Notions of the further properties *)

(** The prompts whose result carries an error, in the order of the run. *)
Definition failedOf (prompts : list Prompt) (images : list GeneratedImage)
  : list Prompt :=
  map fst (filter (fun pg => negb (succeeded (snd pg)))
             (combine prompts images)).

(** The result holds image data. *)
Definition hasData (img : GeneratedImage) : bool := truthyOpt (img_base64 img).

(** The ids [first + 1], [first + 2], ... of [n] prompts. *)
Fixpoint idsFrom (first : N) (n : nat) : list N :=
  match n with
  | O => []
  | S n' => (first + 1) :: idsFrom (first + 1) n'
  end.

(** The data stored in an archive under a name. *)
Fixpoint zipLookup (filename : jsstring) (files : list (jsstring * jsstring))
  : option jsstring :=
  match files with
  | [] => None
  | (n, d) :: rest =>
      if strictEq n filename then Some d else zipLookup filename rest
  end.

(** The data of the last image of the list that has data and the id [id]. *)
Definition lastDataOf (id : N) (images : list GeneratedImage)
  : option jsstring :=
  fold_left
    (fun found image =>
       if hasData image && (img_id image =? id) then img_base64 image
       else found)
    images None.

(** The ids of the images that have data. *)
Definition idsWithData (images : list GeneratedImage) : list N :=
  map img_id (filter hasData images).

(** What the archive holds once the images [done] have been added: one
    entry for each id with data, holding the data added last. *)
Definition Holds (zip : list (jsstring * jsstring))
  (done : list GeneratedImage) : Prop :=
  NoDup (map fst zip)
  /\ (forall name,
        In name (map fst zip)
        <-> In name (map FileHelper.filenameOf (idsWithData done)))
  /\ (forall id,
        zipLookup (FileHelper.filenameOf id) zip = lastDataOf id done).

(** The ruler line of [downloadPrompts]. *)
Definition RULER : jsstring := js "---".

(** The prompt with the ruler read as one more line of its text. *)
Definition withRuler (p : Prompt) : Prompt :=
  mkPrompt (p_id p) (trim (p_text p ++ LF :: RULER)).

(** The prompts with the ruler added to each but the last. *)
Fixpoint withRulers (prompts : list Prompt) : list Prompt :=
  match prompts with
  | [] => []
  | [p] => [p]
  | p :: rest => withRuler p :: withRulers rest
  end.

(** ** The parser as the specification words it *)

(** The two states of the specification's parser. *)
Inductive MachineState :=
| NoActivePrompt
| BuildingPrompt (n : N) (body : jsstring).

(** Flushing: the prompt under construction, its body stripped. *)
Definition emit (st : MachineState) : list Prompt :=
  match st with
  | NoActivePrompt => []
  | BuildingPrompt n body => [mkPrompt n (trim body)]
  end.

(** The reference state machine over the lines of the text, in the order the
    prompts are flushed.  [prepare] is what is done to a line before it is
    classified and used: nothing in the specification's wording, [trim] in
    the amended one.  A numbered line flushes the prompt under construction
    and starts a new one; a blank line is skipped; any other line continues
    the prompt under construction, or is dropped when there is none. *)
Fixpoint referenceRun (prepare : jsstring -> jsstring) (st : MachineState)
  (lines : list jsstring) : list Prompt :=
  match lines with
  | [] => emit st
  | raw :: rest =>
      let line := prepare raw in
      match matchNumbered line with
      | Some (digits, body) =>
          emit st ++ referenceRun prepare (BuildingPrompt (parseInt10 digits) body) rest
      | None =>
          match trim line, st with
          | _ :: _, BuildingPrompt n body =>
              referenceRun prepare (BuildingPrompt n (body ++ LF :: line)) rest
          | _, _ => referenceRun prepare st rest
          end
      end
  end.

Definition referenceFlushed (prepare : jsstring -> jsstring) (raw : jsstring)
  : list Prompt :=
  referenceRun prepare NoActivePrompt (split_lf raw).

Definition hasId (k : N) (p : Prompt) : bool := p_id p =? k.

(** [out] is [flushed] ordered by ascending id, prompts of equal id keeping
    the order they were flushed in. *)
Definition orderedById (out flushed : list Prompt) : Prop :=
  Permutation flushed out
  /\ Sorted (fun a b => p_id a <= p_id b) out
  /\ forall k, filter (hasId k) out = filter (hasId k) flushed.

(** ** The style descriptor as the specification words it *)

(** The derived style and the user keywords joined by a comma, either half
    left out when it is absent. *)
Definition specDescriptor (derived : option jsstring) (keywords : jsstring)
  : jsstring :=
  match derived with
  | None | Some [] => keywords
  | Some d =>
      match keywords with
      | [] => d
      | _ => d ++ js ", " ++ keywords
      end
  end.

(** ** Scripted services, to run the handler on concrete inputs *)

Module Scripted.

(** A world that answers from the prompt alone: Google blocks the prompts
    holding [blocked] and fails on those holding [broken]; Stability fails on
    those holding [unlucky]. *)
Record Script := mkScript {
  blocked : jsstring;
  broken : jsstring;
  unlucky : jsstring;
  synthesized : list jsstring;
  described : option jsstring;
  key : option jsstring
}.

Definition services (sc : Script) : Services unit unit :=
  mkServices unit unit
    (fun prompt _ w =>
       if includes prompt (blocked sc)
       then (SdkThrows (ErrorObject (js "The prompt contains sensitive words.")), w)
       else if includes prompt (broken sc)
       then (SdkThrows (ErrorObject (js "503 Service Unavailable")), w)
       else (SdkResponse (Some [Some (Some (js "R09PR0xF"))]), w))
    (fun _ prompt _ w =>
       if includes prompt (unlucky sc)
       then (StabilityNotOk (Some (js "content moderation")), w)
       else (StabilityOk (Some (js "U1RBQg==")), w))
    (fun _ w => (inl (mkImageData (Some (js "UkVG")) (js "image/png")), w))
    (fun _ w =>
       (match described sc with
        | Some d => inl (Some d)
        | None => inr (ErrorObject (js "quota exceeded"))
        end, w))
    (fun _ _ _ w => (inl (synthesized sc, js "request"), w))
    (key sc).

Definition start : Machine unit := mkMachine initialDisplay tt [].

Definition inputs (source : PromptSource) (text style : jsstring)
  (ratio : AspectRatio) (reference : option unit) : Inputs unit :=
  mkInputs unit text [] style ratio source text reference.

(** Never-matching markers are written with a character no prompt below
    uses. *)
Definition never : jsstring := [0].

End Scripted.

(** * Notions of the statements *)

(** ** Strings and the parser *)

(** A string is trimmed when [trim] leaves it as it is. *)
Definition Trimmed (s : jsstring) : Prop := trim s = s.

(** The lines that count for the parser: trimmed, the blank ones left out. *)
Definition significant (lines : list jsstring) : list jsstring :=
  filter truthy (map trim lines).

(** No character of [s] is a line terminator: the dot matches all of it. *)
Definition noTerminator (s : jsstring) : bool :=
  forallb (fun x => negb (is_line_terminator x)) s.

(** The longest leading run of [cls] in [s], and what follows it. *)
Fixpoint spanOf (cls : N -> bool) (s : jsstring) : jsstring * jsstring :=
  match s with
  | [] => ([], [])
  | c :: s' =>
      if cls c then (c :: fst (spanOf cls s'), snd (spanOf cls s'))
      else ([], s)
  end.

(** The class of the dot. *)
Definition notTerminator (c : N) : bool := negb (is_line_terminator c).

(** [p => ({ id: p.index, text: p.text })] *)
Definition toPrompt (p : ParsedPrompt) : Prompt := mkPrompt (index p) (text p).

(** The state of the reference machine for a [currentPrompt] of the loop. *)
Definition stateOf (currentPrompt : option ParsedPrompt) : MachineState :=
  match currentPrompt with
  | None => NoActivePrompt
  | Some cur => BuildingPrompt (index cur) (text cur)
  end.

(** The parsed prompts of index [k]. *)
Definition hasIndex (k : N) (p : ParsedPrompt) : bool := index p =? k.

(** The order the comparator of the sort induces. *)
Definition indexLe (a b : ParsedPrompt) : Prop := index a <= index b.

(** No character of [s] is a line feed: [s] is a single line. *)
Definition noLF (s : jsstring) : bool := forallb (fun x => negb (x =? LF)) s.

(** A continuation line as the loop appends it. *)
Definition Continuation (c : jsstring) : Prop :=
  Trimmed c /\ c <> [] /\ matchNumbered c = None /\ noLF c = true.

(** A text under construction: the body of the numbered line, then the
    continuation lines, each after a line feed. *)
Definition TextShape (first : jsstring) (conts : list jsstring) (t : jsstring)
  : Prop :=
  t = first ++ concat (map (cons LF) conts)
  /\ Trimmed first /\ noLF first = true /\ Forall Continuation conts.

(** A text as the parser delivers it: the stripping has removed the line
    feed that follows an empty body. *)
Definition WellFormedText (t : jsstring) : Prop :=
  exists first conts, TextShape first conts t /\ (first = [] -> conts = []).

(** The invariant of the parsing loop. *)
Definition StateOk (st : ParserState) : Prop :=
  Forall (fun p => WellFormedText (text p)) (fst st)
  /\ match snd st with
     | Some cur => exists first conts, TextShape first conts (text cur)
     | None => True
     end.

(** The first line of the text holds no character that the dot of the
    pattern refuses. *)
Definition CleanFirstLine (t : jsstring) : Prop :=
  noTerminator (hd [] (split_lf t)) = true.

(** The parsed prompt a prompt comes from. *)
Definition toParsed (p : Prompt) : ParsedPrompt := mkParsed (p_id p) (p_text p).

(** The rendering of one prompt: [`${p.id}. ${p.text}`]. *)
Definition block (p : Prompt) : jsstring :=
  numberToString (p_id p) ++ js ". " ++ p_text p.

(** The line, once stripped, matches the pattern. *)
Definition isNumbered (line : jsstring) : bool :=
  match matchNumbered (trim line) with
  | Some _ => true
  | None => false
  end.

(** A character that is no line terminator, or is the line feed: the text
    has no carriage return, U+2028 or U+2029. *)
Definition plain (c : N) : bool := negb (is_line_terminator c) || (c =? LF).

(** The texts of a state of the parsing loop are plain. *)
Definition PlainState (st : ParserState) : Prop :=
  Forall (fun p => forallb plain (text p) = true) (fst st)
  /\ match snd st with
     | Some cur => forallb plain (text cur) = true
     | None => True
     end.

(** [CleanFirstLine] of the text of a prompt, as a boolean. *)
Definition cleanFirstLine (p : Prompt) : bool :=
  noTerminator (hd [] (split_lf (p_text p))).

(** ** The pipeline *)

(** What an attempt leaves untouched in the display. *)
Definition sameButProgress (d d' : Display) : Prop :=
  generatedPrompts d' = generatedPrompts d
  /\ generatedImages d' = generatedImages d
  /\ appState d' = appState d
  /\ error d' = error d
  /\ failedPrompts d' = failedPrompts d
  /\ aiRequestPrompt d' = aiRequestPrompt d.

(** A result is terminal: it holds an image or an error, not both. *)
Definition Terminal (g : GeneratedImage) : Prop :=
  (img_base64 g <> None /\ img_error g = None)
  \/ (img_base64 g = None /\ img_error g <> None).

(** [g] is the result recorded for the prompt [p]. *)
Definition RecordsPrompt (p : Prompt) (g : GeneratedImage) : Prop :=
  img_id g = p_id p /\ img_prompt g = p_text p
  /\ img_engine g <> None /\ Terminal g.

(** The texts sent to Google, in the order of the calls. *)
Definition googlePrompts (cs : list (AppState * ProviderCall)) : list jsstring :=
  flat_map (fun c => match snd c with
                     | CallGoogle p _ => [p]
                     | _ => []
                     end) cs.

(** A logged call of the image stage: made while generating images, to one
    of the two image services, with the final text of one of the prompts and
    the chosen ratio. *)
Definition ImageCallFor {File} (inp : Inputs File) (style : jsstring)
  (todo : list Prompt) (c : AppState * ProviderCall) : Prop :=
  exists p, In p todo
    /\ (snd c = CallGoogle (finalPromptOf inp style p) (aspectRatio inp)
        \/ snd c = CallStability (finalPromptOf inp style p) (aspectRatio inp)).

(** The calls of one attempt for the prompt [p], made in the state [st]:
    the call to Google, alone or followed by the call to Stability AI with
    the same text and ratio. *)
Definition AttemptGroup {File} (inp : Inputs File) (style : jsstring)
  (st : AppState) (p : Prompt) (group : list (AppState * ProviderCall))
  : Prop :=
  group = [(st, CallGoogle (finalPromptOf inp style p) (aspectRatio inp))]
  \/ group = [(st, CallGoogle (finalPromptOf inp style p) (aspectRatio inp));
              (st, CallStability (finalPromptOf inp style p) (aspectRatio inp))].

(** The progress message of iteration [i] (line 180). *)
Definition progressOf (total i : N) (promptData : Prompt) : jsstring :=
  js "Generating image " ++ numberToString (i + 1) ++ js " of "
  ++ numberToString total ++ js " (Prompt #"
  ++ numberToString (p_id promptData) ++ js ")...".

(** A logged call to the prompt synthesizer. *)
Definition isGeneratePrompts (c : AppState * ProviderCall) : Prop :=
  exists s st n, snd c = CallGeneratePrompts s st n.

(** A call of the prompt phase. *)
Definition isPreparation (c : AppState * ProviderCall) : Prop :=
  snd c = CallAnalyzeStyle \/ isGeneratePrompts c.

(** The machine when the image stage ends. *)
Definition finished {World} (failed : list Prompt) (msg : jsstring)
  (m : Machine World) : Machine World :=
  mkMachine
    (mkDisplay (generatedPrompts (display m)) (generatedImages (display m))
       DONE msg (error (display m)) failed (aiRequestPrompt (display m)))
    (world m) (calls m).

(** The machine once the handler has reset the display and entered the
    prompt phase. *)
Definition started {World} (m : Machine World) : Machine World :=
  mkMachine
    (mkDisplay [] [] GENERATING_PROMPTS (js "Starting generation...") None [] [])
    (world m) (calls m).

(** A call logged in one of the two generating states. *)
Definition whileGenerating (c : AppState * ProviderCall) : Prop :=
  fst c = GENERATING_PROMPTS \/ fst c = GENERATING_IMAGES.

(** A logged call to Stability AI. *)
Definition isStabilityCall (c : AppState * ProviderCall) : bool :=
  match snd c with
  | CallStability _ _ => true
  | _ => false
  end.

(** The text sent for a prompt, written out. *)
Definition sentText {File} (inp : Inputs File) (style : jsstring) (p : Prompt)
  : jsstring :=
  match promptSource inp with
  | custom_source =>
      if truthy (trim style) then p_text p ++ js ", " ++ style else p_text p
  | script_source => p_text p
  end.

(** No line of the text is a numbered line for the parser. *)
Definition noNumberedLine (raw : jsstring) : Prop :=
  forall line, In line (split_lf raw) -> matchNumbered (trim line) = None.

(** An indented numbered line: the parser strips it and starts a prompt. *)
Definition indentedInput : jsstring := js "1. A" ++ LF :: js " 2. B".

(** An empty numbered line followed by a line with the line separator
    U+2028 in it, as pasted text can hold it. *)
Definition lineSeparatorInput : jsstring :=
  js "1." ++ LF :: js "a" ++ 8232 :: js "b".

(** Three lists related item by item. *)
Inductive Forall3 {A B C : Type} (R : A -> B -> C -> Prop)
  : list A -> list B -> list C -> Prop :=
| Forall3_nil : Forall3 R [] [] []
| Forall3_cons x y z xs ys zs :
    R x y z -> Forall3 R xs ys zs -> Forall3 R (x :: xs) (y :: ys) (z :: zs).

Section PipelineNotions.

Context {World File : Type}.
Variable svc : Services World File.

(** What Google answers to the attempt made from the machine [m]. *)
Definition primaryOf (finalPrompt : jsstring) (ratio : AspectRatio)
  (m : Machine World) : GenResult :=
  fst (generateImage svc finalPrompt ratio (world m)).

(** What Stability AI answers when it is asked after Google. *)
Definition secondaryOf (finalPrompt : jsstring) (ratio : AspectRatio)
  (m : Machine World) : GenResult :=
  fst (generateImageWithStability svc finalPrompt ratio
         (snd (generateImage svc finalPrompt ratio (world m)))).

(** What Google answers to the text [finalPrompt] in the world [w], and
    what Stability AI answers when it is asked after Google. *)
Definition googleAnswer (finalPrompt : jsstring) (ratio : AspectRatio)
  (w : World) : GenResult :=
  fst (generateImage svc finalPrompt ratio w).

Definition stabilityAnswer (finalPrompt : jsstring) (ratio : AspectRatio)
  (w : World) : GenResult :=
  fst (generateImageWithStability svc finalPrompt ratio
         (snd (generateImage svc finalPrompt ratio w))).

(** The world that the attempt for the text leaves. *)
Definition worldAfterAttempt (finalPrompt : jsstring) (ratio : AspectRatio)
  (w : World) : World :=
  let answered := generateImage svc finalPrompt ratio w in
  if shouldFallBack svc (fst answered)
  then snd (generateImageWithStability svc finalPrompt ratio (snd answered))
  else snd answered.

(** The worlds in which the attempts for the prompts start, one after the
    other, the first one in the world [w]. *)
Fixpoint attemptWorlds (inp : Inputs File) (style : jsstring) (w : World)
  (todo : list Prompt) : list World :=
  match todo with
  | [] => []
  | p :: rest =>
      w :: attemptWorlds inp style
             (worldAfterAttempt (finalPromptOf inp style p) (aspectRatio inp) w)
             rest
  end.

(** The world in which the image stage of a run starts: the one that the
    style step and the prompt step leave. *)
Definition stageWorld (inp : Inputs File) (style : jsstring)
  (m : Machine World) : World :=
  world (snd (acquirePrompts svc inp style
                (snd (resolveStyle svc inp (started m))))).

(** The calls that the attempt for the prompt [p] logs in the state [st]
    when it starts in the world [w]. *)
Definition attemptCalls (inp : Inputs File) (style : jsstring) (st : AppState)
  (p : Prompt) (w : World) : list (AppState * ProviderCall) :=
  let sent := finalPromptOf inp style p in
  (st, CallGoogle sent (aspectRatio inp))
  :: (if shouldFallBack svc (googleAnswer sent (aspectRatio inp) w)
      then [(st, CallStability sent (aspectRatio inp))]
      else []).

(** The result recorded for the prompt [p] when its attempt starts in the
    world [w]. *)
Definition attemptRecord (inp : Inputs File) (style : jsstring) (p : Prompt)
  (w : World) : GeneratedImage :=
  let sent := finalPromptOf inp style p in
  if shouldFallBack svc (googleAnswer sent (aspectRatio inp) w)
  then newImageOf p (enrich (stabilityAnswer sent (aspectRatio inp) w))
         stability
  else newImageOf p (googleAnswer sent (aspectRatio inp) w) google.

(** How a run ends: aborted in the prompt phase, or done with one result
    per prompt. *)
Inductive Outcome (inp : Inputs File) (m after : Machine World) : Prop :=
| Aborted :
    appState (display after) = IDLE ->
    error (display after) <> None ->
    generatedImages (display after) = [] ->
    Outcome inp m after
| Completed (style : jsstring) (made : list (AppState * ProviderCall)) :
    appState (display after) = DONE ->
    error (display after) = None ->
    generatedPrompts (display after) <> [] ->
    Forall2 RecordsPrompt (generatedPrompts (display after))
      (generatedImages (display after)) ->
    fst (resolveStyle svc inp (started m)) = Some style ->
    calls after = calls m ++ made ->
    googlePrompts made
    = map (finalPromptOf inp style) (generatedPrompts (display after)) ->
    Forall (fun c => snd c = CallAnalyzeStyle \/ isGeneratePrompts c
                     \/ ImageCallFor inp style
                          (generatedPrompts (display after)) c) made ->
    Outcome inp m after.

End PipelineNotions.

(** ** Scripted runs *)

Module Runs.

Import Scripted.

(** Google blocks [P2]; Stability AI answers. *)
Definition rescued : Script :=
  mkScript (js "P2") never never [js "P1"; js "P2"] None (Some (js "sk-test")).

(** Google blocks [B] and Stability AI refuses it too. *)
Definition refused : Script :=
  mkScript (js "B") never (js "B") [] (Some (js " moody, grainy ")) (Some (js "sk-test")).

(** Nothing fails; the reference image is described as [noir]. *)
Definition calm : Script :=
  mkScript never never never [js "P1"] (Some (js "noir")) None.

Definition scriptInputs : Inputs unit :=
  inputs script_source (js "a script") (js "noir") Ratio_16_9 None.

Definition customInputs : Inputs unit :=
  inputs custom_source (js "2. B" ++ LF :: js "1. A") (js "noir") Ratio_16_9
    None.

Definition scriptRun : Machine unit :=
  snd (handleGenerate (services rescued) scriptInputs start).

Definition customRun : Machine unit :=
  snd (handleGenerate (services refused) customInputs start).

End Runs.

(** ** Scripted text services and readers *)

Module Probes.

(** The text model answers every request the same way. *)
Definition answering (responseText finishReason : option jsstring)
  : jsstring -> unit -> (Gemini.ContentResponse + Thrown) * unit :=
  fun _ w => (inl (Gemini.mkContent responseText finishReason), w).

(** The text model throws on every request. *)
Definition throwing (err : Thrown)
  : jsstring -> unit -> (Gemini.ContentResponse + Thrown) * unit :=
  fun _ w => (inr err, w).

(** Every text parses to the same outcome. *)
Definition parsingTo (outcome : Gemini.JsonOutcome)
  : jsstring -> Gemini.JsonOutcome :=
  fun _ => outcome.

(** A reader that fails, and one that gives a JPEG data URL. *)
Definition unreadable
  : unit -> unit -> FileHelper.ReaderEvent jsstring * unit :=
  fun _ w => (FileHelper.ReadError, w).

Definition readable
  : unit -> unit -> FileHelper.ReaderEvent jsstring * unit :=
  fun _ w => (FileHelper.Load (js "data:image/jpeg;base64,UkVG"), w).

(** Inputs with a reference image. *)
Definition customWithReference : Inputs unit :=
  Scripted.inputs custom_source (js "1. A") [] Ratio_1_1 (Some tt).

(** Two results with the same id, both with data, and a failed one. *)
Definition sameIdImages : list GeneratedImage :=
  [mkImage 1 (js "a") (Some (js "QQ==")) (Some (js "data:image/jpeg;base64,QQ=="))
     None (Some google);
   mkImage 2 (js "c") None None (Some (js "Image generation failed."))
     (Some google);
   mkImage 1 (js "b") (Some (js "Qg==")) (Some (js "data:image/jpeg;base64,Qg=="))
     None (Some stability)].

(** Google blocks every prompt and Stability AI answers [ok] with an empty
    body: the data URL read from it holds no data. *)
Definition emptyFallback : Services unit unit :=
  mkServices unit unit
    (fun _ _ w =>
       (SdkThrows (ErrorObject (js "The prompt contains sensitive words.")), w))
    (fun _ _ _ w => (StabilityOk (Some []), w))
    (fun _ w => (inl (mkImageData (Some (js "UkVG")) (js "image/png")), w))
    (fun _ w => (inl (Some (js "noir")), w))
    (fun _ _ _ w => (inl ([], js "request"), w))
    (Some (js "sk-test")).

(** [generateAsync] that resolves, with the entries of the archive as the
    blob, and one that rejects. *)
Definition zipping
  : list (jsstring * jsstring) -> unit
    -> (list (jsstring * jsstring) + Thrown) * unit :=
  fun files w => (inl files, w).

Definition rejecting
  : list (jsstring * jsstring) -> unit
    -> (list (jsstring * jsstring) + Thrown) * unit :=
  fun _ w => (inr (ErrorObject (js "Invalid base64 input, bad content length.")), w).

(** One result whose data is no base64. *)
Definition badDataImages : list GeneratedImage :=
  [mkImage 1 (js "a") (Some (js "QQ")) (Some (js "data:image/jpeg;base64,QQ"))
     None (Some google)].

End Probes.

(** * Properties *)

(** ** Character classes *)

Ltac boolprop :=
  rewrite ?orb_true_iff, ?andb_true_iff, ?orb_false_iff, ?andb_false_iff,
    ?negb_true_iff, ?negb_false_iff, ?N.eqb_eq, ?N.eqb_neq, ?N.leb_le,
    ?N.leb_gt.

Ltac boolprop_in H :=
  rewrite ?orb_true_iff, ?andb_true_iff, ?orb_false_iff, ?andb_false_iff,
    ?negb_true_iff, ?negb_false_iff, ?N.eqb_eq, ?N.eqb_neq, ?N.leb_le,
    ?N.leb_gt in H.

(** Facts on the character classes, by arithmetic on the code units. *)
Ltac charclass :=
  unfold is_space, is_digit, is_line_terminator, LF, CR, SPACE, DOT in *;
  repeat match goal with
    | H : _ = true |- _ => progress boolprop_in H
    | H : _ = false |- _ => progress boolprop_in H
    end;
  boolprop; lia.

Lemma digit_not_space c : is_digit c = true -> is_space c = false.
Proof. intros H. charclass. Qed.

(** ** Trimming *)

Lemma trimStart_nil_iff s : trimStart s = [] <-> forallb is_space s = true.
Proof.
  induction s as [|c s IH]; simpl; [tauto|].
  destruct (is_space c); simpl; [exact IH|].
  split; discriminate.
Qed.

Lemma trimStart_head s c t : trimStart s = c :: t -> is_space c = false.
Proof.
  induction s as [|a s IH]; simpl; [discriminate|].
  destruct (is_space a) eqn:E; [exact IH|].
  intros [= <- _]. exact E.
Qed.

Lemma trimStart_fixed c s : is_space c = false -> trimStart (c :: s) = c :: s.
Proof. intros H. simpl. now rewrite H. Qed.

Lemma trimStart_idem s : trimStart (trimStart s) = trimStart s.
Proof.
  destruct (trimStart s) as [|c t] eqn:E; [reflexivity|].
  apply trimStart_fixed. eapply trimStart_head; eauto.
Qed.

Lemma trimStart_app_fixed c s t :
  is_space c = false -> trimStart ((c :: s) ++ t) = (c :: s) ++ t.
Proof. intros H. simpl. now rewrite H. Qed.

Lemma trimEnd_nil_iff s : trimEnd s = [] <-> forallb is_space s = true.
Proof.
  induction s as [|c s IH]; simpl; [tauto|].
  destruct (trimEnd s) as [|a t].
  - destruct (is_space c); simpl; [tauto|]. split; discriminate.
  - split; [discriminate|]. intros H. apply andb_true_iff in H.
    destruct H as [_ H]. apply IH in H. discriminate.
Qed.

Lemma trimEnd_cons c s :
  trimEnd s <> [] -> trimEnd (c :: s) = c :: trimEnd s.
Proof. simpl. destruct (trimEnd s); [congruence|reflexivity]. Qed.

Lemma trimEnd_app a b : trimEnd b <> [] -> trimEnd (a ++ b) = a ++ trimEnd b.
Proof.
  intros H. induction a as [|c a IH]; [reflexivity|].
  simpl app. rewrite trimEnd_cons; rewrite IH; try reflexivity.
  destruct a; simpl; [exact H|discriminate].
Qed.

Lemma trimEnd_snoc_fixed s c : is_space c = false -> trimEnd (s ++ [c]) = s ++ [c].
Proof.
  intros H. rewrite trimEnd_app; simpl; rewrite H; [reflexivity|discriminate].
Qed.

Lemma trimEnd_snoc_space s c : is_space c = true -> trimEnd (s ++ [c]) = trimEnd s.
Proof.
  intros H. induction s as [|a s IH]; simpl; [now rewrite H|].
  now rewrite IH.
Qed.

Lemma trimEnd_app_space a b :
  forallb is_space b = true -> trimEnd (a ++ b) = trimEnd a.
Proof.
  intros H. induction a as [|c a IH]; simpl.
  - now apply trimEnd_nil_iff.
  - now rewrite IH.
Qed.

Lemma trimEnd_idem s : trimEnd (trimEnd s) = trimEnd s.
Proof.
  induction s as [|c s IH]; [reflexivity|]. simpl.
  destruct (trimEnd s) as [|a t] eqn:E.
  - destruct (is_space c) eqn:Ec; simpl; [reflexivity|now rewrite Ec].
  - rewrite trimEnd_cons; [now rewrite IH|]. rewrite IH. discriminate.
Qed.

Lemma trimStart_trimEnd s : trimStart (trimEnd s) = trimEnd (trimStart s).
Proof.
  induction s as [|c s IH]; [reflexivity|].
  simpl trimStart at 2. destruct (is_space c) eqn:Ec.
  - rewrite <- IH. simpl. destruct (trimEnd s) as [|a t]; simpl; now rewrite Ec.
  - assert (H : exists t, trimEnd (c :: s) = c :: t).
    { simpl. destruct (trimEnd s); rewrite ?Ec; eauto. }
    destruct H as [t H]. rewrite H. now apply trimStart_fixed.
Qed.

Lemma trim_nil_iff s : trim s = [] <-> forallb is_space s = true.
Proof.
  unfold trim. rewrite <- trimStart_trimEnd, trimStart_nil_iff.
  rewrite <- (trimEnd_nil_iff (trimEnd s)), trimEnd_idem.
  apply trimEnd_nil_iff.
Qed.

Lemma trim_idem s : trim (trim s) = trim s.
Proof.
  unfold trim. rewrite <- (trimStart_trimEnd s), trimStart_idem.
  rewrite trimStart_trimEnd, trimEnd_idem. reflexivity.
Qed.

Lemma trim_cons_space c s : is_space c = true -> trim (c :: s) = trim s.
Proof. intros H. unfold trim. simpl. now rewrite H. Qed.

Lemma trim_head s c t : trim s = c :: t -> is_space c = false.
Proof.
  unfold trim. rewrite <- trimStart_trimEnd. apply trimStart_head.
Qed.

Lemma Trimmed_trim s : Trimmed (trim s).
Proof. apply trim_idem. Qed.

Lemma Trimmed_trimStart s : Trimmed s -> trimStart s = s.
Proof.
  unfold Trimmed, trim. intros H. rewrite <- H at 1.
  rewrite <- trimStart_trimEnd, trimStart_idem, trimStart_trimEnd. exact H.
Qed.

Lemma Trimmed_trimEnd s : Trimmed s -> trimEnd s = s.
Proof.
  unfold Trimmed, trim. intros H. rewrite <- H at 1.
  rewrite trimEnd_idem. exact H.
Qed.

Lemma Trimmed_ends s : trimStart s = s -> trimEnd s = s -> Trimmed s.
Proof. unfold Trimmed, trim. intros -> ->. reflexivity. Qed.

Lemma Trimmed_nonempty_head c s : Trimmed (c :: s) -> is_space c = false.
Proof. intros H. eapply trim_head. exact H. Qed.

Lemma trim_app_space a b : forallb is_space b = true -> trim (a ++ b) = trim a.
Proof.
  intros H. unfold trim. rewrite <- !trimStart_trimEnd.
  now rewrite trimEnd_app_space.
Qed.

(** ** Splitting into lines *)

Lemma split_lf_cons_LF s : split_lf (LF :: s) = [] :: split_lf s.
Proof. unfold split_lf. simpl. destruct (split_lf_aux s). reflexivity. Qed.

Lemma split_lf_cons c s l ls :
  (c =? LF) = false -> split_lf s = l :: ls ->
  split_lf (c :: s) = (c :: l) :: ls.
Proof.
  unfold split_lf. simpl. destruct (split_lf_aux s) as [l0 ls0].
  intros -> [= -> ->]. reflexivity.
Qed.

Lemma split_lf_inv s : exists l ls, split_lf s = l :: ls.
Proof. unfold split_lf. destruct (split_lf_aux s) as [l ls]. eauto. Qed.

Lemma significant_cons_blank l ls :
  trim l = [] -> significant (l :: ls) = significant ls.
Proof. unfold significant. simpl. now intros ->. Qed.

Lemma significant_cons_same l l' ls ls' :
  trim l = trim l' -> significant ls = significant ls' ->
  significant (l :: ls) = significant (l' :: ls').
Proof. unfold significant. simpl. now intros -> ->. Qed.

Lemma significant_split_space c s :
  is_space c = true ->
  significant (split_lf (c :: s)) = significant (split_lf s).
Proof.
  intros Hc. destruct (c =? LF) eqn:E.
  - apply N.eqb_eq in E. subst c. rewrite split_lf_cons_LF.
    now apply significant_cons_blank.
  - destruct (split_lf_inv s) as (l & ls & Hs).
    rewrite (split_lf_cons _ _ _ _ E Hs), Hs.
    apply significant_cons_same; [now apply trim_cons_space|reflexivity].
Qed.

Lemma significant_trimStart s :
  significant (split_lf (trimStart s)) = significant (split_lf s).
Proof.
  induction s as [|c s IH]; [reflexivity|]. simpl.
  destruct (is_space c) eqn:E; [|reflexivity].
  now rewrite significant_split_space.
Qed.

(** Trimming the end of a text cuts the first line that has only blank
    lines after it, and drops those. *)
Lemma split_lf_aux_cons c s :
  split_lf_aux (c :: s)
  = if c =? LF then ([], fst (split_lf_aux s) :: snd (split_lf_aux s))
    else (c :: fst (split_lf_aux s), snd (split_lf_aux s)).
Proof. simpl. destruct (split_lf_aux s). reflexivity. Qed.

Lemma split_lf_aux_trimEnd s :
  exists sp,
    fst (split_lf_aux s) = fst (split_lf_aux (trimEnd s)) ++ sp
    /\ forallb is_space sp = true
    /\ significant (snd (split_lf_aux (trimEnd s)))
       = significant (snd (split_lf_aux s)).
Proof.
  induction s as [|c s (sp & Hl & Hsp & Hls)].
  - exists []. simpl. auto.
  - rewrite (split_lf_aux_cons c s).
    destruct (trimEnd s) as [|a t] eqn:Et.
    + simpl in Hl, Hls.
      assert (Hc : trimEnd (c :: s) = if is_space c then [] else [c])
        by (simpl; now rewrite Et).
      rewrite Hc. destruct (c =? LF) eqn:E.
      * apply N.eqb_eq in E. subst c. simpl. exists []. simpl.
        repeat split; auto. rewrite significant_cons_blank; [auto|].
        rewrite Hl. now apply trim_nil_iff.
      * destruct (is_space c) eqn:Ec; simpl.
        -- exists (c :: sp). simpl. rewrite Ec, Hsp, Hl. auto.
        -- rewrite E. simpl. exists sp. rewrite Hl. auto.
    + assert (Hc : trimEnd (c :: s) = c :: a :: t) by (simpl; now rewrite Et).
      rewrite Hc, (split_lf_aux_cons c (a :: t)).
      destruct (c =? LF) eqn:E; simpl fst; simpl snd.
      * exists []. simpl. repeat split; auto.
        apply significant_cons_same; [|exact Hls].
        rewrite Hl. symmetry. now apply trim_app_space.
      * exists sp. rewrite Hl. auto.
Qed.

Lemma significant_trimEnd s :
  significant (split_lf (trimEnd s)) = significant (split_lf s).
Proof.
  destruct (split_lf_aux_trimEnd s) as (sp & Hl & Hsp & Hls).
  unfold split_lf. destruct (split_lf_aux s) as [l ls].
  destruct (split_lf_aux (trimEnd s)) as [l' ls']. simpl in *. subst l.
  apply significant_cons_same; [|exact Hls].
  symmetry. now apply trim_app_space.
Qed.

Lemma significant_trim s :
  significant (split_lf (trim s)) = significant (split_lf s).
Proof.
  unfold trim. now rewrite significant_trimEnd, significant_trimStart.
Qed.

(** ** The parsing loop over the significant lines *)

Lemma parseLine_trim st l : parseLine st (trim l) = parseLine st l.
Proof. unfold parseLine. now rewrite trim_idem. Qed.

Lemma parseLine_blank st l : trim l = [] -> parseLine st l = st.
Proof.
  intros H. unfold parseLine. rewrite H. simpl.
  destruct st as [acc [cur|]]; reflexivity.
Qed.

Lemma fold_parseLine_significant lines st :
  fold_left parseLine lines st = fold_left parseLine (significant lines) st.
Proof.
  revert st. induction lines as [|l ls IH]; intros st; [reflexivity|].
  unfold significant. simpl. destruct (trim l) as [|c t] eqn:E; simpl.
  - rewrite parseLine_blank by exact E. apply IH.
  - rewrite <- E, parseLine_trim. apply IH.
Qed.

(** The trimming of the whole field before the split changes nothing. *)
Lemma parsePrompts_lines s :
  parsePrompts s = flushLast (fold_left parseLine (split_lf s) ([], None)).
Proof.
  unfold parsePrompts.
  rewrite fold_parseLine_significant, significant_trim.
  now rewrite <- fold_parseLine_significant.
Qed.

(** ** The numbered-line pattern *)

Lemma span_digits_spec s :
  s = fst (span_digits s) ++ snd (span_digits s)
  /\ forallb is_digit (fst (span_digits s)) = true
  /\ match snd (span_digits s) with
     | [] => True
     | c :: _ => is_digit c = false
     end.
Proof.
  induction s as [|c s (IH1 & IH2 & IH3)]; simpl; [auto|].
  destruct (is_digit c) eqn:E.
  - destruct (span_digits s) as [d r]. simpl in *. rewrite E, IH2.
    repeat split; auto. congruence.
  - simpl. auto.
Qed.

Lemma span_digits_app d c rest :
  forallb is_digit d = true -> is_digit c = false ->
  span_digits (d ++ c :: rest) = (d, c :: rest).
Proof.
  intros Hd Hc. induction d as [|a d IH]; simpl.
  - now rewrite Hc.
  - simpl in Hd. apply andb_true_iff in Hd. destruct Hd as [Ha Hd].
    now rewrite Ha, IH.
Qed.

(** What a match says of the line. *)
Lemma matchNumbered_inv line digits body :
  matchNumbered line = Some (digits, body) ->
  exists rest,
    line = digits ++ DOT :: rest /\ digits <> []
    /\ forallb is_digit digits = true
    /\ body = trimStart rest /\ noTerminator body = true.
Proof.
  unfold matchNumbered. destruct (span_digits_spec line) as (H1 & H2 & _).
  destruct (span_digits line) as [d r]. simpl in *.
  destruct d as [|a d]; [discriminate|]. destruct r as [|c rest]; [discriminate|].
  destruct (c =? DOT) eqn:E; [|discriminate]. apply N.eqb_eq in E. subst c.
  destruct (forallb _ (trimStart rest)) eqn:Hb; [|discriminate].
  intros [= <- <-]. exists rest. repeat split; auto. discriminate.
Qed.

(** When a line matches. *)
Lemma matchNumbered_intro digits rest :
  digits <> [] -> forallb is_digit digits = true ->
  noTerminator (trimStart rest) = true ->
  matchNumbered (digits ++ DOT :: rest) = Some (digits, trimStart rest).
Proof.
  intros Hn Hd Hb. unfold matchNumbered.
  rewrite span_digits_app by (auto; reflexivity).
  destruct digits; [congruence|]. rewrite N.eqb_refl.
  unfold noTerminator in Hb. now rewrite Hb.
Qed.

Lemma trimStart_suffix s : exists pre, s = pre ++ trimStart s.
Proof.
  induction s as [|c s [pre IH]]; [now exists []|]. simpl.
  destruct (is_space c).
  - exists (c :: pre). simpl. now rewrite <- IH.
  - now exists [].
Qed.

(** The body captured on a trimmed line is trimmed. *)
Lemma matchNumbered_body_trimmed line digits body :
  Trimmed line -> matchNumbered line = Some (digits, body) -> Trimmed body.
Proof.
  intros Ht Hm. apply matchNumbered_inv in Hm.
  destruct Hm as (rest & Hl & _ & _ & Hb & _).
  apply Trimmed_ends; [subst body; apply trimStart_idem|].
  destruct (trimEnd body) as [|a t] eqn:E.
  - apply trimEnd_nil_iff, trimStart_nil_iff in E.
    rewrite Hb, trimStart_idem in E. now rewrite Hb.
  - destruct (trimStart_suffix rest) as [pre Hp]. rewrite <- Hb in Hp.
    pose proof (Trimmed_trimEnd _ Ht) as He.
    rewrite Hl, Hp in He.
    change (digits ++ DOT :: pre ++ body)
      with (digits ++ (DOT :: pre) ++ body) in He.
    rewrite app_assoc, trimEnd_app in He by (rewrite E; discriminate).
    apply app_inv_head in He. congruence.
Qed.

(** ** The pattern, by backtracking *)

Lemma spanOf_app cls s : s = fst (spanOf cls s) ++ snd (spanOf cls s).
Proof.
  induction s as [|c s IH]; [reflexivity|]. simpl.
  destruct (cls c); simpl; [now rewrite <- IH|reflexivity].
Qed.

Lemma spanOf_digits s : span_digits s = spanOf is_digit s.
Proof.
  induction s as [|c s IH]; [reflexivity|]. simpl.
  destruct (is_digit c); [|reflexivity].
  rewrite IH. now destruct (spanOf is_digit s).
Qed.

Lemma spanOf_space s : snd (spanOf is_space s) = trimStart s.
Proof.
  induction s as [|c s IH]; [reflexivity|]. simpl.
  now destruct (is_space c).
Qed.

Lemma spanOf_all cls s : snd (spanOf cls s) = [] <-> forallb cls s = true.
Proof.
  induction s as [|c s IH]; simpl; [tauto|].
  destruct (cls c); simpl; [exact IH|]. split; discriminate.
Qed.

(** A greedy run first tries the longest cut; every other cut leaves a
    character of the class before what the longest cut leaves. *)
Lemma cuts_spec cls s :
  exists others,
    cuts cls s = spanOf cls s :: others
    /\ Forall (fun cut => exists c mid,
                  snd cut = c :: mid ++ snd (spanOf cls s) /\ cls c = true)
         others.
Proof.
  induction s as [|c s (others & Hc & Ho)].
  - exists []. split; [reflexivity|constructor].
  - simpl. destruct (cls c) eqn:E.
    + exists (map (fun cut => (c :: fst cut, snd cut)) others ++ [([], c :: s)]).
      rewrite Hc. split; [reflexivity|]. simpl. apply Forall_app. split.
      * apply Forall_map. exact Ho.
      * constructor; [|constructor]. exists c, (fst (spanOf cls s)).
        simpl. now rewrite <- spanOf_app.
    + exists []. split; [reflexivity|constructor].
Qed.

Lemma firstSuccess_first {A B} (f : A -> option B) x others :
  Forall (fun y => f y = None) others ->
  firstSuccess f (x :: others) = f x.
Proof.
  intros H. simpl. destruct (f x); [reflexivity|].
  induction H as [|y ys Hy _ IH]; [reflexivity|]. simpl. now rewrite Hy.
Qed.

Lemma firstSuccess_hit {A B} (f : A -> option B) x others r :
  f x = Some r -> firstSuccess f (x :: others) = Some r.
Proof. intros H. simpl. now rewrite H. Qed.

Lemma matchPieces_One cls rest s :
  matchPieces (One cls :: rest) s
  = match s with
    | c :: s' =>
        if cls c then option_map (cons [c]) (matchPieces rest s') else None
    | [] => None
    end.
Proof. reflexivity. Qed.

Lemma matchPieces_Many cls rest s :
  matchPieces (Many cls :: rest) s
  = firstSuccess
      (fun cut => option_map (cons (fst cut)) (matchPieces rest (snd cut)))
      (cuts cls s).
Proof. reflexivity. Qed.

Lemma matchPieces_Many1 cls rest s :
  matchPieces (Many1 cls :: rest) s
  = firstSuccess
      (fun cut =>
         match fst cut with
         | [] => None
         | _ => option_map (cons (fst cut)) (matchPieces rest (snd cut))
         end)
      (cuts cls s).
Proof. reflexivity. Qed.

Lemma matchPieces_end s :
  matchPieces [] s = match s with [] => Some [] | _ => None end.
Proof. reflexivity. Qed.

(** The last piece, up to the end anchor. *)
Lemma matchPieces_tail x :
  matchPieces [Many notTerminator] x
  = if noTerminator x then Some [x] else None.
Proof.
  rewrite matchPieces_Many.
  destruct (cuts_spec notTerminator x) as (others & -> & Ho).
  rewrite firstSuccess_first.
  - pose proof (spanOf_app notTerminator x) as Hx.
    pose proof (spanOf_all notTerminator x) as Ha.
    change (forallb notTerminator x) with (noTerminator x) in Ha.
    rewrite matchPieces_end.
    destruct (snd (spanOf notTerminator x)) as [|c t].
    + rewrite app_nil_r in Hx. rewrite <- Hx.
      rewrite (proj1 Ha eq_refl). reflexivity.
    + destruct (noTerminator x); [|reflexivity].
      destruct Ha as [_ Ha]. specialize (Ha eq_refl). discriminate.
  - eapply Forall_impl; [|exact Ho]. intros cut (c & mid & Hs & _).
    now rewrite matchPieces_end, Hs.
Qed.

Lemma noTerminator_app a b :
  noTerminator (a ++ b) = noTerminator a && noTerminator b.
Proof. unfold noTerminator. apply forallb_app. Qed.

(** The whitespace and the body. *)
Lemma matchPieces_body r :
  matchPieces [Many is_space; Many notTerminator] r
  = if noTerminator (trimStart r)
    then Some [fst (spanOf is_space r); trimStart r] else None.
Proof.
  rewrite matchPieces_Many.
  destruct (cuts_spec is_space r) as (others & -> & Ho).
  rewrite spanOf_space in Ho.
  destruct (noTerminator (trimStart r)) eqn:E.
  - apply firstSuccess_hit.
    now rewrite spanOf_space, matchPieces_tail, E.
  - rewrite firstSuccess_first.
    + now rewrite spanOf_space, matchPieces_tail, E.
    + eapply Forall_impl; [|exact Ho]. intros cut (c & mid & Hs & _).
      rewrite matchPieces_tail, Hs.
      change (c :: mid ++ trimStart r) with ((c :: mid) ++ trimStart r).
      now rewrite noTerminator_app, E, andb_false_r.
Qed.

(** [matchNumbered] computes the captures of the backtracking run of the
    pattern. *)
Lemma matchNumbered_backtracking line :
  matchNumbered line = matchByBacktracking line.
Proof.
  unfold matchNumbered, matchByBacktracking, numberedLine.
  change (fun c => negb (is_line_terminator c)) with notTerminator.
  rewrite spanOf_digits, matchPieces_Many1.
  destruct (cuts_spec is_digit line) as (others & -> & Ho).
  rewrite firstSuccess_first.
  - destruct (spanOf is_digit line) as [digits rest]. cbn [fst snd].
    destruct digits as [|d digits]; [reflexivity|].
    rewrite matchPieces_One.
    destruct rest as [|c r]; [reflexivity|].
    destruct (c =? DOT); [|reflexivity].
    rewrite matchPieces_body.
    change (forallb notTerminator (trimStart r))
      with (noTerminator (trimStart r)).
    now destruct (noTerminator (trimStart r)).
  - eapply Forall_impl; [|exact Ho]. intros cut (c & mid & Hs & Hc).
    rewrite matchPieces_One, Hs.
    assert (Hd : (c =? DOT) = false) by charclass.
    rewrite Hd. now destruct (fst cut).
Qed.

(** ** The loop refines the reference machine *)

Lemma loop_refines lines : forall acc cur,
  map toPrompt (flushLast (fold_left parseLine lines (acc, cur)))
  = map toPrompt acc ++ referenceRun trim (stateOf cur) lines.
Proof.
  induction lines as [|l ls IH]; intros acc cur.
  - simpl. destruct cur as [c|]; simpl.
    + now rewrite map_app.
    + now rewrite app_nil_r.
  - simpl fold_left. simpl referenceRun.
    destruct (matchNumbered (trim l)) as [[d b]|] eqn:Hm.
    + rewrite IH. simpl stateOf.
      rewrite (matchNumbered_body_trimmed _ _ _ (Trimmed_trim l) Hm).
      destruct cur as [c|]; simpl.
      * now rewrite map_app, <- app_assoc.
      * reflexivity.
    + rewrite trim_idem. destruct cur as [c|]; simpl.
      * destruct (trim l) as [|a t]; simpl; apply IH.
      * destruct (trim l); apply IH.
Qed.

Lemma parsePrompts_refines raw :
  map toPrompt (parsePrompts raw) = referenceFlushed trim raw.
Proof. rewrite parsePrompts_lines. apply (loop_refines _ [] None). Qed.

(** ** The sort *)

Lemma insertByIndex_perm x l : Permutation (x :: l) (insertByIndex x l).
Proof.
  induction l as [|y l IH]; simpl; [reflexivity|].
  destruct (index x <=? index y); [reflexivity|].
  rewrite perm_swap. now constructor.
Qed.

Lemma sortByIndex_perm l : Permutation l (sortByIndex l).
Proof.
  induction l as [|x l IH]; simpl; [constructor|].
  rewrite <- insertByIndex_perm. now constructor.
Qed.

Lemma insertByIndex_sorted x l :
  Sorted indexLe l -> Sorted indexLe (insertByIndex x l).
Proof.
  induction 1 as [|y l Hs IH Hh]; simpl; [repeat constructor|].
  destruct (index x <=? index y) eqn:E.
  - apply N.leb_le in E. repeat constructor; auto.
  - apply N.leb_gt in E. constructor; [exact IH|].
    destruct l as [|z l]; simpl.
    + constructor. unfold indexLe. lia.
    + destruct (index x <=? index z); constructor.
      * unfold indexLe. lia.
      * now inversion Hh.
Qed.

Lemma sortByIndex_sorted l : Sorted indexLe (sortByIndex l).
Proof.
  induction l as [|x l IH]; simpl; [constructor|].
  now apply insertByIndex_sorted.
Qed.

(** Stability: the prompts of one index keep their order. *)
Lemma insertByIndex_stable k x l :
  filter (hasIndex k) (insertByIndex x l) = filter (hasIndex k) (x :: l).
Proof.
  induction l as [|y l IH]; [reflexivity|]. simpl insertByIndex.
  destruct (index x <=? index y) eqn:E; [reflexivity|].
  apply N.leb_gt in E. simpl. rewrite IH. simpl. unfold hasIndex.
  destruct (index x =? k) eqn:Ex; destruct (index y =? k) eqn:Ey; auto.
  apply N.eqb_eq in Ex, Ey. lia.
Qed.

Lemma sortByIndex_stable k l :
  filter (hasIndex k) (sortByIndex l) = filter (hasIndex k) l.
Proof.
  induction l as [|x l IH]; [reflexivity|]. simpl sortByIndex.
  rewrite insertByIndex_stable. simpl. now rewrite IH.
Qed.

(** A sorted array is left as it is. *)
Lemma sortByIndex_fixed l : Sorted indexLe l -> sortByIndex l = l.
Proof.
  induction 1 as [|x l Hs IH Hh]; [reflexivity|]. simpl. rewrite IH.
  destruct Hh as [|y l Hxy]; [reflexivity|]. simpl.
  unfold indexLe in Hxy. apply N.leb_le in Hxy. now rewrite Hxy.
Qed.

Lemma toProcess_ordered parsed :
  orderedById (toProcess parsed) (map toPrompt parsed).
Proof.
  change (toProcess parsed) with (map toPrompt (sortByIndex parsed)).
  unfold orderedById. repeat split.
  - apply Permutation_map, sortByIndex_perm.
  - induction (sortByIndex_sorted parsed) as [|x l Hs IH Hh]; simpl;
      constructor; auto.
    destruct Hh; simpl; constructor. assumption.
  - intros k.
    assert (H : forall l, filter (hasId k) (map toPrompt l)
                          = map toPrompt (filter (hasIndex k) l)).
    { induction l as [|x l IH]; [reflexivity|]. simpl. rewrite IH.
      unfold hasId, hasIndex. simpl.
      now destruct (index x =? k). }
    now rewrite !H, sortByIndex_stable.
Qed.

(** A list ordered by id, stable with respect to the flushed one, is
    determined by it. *)
Lemma orderedById_unique out1 : forall out2,
  Sorted (fun a b => p_id a <= p_id b) out1 ->
  Sorted (fun a b => p_id a <= p_id b) out2 ->
  (forall k, filter (hasId k) out1 = filter (hasId k) out2) ->
  out1 = out2.
Proof.
  assert (Htrans : Relations_1.Transitive (fun a b => p_id a <= p_id b))
    by (intros a b c; lia).
  assert (Hhead : forall x t y rest,
            StronglySorted (fun a b => p_id a <= p_id b) (y :: rest) ->
            filter (hasId (p_id x)) (y :: rest) = x :: t ->
            p_id y <= p_id x).
  { intros x t y rest Hs Hf.
    assert (Hin : In x (filter (hasId (p_id x)) (y :: rest)))
      by (rewrite Hf; now left).
    apply filter_In in Hin. destruct Hin as [[->|Hin] _]; [lia|].
    inversion Hs as [|? ? _ Hall]; subst.
    rewrite Forall_forall in Hall. now apply Hall. }
  induction out1 as [|x t1 IH]; intros out2 H1 H2 Hf.
  - destruct out2 as [|y t2]; [reflexivity|].
    specialize (Hf (p_id y)). simpl in Hf. unfold hasId at 1 in Hf.
    rewrite N.eqb_refl in Hf. discriminate.
  - destruct out2 as [|y t2].
    + specialize (Hf (p_id x)). simpl in Hf. unfold hasId at 1 in Hf.
      rewrite N.eqb_refl in Hf. discriminate.
    + pose proof (Sorted_StronglySorted Htrans H1) as S1.
      pose proof (Sorted_StronglySorted Htrans H2) as S2.
      assert (Hxy : p_id x = p_id y).
      { apply N.le_antisymm.
        - apply (Hhead y (filter (hasId (p_id y)) t2) x t1 S1).
          rewrite Hf. simpl. unfold hasId at 1. now rewrite N.eqb_refl.
        - apply (Hhead x (filter (hasId (p_id x)) t1) y t2 S2).
          rewrite <- Hf. simpl. unfold hasId at 1. now rewrite N.eqb_refl. }
      pose proof (Hf (p_id x)) as Hk. simpl in Hk.
      assert (Ex : hasId (p_id x) x = true) by apply N.eqb_refl.
      assert (Ey : hasId (p_id x) y = true)
        by (unfold hasId; rewrite Hxy; apply N.eqb_refl).
      rewrite Ex, Ey in Hk. injection Hk as <- Hk. f_equal.
      apply IH; [now inversion H1|now inversion H2|].
      intros k. specialize (Hf k). simpl in Hf.
      destruct (hasId k x); [now injection Hf|exact Hf].
Qed.

(** ** Numbers and their digits *)

Lemma parseInt10_snoc digits c :
  parseInt10 (digits ++ [c]) = 10 * parseInt10 digits + (c - 48).
Proof. unfold parseInt10. now rewrite fold_left_app. Qed.

Lemma digits_fuel_spec fuel : forall n,
  (0 < fuel)%nat -> n < 2 ^ N.of_nat fuel ->
  parseInt10 (digits_fuel fuel n) = n
  /\ forallb is_digit (digits_fuel fuel n) = true
  /\ digits_fuel fuel n <> [].
Proof.
  induction fuel as [|f IH]; intros n Hf Hn; [lia|].
  cbn [digits_fuel]. destruct (n <? 10) eqn:E.
  - apply N.ltb_lt in E. repeat split; try discriminate.
    + unfold parseInt10. cbn [fold_left]. lia.
    + cbn [forallb]. rewrite andb_true_r. charclass.
  - apply N.ltb_ge in E.
    rewrite Nat2N.inj_succ, N.pow_succ_r' in Hn.
    assert (Hq : n / 10 < 2 ^ N.of_nat f)
      by (apply N.Div0.div_lt_upper_bound; lia).
    assert (Hf' : (0 < f)%nat).
    { destruct f; [|lia]. simpl in Hn. lia. }
    destruct (IH _ Hf' Hq) as (H1 & H2 & H3).
    pose proof (N.mod_upper_bound n 10 ltac:(lia)) as Hm.
    repeat split.
    + rewrite parseInt10_snoc, H1, (N.add_comm 48), N.add_sub.
      symmetry. apply N.div_mod. lia.
    + rewrite forallb_app, H2. cbn [forallb andb]. rewrite andb_true_r.
      clear - Hm. revert Hm. generalize (n mod 10). intros r Hr. charclass.
    + intros H. apply app_eq_nil in H. destruct H as [_ H]. discriminate.
Qed.

Lemma numberToString_spec n :
  parseInt10 (numberToString n) = n
  /\ forallb is_digit (numberToString n) = true
  /\ numberToString n <> [].
Proof.
  apply digits_fuel_spec; [lia|]. rewrite Nat2N.inj_succ, N2Nat.id.
  destruct n as [|p]; [reflexivity|]. apply N.log2_spec. lia.
Qed.

(** ** Lines of a rendered text *)

Lemma split_lf_app a b : split_lf (a ++ LF :: b) = split_lf a ++ split_lf b.
Proof.
  induction a as [|c a IH]; simpl app.
  - now rewrite split_lf_cons_LF.
  - destruct (c =? LF) eqn:E.
    + apply N.eqb_eq in E. subst c. now rewrite !split_lf_cons_LF, IH.
    + destruct (split_lf_inv a) as (l & ls & Ha).
      rewrite (split_lf_cons c a l ls E Ha).
      apply (split_lf_cons c); [exact E|]. now rewrite IH, Ha.
Qed.

Lemma split_lf_prefix a t :
  noLF a = true ->
  split_lf (a ++ t) = (a ++ hd [] (split_lf t)) :: tl (split_lf t).
Proof.
  intros Ha. induction a as [|c a IH]; simpl app.
  - destruct (split_lf_inv t) as (l & ls & ->). reflexivity.
  - simpl in Ha. apply andb_true_iff in Ha. destruct Ha as [Hc Ha].
    apply negb_true_iff in Hc. apply (split_lf_cons c); auto.
Qed.

Lemma split_lf_noLF a : noLF a = true -> split_lf a = [a].
Proof.
  intros Ha. rewrite <- (app_nil_r a) at 1.
  rewrite split_lf_prefix by exact Ha. simpl. now rewrite app_nil_r.
Qed.

Lemma split_lf_lines s : Forall (fun l => noLF l = true) (split_lf s).
Proof.
  induction s as [|c s IH]; [repeat constructor|].
  destruct (c =? LF) eqn:E.
  - apply N.eqb_eq in E. subst c. rewrite split_lf_cons_LF. now constructor.
  - destruct (split_lf_inv s) as (l & ls & Hs). rewrite Hs in IH.
    rewrite (split_lf_cons c s l ls E Hs). inversion IH; subst.
    constructor; auto. simpl. now rewrite E.
Qed.

(** The lines of a first line followed by continuation lines. *)
Lemma split_lf_block first conts :
  noLF first = true -> Forall (fun c => noLF c = true) conts ->
  split_lf (first ++ concat (map (cons LF) conts)) = first :: conts.
Proof.
  intros Hf Hc. revert first Hf. induction Hc as [|c cs Hc _ IH]; intros first Hf.
  - simpl. rewrite app_nil_r. now apply split_lf_noLF.
  - simpl. rewrite split_lf_app.
    rewrite split_lf_noLF by exact Hf. simpl. f_equal. now apply IH.
Qed.

Lemma trimEnd_prefix s : exists post, s = trimEnd s ++ post.
Proof.
  induction s as [|c s [post IH]]; [now exists []|]. simpl.
  destruct (trimEnd s) as [|a t].
  - destruct (is_space c).
    + now exists (c :: s).
    + exists post. simpl in *. now rewrite <- IH.
  - exists post. simpl in *. now rewrite <- IH.
Qed.

Lemma noLF_trim s : noLF s = true -> noLF (trim s) = true.
Proof.
  unfold noLF, trim. intros H.
  destruct (trimStart_suffix s) as [pre Hp].
  destruct (trimEnd_prefix (trimStart s)) as [post Hq].
  rewrite Hp, Hq, !forallb_app in H.
  apply andb_true_iff in H. destruct H as [_ H].
  apply andb_true_iff in H. now destruct H.
Qed.

Lemma noTerminator_noLF s : noTerminator s = true -> noLF s = true.
Proof.
  unfold noTerminator, noLF. rewrite !forallb_forall. intros H x Hx.
  specialize (H x Hx). charclass.
Qed.

(** ** The shape of the parsed texts *)

Lemma conts_trimEnd conts :
  Forall Continuation conts -> conts <> [] -> forall a,
  trimEnd (a ++ concat (map (cons LF) conts))
  = a ++ concat (map (cons LF) conts).
Proof.
  induction 1 as [|c cs Hc Hcs IH]; intros Hn a; [congruence|].
  destruct Hc as (Ht & Hne & _). destruct cs as [|c' cs].
  - simpl. rewrite app_nil_r.
    change (a ++ LF :: c) with (a ++ [LF] ++ c).
    rewrite app_assoc, trimEnd_app; rewrite (Trimmed_trimEnd c Ht); auto.
  - change (a ++ concat (map (cons LF) (c :: c' :: cs)))
      with (a ++ (LF :: c) ++ concat (map (cons LF) (c' :: cs))).
    rewrite app_assoc. apply IH. discriminate.
Qed.

Lemma shape_trimmed first conts t :
  TextShape first conts t -> first <> [] -> Trimmed t.
Proof.
  intros (-> & Hf & _ & Hc) Hn. apply Trimmed_ends.
  - destruct first as [|c f]; [congruence|].
    apply trimStart_app_fixed. eapply Trimmed_nonempty_head; eauto.
  - destruct conts as [|c cs].
    + simpl. rewrite app_nil_r. now apply Trimmed_trimEnd.
    + apply conts_trimEnd; [exact Hc|discriminate].
Qed.

Lemma shape_trim first conts t :
  TextShape first conts t -> WellFormedText (trim t).
Proof.
  intros H. destruct first as [|c0 f].
  - destruct H as (-> & _ & _ & Hc). destruct conts as [|c cs].
    + exists [], []. repeat split; auto.
    + simpl. rewrite trim_cons_space by reflexivity.
      inversion Hc as [|? ? Hc1 Hcs]; subst.
      assert (Hs : TextShape c cs (c ++ concat (map (cons LF) cs))).
      { destruct Hc1 as (? & ? & ? & ?). repeat split; auto. }
      rewrite (shape_trimmed _ _ _ Hs) by apply Hc1.
      exists c, cs. split; [exact Hs|]. intros ->. now destruct Hc1 as (_ & ? & _).
  - rewrite (shape_trimmed _ _ _ H) by discriminate.
    exists (c0 :: f), conts. split; [exact H|discriminate].
Qed.

Lemma WellFormedText_trimmed t : WellFormedText t -> Trimmed t.
Proof.
  intros (first & conts & H & Hn). destruct first as [|c f].
  - rewrite (Hn eq_refl) in H. destruct H as (-> & _). reflexivity.
  - eapply shape_trimmed; [exact H|discriminate].
Qed.

Lemma WellFormedText_lines t first conts :
  TextShape first conts t -> split_lf t = first :: conts.
Proof.
  intros (-> & _ & Hf & Hc). apply split_lf_block; [exact Hf|].
  eapply Forall_impl; [|exact Hc]. now intros c (_ & _ & _ & ?).
Qed.

Lemma flushLast_ok st :
  StateOk st -> Forall (fun p => WellFormedText (text p)) (flushLast st).
Proof.
  destruct st as [acc [cur|]]; intros [Ha Hc]; simpl in *; [|exact Ha].
  apply Forall_app. split; [exact Ha|]. constructor; [|constructor].
  destruct Hc as (first & conts & Hs). simpl. eapply shape_trim; eauto.
Qed.

Lemma parseLine_ok st l : noLF l = true -> StateOk st -> StateOk (parseLine st l).
Proof.
  intros Hl Hst. pose proof (flushLast_ok st Hst) as Hfl.
  destruct st as [acc cur]. destruct Hst as [Ha Hc]. simpl in Ha, Hc.
  unfold parseLine. destruct (matchNumbered (trim l)) as [[d b]|] eqn:Hm.
  - split; [exact Hfl|]. simpl.
    pose proof (matchNumbered_body_trimmed _ _ _ (Trimmed_trim l) Hm) as Hb.
    apply matchNumbered_inv in Hm. destruct Hm as (_ & _ & _ & _ & _ & Hnt).
    exists b, []. rewrite Hb. repeat split; auto.
    + simpl. now rewrite app_nil_r.
    + now apply noTerminator_noLF.
  - destruct cur as [cur|]; [|now split].
    destruct (trim l) as [|a t] eqn:Et; [now split|]. simpl.
    split; [exact Ha|]. simpl.
    destruct Hc as (first & conts & Ht & Hf & Hn & Hcs).
    exists first, (conts ++ [a :: t]). repeat split; auto.
    + rewrite Ht, map_app, concat_app. simpl.
      now rewrite app_nil_r, <- app_assoc.
    + apply Forall_app. split; [exact Hcs|]. constructor; [|constructor].
      rewrite <- Et. repeat split.
      * apply Trimmed_trim.
      * rewrite Et. discriminate.
      * rewrite Et. exact Hm.
      * now apply noLF_trim.
Qed.

Lemma fold_parseLine_ok lines : forall st,
  Forall (fun l => noLF l = true) lines -> StateOk st ->
  StateOk (fold_left parseLine lines st).
Proof.
  induction lines as [|l ls IH]; intros st Hl Hst; [exact Hst|].
  inversion Hl; subst. simpl. apply IH; [assumption|].
  now apply parseLine_ok.
Qed.

Lemma parsePrompts_wellFormed raw :
  Forall (fun p => WellFormedText (text p)) (parsePrompts raw).
Proof.
  apply flushLast_ok, fold_parseLine_ok.
  - apply split_lf_lines.
  - split; simpl; auto.
Qed.

Lemma parseCustomPrompts_wellFormed raw :
  Forall (fun p => WellFormedText (p_text p)) (parseCustomPrompts raw).
Proof.
  unfold parseCustomPrompts, toProcess. apply Forall_map. simpl.
  eapply Permutation_Forall; [apply sortByIndex_perm|].
  apply parsePrompts_wellFormed.
Qed.

(** ** Parsing a rendered list again *)

Lemma parseLine_continuation c acc n x :
  Continuation c ->
  parseLine (acc, Some (mkParsed n x)) c
  = (acc, Some (mkParsed n (x ++ LF :: c))).
Proof.
  intros (Ht & Hn & Hm & _). unfold parseLine. rewrite Ht, Hm.
  destruct c; [congruence|reflexivity].
Qed.

Lemma fold_continuations conts :
  Forall Continuation conts -> forall acc n x,
  fold_left parseLine conts (acc, Some (mkParsed n x))
  = (acc, Some (mkParsed n (x ++ concat (map (cons LF) conts)))).
Proof.
  induction 1 as [|c cs Hc _ IH]; intros acc n x; cbn [fold_left].
  - simpl. now rewrite app_nil_r.
  - rewrite parseLine_continuation by exact Hc. rewrite IH. simpl.
    now rewrite <- app_assoc.
Qed.

Lemma digits_head_not_space digits :
  digits <> [] -> forallb is_digit digits = true ->
  exists c d, digits = c :: d /\ is_space c = false.
Proof.
  destruct digits as [|c d]; [congruence|]. simpl. intros _ H.
  apply andb_true_iff in H. destruct H as [H _].
  exists c, d. split; [reflexivity|]. now apply digit_not_space.
Qed.

(** The first line of a rendered block is read back as its numbered line. *)
Lemma parseLine_headline digits first acc cur :
  digits <> [] -> forallb is_digit digits = true ->
  Trimmed first -> noTerminator first = true ->
  parseLine (acc, cur) (digits ++ [DOT; SPACE] ++ first)
  = (flushLast (acc, cur), Some (mkParsed (parseInt10 digits) first)).
Proof.
  intros Hn Hd Ht Hc.
  assert (Hm : matchNumbered (trim (digits ++ [DOT; SPACE] ++ first))
               = Some (digits, first)).
  { destruct (digits_head_not_space _ Hn Hd) as (c & d & Hcd & Hsp).
    destruct first as [|f0 f].
    - assert (E : trim (digits ++ [DOT; SPACE] ++ []) = digits ++ [DOT]).
      { unfold trim. rewrite Hcd. rewrite trimStart_app_fixed by exact Hsp.
        rewrite <- Hcd. change (digits ++ [DOT; SPACE] ++ [])
          with (digits ++ [DOT] ++ [SPACE]).
        rewrite app_assoc, trimEnd_snoc_space by reflexivity.
        now apply trimEnd_snoc_fixed. }
      rewrite E. now apply (matchNumbered_intro digits []).
    - assert (E : trim (digits ++ [DOT; SPACE] ++ f0 :: f)
                  = digits ++ DOT :: SPACE :: f0 :: f).
      { unfold trim. rewrite Hcd. rewrite trimStart_app_fixed by exact Hsp.
        rewrite <- Hcd. change (digits ++ [DOT; SPACE] ++ f0 :: f)
          with (digits ++ [DOT; SPACE] ++ (f0 :: f)).
        rewrite app_assoc, trimEnd_app;
          rewrite (Trimmed_trimEnd _ Ht); [|discriminate].
        now rewrite <- app_assoc. }
      rewrite E.
      assert (Hs : trimStart (SPACE :: f0 :: f) = f0 :: f).
      { change (trimStart (SPACE :: f0 :: f)) with (trimStart (f0 :: f)).
        now apply Trimmed_trimStart. }
      rewrite <- Hs at 2. apply matchNumbered_intro; auto.
      now rewrite Hs. }
  unfold parseLine. rewrite Hm, Ht. reflexivity.
Qed.

Lemma digits_noLF digits : forallb is_digit digits = true -> noLF digits = true.
Proof.
  unfold noLF. rewrite !forallb_forall. intros H x Hx.
  specialize (H x Hx). charclass.
Qed.

(** A rendered block is read back as its prompt. *)
Lemma fold_block p acc cur :
  WellFormedText (p_text p) -> CleanFirstLine (p_text p) ->
  fold_left parseLine (split_lf (block p)) (acc, cur)
  = (flushLast (acc, cur), Some (toParsed p)).
Proof.
  intros (first & conts & Hs & _) Hc.
  pose proof (WellFormedText_lines _ _ _ Hs) as Hl.
  unfold CleanFirstLine in Hc. rewrite Hl in Hc. simpl in Hc.
  destruct (numberToString_spec (p_id p)) as (Hv & Hd & Hn).
  unfold block. change (js ". ") with [DOT; SPACE].
  rewrite app_assoc, split_lf_prefix, Hl.
  2:{ unfold noLF. rewrite forallb_app. fold (noLF (numberToString (p_id p))).
      now rewrite digits_noLF. }
  cbn [hd tl fold_left]. rewrite <- app_assoc.
  destruct Hs as (Ht & Hf & _ & Hcs).
  rewrite parseLine_headline; auto.
  rewrite fold_continuations by exact Hcs.
  unfold toParsed. now rewrite Hv, Ht.
Qed.

Lemma flushLast_some acc cur :
  flushLast (acc, Some cur) = acc ++ [mkParsed (index cur) (trim (text cur))].
Proof. reflexivity. Qed.

(** The rendering with blank lines between the blocks is read back as the
    prompts rendered. *)
Lemma fold_copyText ps :
  Forall (fun p => WellFormedText (p_text p)) ps ->
  Forall (fun p => CleanFirstLine (p_text p)) ps ->
  forall acc cur,
  flushLast (fold_left parseLine (split_lf (copyText ps)) (acc, cur))
  = flushLast (acc, cur) ++ map toParsed ps.
Proof.
  intros Hw Hc. induction ps as [|p ps IH]; intros acc cur.
  - change (split_lf (copyText [])) with [@nil N]. cbn [fold_left].
    rewrite app_nil_r. now rewrite parseLine_blank.
  - inversion Hw as [|? ? Hw1 Hw2]; inversion Hc as [|? ? Hc1 Hc2]; subst.
    assert (Hp : flushLast (flushLast (acc, cur), Some (toParsed p))
                 = flushLast (acc, cur) ++ [toParsed p]).
    { rewrite flushLast_some. simpl.
      now rewrite (WellFormedText_trimmed _ Hw1). }
    destruct ps as [|q ps].
    + change (copyText [p]) with (block p).
      rewrite fold_block by assumption. exact Hp.
    + change (copyText (p :: q :: ps))
        with (block p ++ LF :: LF :: copyText (q :: ps)).
      rewrite split_lf_app, split_lf_cons_LF, fold_left_app.
      rewrite fold_block by assumption. cbn [fold_left].
      rewrite parseLine_blank by reflexivity.
      rewrite IH by assumption. rewrite Hp. now rewrite <- app_assoc.
Qed.

Lemma parsePrompts_copyText ps :
  Forall (fun p => WellFormedText (p_text p)) ps ->
  Forall (fun p => CleanFirstLine (p_text p)) ps ->
  parsePrompts (copyText ps) = map toParsed ps.
Proof.
  intros Hw Hc. rewrite parsePrompts_lines.
  now rewrite fold_copyText.
Qed.

Lemma toParsed_toPrompt l : map toParsed (map toPrompt l) = l.
Proof.
  induction l as [|[i t] l IH]; simpl; [reflexivity|]. now rewrite IH.
Qed.

(** Parsing the rendering of a parsed list gives the list back, when the
    first lines pass the pattern. *)
Lemma reparse_clean raw :
  Forall (fun p => CleanFirstLine (p_text p)) (parseCustomPrompts raw) ->
  parseCustomPrompts (copyText (parseCustomPrompts raw))
  = parseCustomPrompts raw.
Proof.
  intros Hc. unfold parseCustomPrompts at 1.
  rewrite parsePrompts_copyText;
    [|apply parseCustomPrompts_wellFormed|exact Hc].
  change (toProcess ?l) with (map toPrompt (sortByIndex l)).
  unfold parseCustomPrompts.
  change (toProcess ?l) with (map toPrompt (sortByIndex l)).
  rewrite toParsed_toPrompt, sortByIndex_fixed; [reflexivity|].
  apply sortByIndex_sorted.
Qed.

(** ** The second parse, counted *)

(** The parser delivers one prompt per numbered line. *)
Lemma flushLast_length lines : forall acc cur,
  List.length (flushLast (fold_left parseLine lines (acc, cur)))
  = (List.length acc + match cur with Some _ => 1 | None => 0 end
     + List.length (filter isNumbered lines))%nat.
Proof.
  induction lines as [|l ls IH]; intros acc cur.
  - simpl. destruct cur; rewrite ?length_app; simpl; lia.
  - cbn [fold_left filter].
    assert (Hn : isNumbered l
                 = match matchNumbered (trim l) with
                   | Some _ => true
                   | None => false
                   end) by reflexivity.
    rewrite Hn. unfold parseLine.
    destruct (matchNumbered (trim l)) as [[d b]|].
    + rewrite IH. destruct cur; rewrite ?length_app; simpl; lia.
    + destruct cur as [c|]; [|apply IH].
      destruct (truthy (trim l)); rewrite IH; reflexivity.
Qed.

Lemma parseCustomPrompts_length raw :
  List.length (parseCustomPrompts raw)
  = List.length (filter isNumbered (split_lf raw)).
Proof.
  unfold parseCustomPrompts, toProcess. rewrite length_map.
  rewrite <- (Permutation_length (sortByIndex_perm _)).
  rewrite parsePrompts_lines, flushLast_length. reflexivity.
Qed.

Lemma matchNumbered_dot digits rest :
  digits <> [] -> forallb is_digit digits = true ->
  matchNumbered (digits ++ DOT :: rest)
  = if noTerminator (trimStart rest) then Some (digits, trimStart rest)
    else None.
Proof.
  intros Hn Hd. unfold matchNumbered.
  rewrite span_digits_app by (auto; reflexivity).
  destruct digits; [congruence|]. rewrite N.eqb_refl. reflexivity.
Qed.

(** The first line of a rendered block is a numbered line exactly when the
    first line of the text passes the dot. *)
Lemma headline_isNumbered digits first :
  digits <> [] -> forallb is_digit digits = true -> Trimmed first ->
  isNumbered (digits ++ [DOT; SPACE] ++ first) = noTerminator first.
Proof.
  intros Hn Hd Ht. unfold isNumbered.
  destruct (digits_head_not_space _ Hn Hd) as (c & d & Hcd & Hsp).
  destruct first as [|f0 f].
  - assert (E : trim (digits ++ [DOT; SPACE] ++ []) = digits ++ [DOT]).
    { unfold trim. rewrite Hcd. rewrite trimStart_app_fixed by exact Hsp.
      rewrite <- Hcd. change (digits ++ [DOT; SPACE] ++ [])
        with (digits ++ [DOT] ++ [SPACE]).
      rewrite app_assoc, trimEnd_snoc_space by reflexivity.
      now apply trimEnd_snoc_fixed. }
    rewrite E, matchNumbered_dot by assumption. reflexivity.
  - assert (E : trim (digits ++ [DOT; SPACE] ++ f0 :: f)
                = digits ++ DOT :: SPACE :: f0 :: f).
    { unfold trim. rewrite Hcd. rewrite trimStart_app_fixed by exact Hsp.
      rewrite <- Hcd. change (digits ++ [DOT; SPACE] ++ f0 :: f)
        with (digits ++ [DOT; SPACE] ++ (f0 :: f)).
      rewrite app_assoc, trimEnd_app;
        rewrite (Trimmed_trimEnd _ Ht); [|discriminate].
      now rewrite <- app_assoc. }
    rewrite E, matchNumbered_dot by assumption.
    change (trimStart (SPACE :: f0 :: f)) with (trimStart (f0 :: f)).
    rewrite (Trimmed_trimStart _ Ht).
    now destruct (noTerminator (f0 :: f)).
Qed.

Lemma block_numbered p :
  WellFormedText (p_text p) ->
  List.length (filter isNumbered (split_lf (block p)))
  = if cleanFirstLine p then 1%nat else 0%nat.
Proof.
  intros (first & conts & Hs & _).
  pose proof (WellFormedText_lines _ _ _ Hs) as Hl.
  destruct (numberToString_spec (p_id p)) as (_ & Hd & Hn).
  unfold block, cleanFirstLine. change (js ". ") with [DOT; SPACE].
  rewrite app_assoc, split_lf_prefix, Hl.
  2:{ unfold noLF. rewrite forallb_app. fold (noLF (numberToString (p_id p))).
      now rewrite digits_noLF. }
  cbn [hd tl filter]. rewrite <- app_assoc.
  destruct Hs as (_ & Hf & _ & Hcs).
  rewrite headline_isNumbered by assumption.
  assert (Hc : filter isNumbered conts = []).
  { clear - Hcs. induction Hcs as [|c cs (Ht & _ & Hm & _) _ IH];
      [reflexivity|]. simpl. unfold isNumbered at 1. now rewrite Ht, Hm. }
  rewrite Hc. now destruct (noTerminator first).
Qed.

Lemma copyText_numbered ps :
  Forall (fun p => WellFormedText (p_text p)) ps ->
  List.length (filter isNumbered (split_lf (copyText ps)))
  = List.length (filter cleanFirstLine ps).
Proof.
  induction 1 as [|p ps Hp Hps IH]; [reflexivity|].
  assert (Hb := block_numbered p Hp).
  destruct ps as [|q ps].
  - change (copyText [p]) with (block p). rewrite Hb. simpl.
    now destruct (cleanFirstLine p).
  - change (copyText (p :: q :: ps))
      with (block p ++ LF :: LF :: copyText (q :: ps)).
    rewrite split_lf_app, split_lf_cons_LF, filter_app, length_app, Hb.
    cbn [filter]. change (isNumbered []) with false. cbv iota.
    rewrite IH. cbn [filter]. now destruct (cleanFirstLine p).
Qed.

Lemma filter_all {A} (f : A -> bool) l :
  List.length (filter f l) = List.length l -> Forall (fun x => f x = true) l.
Proof.
  induction l as [|x l IH]; [constructor|]. simpl.
  pose proof (filter_length_le f l) as Hle.
  destruct (f x) eqn:E; simpl; intros H.
  - constructor; [exact E|]. apply IH. lia.
  - lia.
Qed.

(** Parsing the rendering gives the list back exactly when the first lines
    pass the pattern. *)
Lemma reparse_iff raw :
  parseCustomPrompts (copyText (parseCustomPrompts raw))
  = parseCustomPrompts raw
  <-> Forall (fun p => CleanFirstLine (p_text p)) (parseCustomPrompts raw).
Proof.
  split; [|apply reparse_clean].
  intros H. apply (f_equal (@List.length _)) in H.
  rewrite parseCustomPrompts_length in H.
  rewrite copyText_numbered in H by apply parseCustomPrompts_wellFormed.
  apply filter_all in H. exact H.
Qed.

(** ** Texts without carriage returns *)

Lemma forallb_trim (P : N -> bool) s :
  forallb P s = true -> forallb P (trim s) = true.
Proof.
  unfold trim. intros H.
  destruct (trimStart_suffix s) as [pre Hp].
  destruct (trimEnd_prefix (trimStart s)) as [post Hq].
  rewrite Hp, Hq, !forallb_app in H.
  apply andb_true_iff in H. destruct H as [_ H].
  apply andb_true_iff in H. now destruct H.
Qed.

Lemma forallb_lines (P : N -> bool) s :
  forallb P s = true -> Forall (fun l => forallb P l = true) (split_lf s).
Proof.
  induction s as [|c s IH]; [repeat constructor|]. simpl forallb.
  intros H. apply andb_true_iff in H. destruct H as [Hc Hs].
  specialize (IH Hs). destruct (c =? LF) eqn:E.
  - apply N.eqb_eq in E. subst c. rewrite split_lf_cons_LF. now constructor.
  - destruct (split_lf_inv s) as (l & ls & Hl). rewrite Hl in IH.
    rewrite (split_lf_cons c s l ls E Hl). inversion IH; subst.
    constructor; auto. simpl. now rewrite Hc.
Qed.

Lemma parseLine_plain st l :
  forallb plain l = true -> PlainState st -> PlainState (parseLine st l).
Proof.
  intros Hl [Ha Hc]. pose proof (forallb_trim plain l Hl) as Ht.
  destruct st as [acc cur]. simpl in Ha, Hc. unfold parseLine.
  destruct (matchNumbered (trim l)) as [[d b]|] eqn:Hm.
  - split; simpl.
    + destruct cur as [cur|]; [|exact Ha]. apply Forall_app.
      split; [exact Ha|]. constructor; [|constructor]. simpl.
      now apply forallb_trim.
    + apply forallb_trim.
      apply matchNumbered_inv in Hm.
      destruct Hm as (rest & Hr & _ & _ & Hb & _).
      destruct (trimStart_suffix rest) as [pre Hp]. rewrite <- Hb in Hp.
      rewrite Hr, Hp, forallb_app in Ht. simpl in Ht.
      rewrite forallb_app in Ht.
      repeat (apply andb_true_iff in Ht; destruct Ht as [_ Ht]). exact Ht.
  - destruct cur as [cur|]; [|now split].
    destruct (trim l) as [|a t] eqn:Et; [now split|]. simpl.
    split; [exact Ha|]. simpl. rewrite forallb_app, Hc. simpl forallb.
    simpl in Ht. exact Ht.
Qed.

Lemma parsePrompts_plain raw :
  forallb plain raw = true ->
  Forall (fun p => forallb plain (text p) = true) (parsePrompts raw).
Proof.
  intros H. rewrite parsePrompts_lines.
  assert (Hst : PlainState (fold_left parseLine (split_lf raw) ([], None))).
  { pose proof (forallb_lines plain raw H) as Hl.
    assert (H0 : PlainState ([], None)) by (split; simpl; auto).
    revert H0. generalize (@nil ParsedPrompt, @None ParsedPrompt).
    induction Hl as [|l ls Hl _ IH]; intros st Hst; [exact Hst|].
    simpl. apply IH. now apply parseLine_plain. }
  destruct (fold_left parseLine (split_lf raw) ([], None)) as [acc [cur|]];
    destruct Hst as [Ha Hc]; simpl in *; [|exact Ha].
  apply Forall_app. split; [exact Ha|]. constructor; [|constructor].
  simpl. now apply forallb_trim.
Qed.

(** In a text without carriage return, U+2028 or U+2029, the first line of
    every parsed text passes the dot. *)
Lemma plain_clean raw :
  forallb plain raw = true ->
  Forall (fun p => CleanFirstLine (p_text p)) (parseCustomPrompts raw).
Proof.
  intros H. unfold parseCustomPrompts, toProcess. apply Forall_map.
  eapply Permutation_Forall; [apply sortByIndex_perm|].
  eapply Forall_impl; [|apply (parsePrompts_plain raw H)].
  intros p Hp. simpl. unfold CleanFirstLine, noTerminator.
  pose proof (forallb_lines plain _ Hp) as Hl.
  pose proof (split_lf_lines (text p)) as Hn.
  destruct (split_lf (text p)) as [|l ls]; [reflexivity|]. simpl.
  inversion Hl as [|? ? Hl1 _]; inversion Hn as [|? ? Hn1 _]; subst.
  unfold noLF in Hn1. rewrite forallb_forall in *. intros c Hc.
  specialize (Hl1 c Hc). specialize (Hn1 c Hc). unfold plain in Hl1.
  destruct (is_line_terminator c); [|reflexivity].
  simpl in Hl1. rewrite Hl1 in Hn1. discriminate.
Qed.

(** The second parse of a text without carriage return, U+2028 or U+2029
    gives the first one back. *)
Lemma reparse_plain raw :
  forallb plain raw = true ->
  parseCustomPrompts (copyText (parseCustomPrompts raw))
  = parseCustomPrompts raw.
Proof. intros H. apply reparse_clean. now apply plain_clean. Qed.

(** ** The services *)

Section PipelineFacts.

Context {World File : Type}.
Variable svc : Services World File.

Ltac step_handler :=
  unfold bind, ret, setGeneratedPrompts, setGeneratedImages, setAppState,
    setProgressMessage, setError, setFailedPrompts, setAiRequestPrompt,
    modifyDisplay, await, awaitProvider in *; simpl in *.

Lemma includes_nil sub : sub <> [] -> includes [] sub = false.
Proof. destruct sub; [congruence|reflexivity]. Qed.

(** [generateImage] answers with an image or with one of three messages,
    and with the message on safety exactly when the SDK threw an error whose
    text is taken as a policy block. *)
Lemma generateImage_blocked prompt ratio w :
  (exists e, res_error (fst (generateImage svc prompt ratio w)) = Some e
             /\ includes e (js "safety reasons") = true)
  <-> (exists err, fst (sdk_generateImages svc prompt ratio w) = SdkThrows err
       /\ isPolicyBlock (messageOr (js "An unknown error occurred.") err) = true).
Proof.
  unfold generateImage.
  destruct (sdk_generateImages svc prompt ratio w) as [[[[|[bytes|] l]|]|err] w'];
    simpl.
  1-4: split; [intros (e & [= <-] & He); vm_compute in He; discriminate
              | intros (err & [=] & _)].
  destruct (isPolicyBlock (messageOr (js "An unknown error occurred.") err))
    eqn:E; simpl.
  - split; [intros _; now exists err|].
    intros _. exists SAFETY_BLOCKED. split; reflexivity.
  - split; [intros (e & [= <-] & He); vm_compute in He; discriminate|].
    intros (err' & [= <-] & He). congruence.
Qed.

Lemma generateImage_success_no_error prompt ratio w :
  res_base64 (fst (generateImage svc prompt ratio w)) <> None ->
  res_error (fst (generateImage svc prompt ratio w)) = None.
Proof.
  unfold generateImage.
  destruct (sdk_generateImages svc prompt ratio w) as [[[[|[bytes|] l]|]|err] w'];
    simpl; try congruence.
  destruct (isPolicyBlock _); simpl; congruence.
Qed.

(** A failure of [generateImageWithStability] carries a non-empty message
    and no image. *)
Lemma stability_failure prompt ratio w e :
  res_error (fst (generateImageWithStability svc prompt ratio w)) = Some e ->
  e <> [] /\ res_base64 (fst (generateImageWithStability svc prompt ratio w)) = None.
Proof.
  unfold generateImageWithStability.
  destruct (STABILITY_API_KEY svc) as [[|k0 k]|]; simpl;
    try (intros [= <-]; split; [discriminate|reflexivity]).
  destruct (stability_post svc (k0 :: k) prompt ratio w) as [[b|fe|err] w'];
    simpl; [discriminate| |]; intros [= <-]; split; try reflexivity;
    discriminate.
Qed.

(** ** One attempt *)

Lemma attemptImage_result promptData finalPrompt ratio m :
  fst (attemptImage svc promptData finalPrompt ratio m)
  = if shouldFallBack svc (primaryOf svc finalPrompt ratio m)
    then (enrich (secondaryOf svc finalPrompt ratio m), stability)
    else (primaryOf svc finalPrompt ratio m, google).
Proof.
  unfold attemptImage, primaryOf, secondaryOf. step_handler.
  destruct (generateImage svc finalPrompt ratio (world m)) as [r1 w1]. simpl.
  destruct (shouldFallBack svc r1); [|reflexivity]. simpl.
  destruct (generateImageWithStability svc finalPrompt ratio w1). reflexivity.
Qed.

Lemma attemptImage_calls promptData finalPrompt ratio m :
  calls (snd (attemptImage svc promptData finalPrompt ratio m))
  = calls m
    ++ (appState (display m), CallGoogle finalPrompt ratio)
    :: (if shouldFallBack svc (primaryOf svc finalPrompt ratio m)
        then [(appState (display m), CallStability finalPrompt ratio)]
        else []).
Proof.
  unfold attemptImage, primaryOf. step_handler.
  destruct (generateImage svc finalPrompt ratio (world m)) as [r1 w1]. simpl.
  destruct (shouldFallBack svc r1); [|reflexivity]. simpl.
  destruct (generateImageWithStability svc finalPrompt ratio w1). simpl.
  now rewrite <- app_assoc.
Qed.

Lemma attemptImage_frame promptData finalPrompt ratio m :
  sameButProgress (display m)
    (display (snd (attemptImage svc promptData finalPrompt ratio m))).
Proof.
  unfold attemptImage, sameButProgress. step_handler.
  destruct (generateImage svc finalPrompt ratio (world m)) as [r1 w1]. simpl.
  destruct (shouldFallBack svc r1); simpl; [|tauto].
  destruct (generateImageWithStability svc finalPrompt ratio w1). simpl. tauto.
Qed.

Lemma shouldFallBack_iff result :
  shouldFallBack svc result = true
  <-> (exists e, res_error result = Some e
                 /\ includes e (js "safety reasons") = true)
      /\ truthyOpt (STABILITY_API_KEY svc) = true.
Proof.
  unfold shouldFallBack. destruct (res_error result) as [e|].
  - rewrite !andb_true_iff. split.
    + intros [[_ Hi] Hk]. split; [now exists e|exact Hk].
    + intros [(e' & [= <-] & Hi) Hk]. repeat split; auto.
      destruct e; [|reflexivity]. now rewrite includes_nil in Hi.
  - split; [discriminate|]. intros [(e & [=] & _) _].
Qed.

(** ** The loop over the prompts *)

Lemma newImageOf_records p result engine :
  RecordsPrompt p (newImageOf p result engine).
Proof.
  unfold newImageOf, RecordsPrompt, Terminal.
  destruct (res_base64 result) as [[|b0 b]|]; simpl;
    (split; [reflexivity|]); (split; [reflexivity|]);
    (split; [discriminate|]).
  - right. split; [reflexivity|discriminate].
  - left. split; [discriminate|reflexivity].
  - right. split; [reflexivity|discriminate].
Qed.

Lemma imageLoop_cons inp style total i p rest acc failed m :
  imageLoop svc inp style total i (p :: rest) acc failed m
  = let m0 := snd (setProgressMessage (progressOf total i p) m) in
    let a := attemptImage svc p (finalPromptOf inp style p) (aspectRatio inp) m0 in
    let acc' := acc ++ [newImageOf p (fst (fst a)) (snd (fst a))] in
    imageLoop svc inp style total (i + 1) rest acc'
      (if hasFailed (fst (fst a)) then failed ++ [p] else failed)
      (snd (setGeneratedImages acc' (snd a))).
Proof.
  cbn [imageLoop]. unfold bind at 1 2. cbn zeta.
  unfold progressOf.
  destruct (setProgressMessage _ m) as [[] m0]. cbn [snd].
  destruct (attemptImage svc p (finalPromptOf inp style p) (aspectRatio inp) m0)
    as [[result engine] m1]. cbn [fst snd]. unfold bind.
  destruct (setGeneratedImages _ m1) as [[] m2]. reflexivity.
Qed.

Lemma imageLoop_spec inp style total : forall todo i acc failed m,
  generatedImages (display m) = acc ->
  let run := imageLoop svc inp style total i todo acc failed m in
  (exists new, fst (fst run) = acc ++ new /\ Forall2 RecordsPrompt todo new)
  /\ generatedImages (display (snd run)) = fst (fst run)
  /\ appState (display (snd run)) = appState (display m)
  /\ generatedPrompts (display (snd run)) = generatedPrompts (display m)
  /\ error (display (snd run)) = error (display m)
  /\ exists made,
       calls (snd run) = calls m ++ made
       /\ googlePrompts made = map (finalPromptOf inp style) todo
       /\ Forall (fun c => fst c = appState (display m)) made
       /\ Forall (ImageCallFor inp style todo) made.
Proof.
  induction todo as [|p rest IH]; intros i acc failed m Hacc.
  - simpl. repeat split; auto.
    + exists []. rewrite app_nil_r. split; [reflexivity|constructor].
    + exists []. rewrite app_nil_r. repeat split; constructor.
  - cbv zeta. rewrite imageLoop_cons. cbv zeta.
    set (m0 := snd (setProgressMessage (progressOf total i p) m)).
    set (a := attemptImage svc p (finalPromptOf inp style p) (aspectRatio inp) m0).
    set (acc' := acc ++ [newImageOf p (fst (fst a)) (snd (fst a))]).
    set (m2 := snd (setGeneratedImages acc' (snd a))).
    destruct (attemptImage_frame p (finalPromptOf inp style p) (aspectRatio inp) m0)
      as (Fp & Fi & Fs & Fe & _). fold a in Fp, Fi, Fs, Fe.
    pose proof (attemptImage_calls p (finalPromptOf inp style p) (aspectRatio inp) m0)
      as Hcalls. fold a in Hcalls.
    assert (H2 : generatedImages (display m2) = acc') by reflexivity.
    specialize (IH (i + 1) acc'
                  (if hasFailed (fst (fst a)) then failed ++ [p] else failed)
                  m2 H2).
    cbv zeta in IH.
    destruct IH as ((new & Hnew & Hrec) & Himg & Hst & Hgp & Herr
                    & made & Hmade & Hgoogle & Hstate & Hfor).
    assert (Es : appState (display m2) = appState (display m))
      by (unfold m2; step_handler; rewrite Fs; reflexivity).
    repeat split.
    + exists (newImageOf p (fst (fst a)) (snd (fst a)) :: new). split.
      * rewrite Hnew. unfold acc'. now rewrite <- app_assoc.
      * constructor; [apply newImageOf_records|exact Hrec].
    + exact Himg.
    + now rewrite Hst.
    + rewrite Hgp. unfold m2. step_handler. rewrite Fp. reflexivity.
    + rewrite Herr. unfold m2. step_handler. rewrite Fe. reflexivity.
    + set (second := if shouldFallBack svc (primaryOf svc (finalPromptOf inp style p) (aspectRatio inp) m0)
                     then [(appState (display m0), CallStability (finalPromptOf inp style p) (aspectRatio inp))]
                     else []) in Hcalls.
      exists ((appState (display m0), CallGoogle (finalPromptOf inp style p) (aspectRatio inp))
              :: second ++ made).
      assert (Hc2 : calls m2 = calls (snd a)) by reflexivity.
      assert (Hc0 : calls m0 = calls m) by reflexivity.
      assert (Hs0 : appState (display m0) = appState (display m)) by reflexivity.
      repeat split.
      * rewrite Hmade, Hc2, Hcalls, Hc0, <- app_assoc. reflexivity.
      * simpl. f_equal. unfold googlePrompts in *. rewrite flat_map_app, Hgoogle.
        unfold second. destruct (shouldFallBack _ _); reflexivity.
      * constructor; [exact Hs0|]. apply Forall_app. split.
        -- unfold second.
           destruct (shouldFallBack _ _); [|constructor].
           constructor; [exact Hs0|constructor].
        -- rewrite <- Es. exact Hstate.
      * constructor; [exists p; split; [now left|now left]|].
        apply Forall_app. split.
        -- unfold second.
           destruct (shouldFallBack _ _); [|constructor].
           constructor; [|constructor].
           exists p. split; [now left|now right].
        -- eapply Forall_impl; [|exact Hfor]. intros c (q & Hq & Hc).
           exists q. split; [now right|exact Hc].
Qed.

(** ** The stages of the handler *)

Lemma resolveStyle_without_reference inp m :
  referenceImageFile inp = None ->
  resolveStyle svc inp m = (Some (imageStyle inp), m).
Proof. unfold resolveStyle. now intros ->. Qed.

(** With a reference image that is read and described, the style is the
    description, a comma and a space, and the keywords. *)
Lemma resolveStyle_with_reference inp m file imageData w1 responseText w2 :
  referenceImageFile inp = Some file ->
  fileToBase64 svc file (world m) = (inl imageData, w1) ->
  sdk_describeImage svc imageData w1 = (inl (Some responseText), w2) ->
  fst (resolveStyle svc inp m)
  = Some (trim responseText ++ js ", " ++ imageStyle inp).
Proof.
  intros Hf Hr Hd. unfold resolveStyle, analyzeImageStyle. rewrite Hf.
  step_handler. rewrite Hr. simpl. rewrite Hd. reflexivity.
Qed.

Lemma resolveStyle_spec inp m :
  let run := resolveStyle svc inp m in
  generatedPrompts (display (snd run)) = generatedPrompts (display m)
  /\ generatedImages (display (snd run)) = generatedImages (display m)
  /\ (exists made,
        calls (snd run) = calls m ++ made
        /\ (made = [] \/ made = [(appState (display m), CallAnalyzeStyle)]))
  /\ match fst run with
     | Some _ =>
         appState (display (snd run)) = appState (display m)
         /\ error (display (snd run)) = error (display m)
     | None =>
         appState (display (snd run)) = IDLE
         /\ error (display (snd run)) <> None
     end.
Proof.
  unfold resolveStyle. destruct (referenceImageFile inp) as [file|].
  2:{ simpl. repeat split; auto. exists []. rewrite app_nil_r. auto. }
  step_handler.
  destruct (fileToBase64 svc file (world m)) as [[imageData|err] w1]; simpl.
  - destruct (analyzeImageStyle svc imageData w1) as [[described|err] w2];
      simpl; repeat split; auto; try discriminate;
      exists [(appState (display m), CallAnalyzeStyle)]; auto.
  - repeat split; auto; try discriminate.
    exists []. rewrite app_nil_r. auto.
Qed.

Lemma acquirePrompts_spec inp style m :
  let run := acquirePrompts svc inp style m in
  generatedImages (display (snd run)) = generatedImages (display m)
  /\ (exists made,
        calls (snd run) = calls m ++ made
        /\ Forall (fun c => fst c = appState (display m)
                           /\ isGeneratePrompts c) made)
  /\ match fst run with
     | Some promptsToProcess =>
         promptsToProcess <> []
         /\ generatedPrompts (display (snd run)) = promptsToProcess
         /\ appState (display (snd run)) = appState (display m)
         /\ error (display (snd run)) = error (display m)
     | None =>
         appState (display (snd run)) = IDLE
         /\ error (display (snd run)) <> None
     end.
Proof.
  assert (Hnil : forall A (l : list A), l = l ++ []) by
    (intros; now rewrite app_nil_r).
  unfold acquirePrompts. destruct (promptSource inp).
  - destruct (truthy (trim (script inp))); simpl; step_handler.
    + destruct (generatePrompts svc (script inp) style (niche inp) (world m))
        as [[[generated requestPrompt]|err] w1]; simpl.
      * destruct (numberFrom 0 generated) eqn:E; simpl;
          repeat split; auto; try discriminate;
          eexists; (split; [reflexivity|]);
          (constructor; [|constructor]); (split; [reflexivity|]);
          unfold isGeneratePrompts; simpl; eauto.
      * repeat split; auto; try discriminate.
        eexists; (split; [reflexivity|]).
        (constructor; [|constructor]); (split; [reflexivity|]).
        unfold isGeneratePrompts; simpl; eauto.
    + repeat split; auto; try discriminate. exists []. split; auto.
  - destruct (truthy (trim (customPrompts inp))); simpl; step_handler.
    + destruct (N.of_nat (List.length (parsePrompts (customPrompts inp))) =? 0);
        simpl.
      * repeat split; auto; try discriminate. exists []. split; auto.
      * destruct (toProcess (parsePrompts (customPrompts inp))) eqn:E; simpl;
          repeat split; auto; try discriminate; exists []; split; auto.
    + repeat split; auto; try discriminate. exists []. split; auto.
Qed.

(** In custom mode no provider is called to get the prompts, and the
    prompts are the parsed ones. *)
Lemma acquirePrompts_custom inp style m :
  promptSource inp = custom_source ->
  let run := acquirePrompts svc inp style m in
  calls (snd run) = calls m
  /\ world (snd run) = world m
  /\ match parseCustomPrompts (customPrompts inp) with
     | [] =>
         fst run = None
         /\ appState (display (snd run)) = IDLE
         /\ (error (display (snd run))
             = Some (js "Custom prompts field cannot be empty.")
             \/ error (display (snd run)) = Some NO_VALID_PROMPTS)
     | parsed => fst run = Some parsed
     end.
Proof.
  intros Hs. unfold acquirePrompts. rewrite Hs.
  assert (Hlen : forall l, (N.of_nat (List.length l) =? 0) = true
                           -> toProcess l = []).
  { intros [|x l]; [reflexivity|]. simpl List.length.
    rewrite N.eqb_eq. lia. }
  assert (Hlen' : forall l, (N.of_nat (List.length l) =? 0) = false
                            -> toProcess l <> []).
  { intros [|x l]; [discriminate|]. intros _ H.
    apply (f_equal (@List.length _)) in H. unfold toProcess in H.
    rewrite length_map in H.
    pose proof (Permutation_length (sortByIndex_perm (x :: l))) as Hp.
    rewrite <- Hp in H. discriminate. }
  unfold parseCustomPrompts.
  destruct (truthy (trim (customPrompts inp))) eqn:Et; simpl; step_handler.
  - destruct (N.of_nat (List.length (parsePrompts (customPrompts inp))) =? 0)
      eqn:El; simpl.
    + rewrite (Hlen _ El). repeat split; auto.
    + specialize (Hlen' _ El).
      destruct (toProcess (parsePrompts (customPrompts inp))); [congruence|].
      simpl. repeat split; auto.
  - assert (Hp : parsePrompts (customPrompts inp) = []).
    { destruct (trim (customPrompts inp)) eqn:E; [|discriminate].
      unfold parsePrompts. rewrite E. reflexivity. }
    rewrite Hp. simpl. repeat split; auto.
Qed.

Lemma imageStage_unfold inp style promptsToProcess m :
  let run := imageLoop svc inp style
               (N.of_nat (List.length promptsToProcess)) 0 promptsToProcess
               [] [] (snd (setAppState GENERATING_IMAGES m)) in
  exists msg,
    snd (imageStage svc inp style promptsToProcess m)
    = finished (snd (fst run)) msg (snd run).
Proof.
  cbv zeta. unfold imageStage, bind.
  destruct (setAppState GENERATING_IMAGES m) as [[] m1]. cbn [snd].
  destruct (imageLoop svc inp style _ 0 promptsToProcess [] [] m1)
    as [[results failed] m2]. cbn [fst snd].
  destruct (_ =? _); eexists; reflexivity.
Qed.

Lemma imageStage_spec inp style promptsToProcess m :
  generatedImages (display m) = [] ->
  let after := snd (imageStage svc inp style promptsToProcess m) in
  appState (display after) = DONE
  /\ Forall2 RecordsPrompt promptsToProcess (generatedImages (display after))
  /\ generatedPrompts (display after) = generatedPrompts (display m)
  /\ error (display after) = error (display m)
  /\ exists made,
       calls after = calls m ++ made
       /\ googlePrompts made = map (finalPromptOf inp style) promptsToProcess
       /\ Forall (fun c => fst c = GENERATING_IMAGES) made
       /\ Forall (ImageCallFor inp style promptsToProcess) made.
Proof.
  intros Hi. cbv zeta.
  destruct (imageStage_unfold inp style promptsToProcess m) as [msg ->].
  set (m1 := snd (setAppState GENERATING_IMAGES m)).
  assert (H1 : generatedImages (display m1) = []) by exact Hi.
  destruct (imageLoop_spec inp style (N.of_nat (List.length promptsToProcess))
              promptsToProcess 0 [] [] m1 H1)
    as ((new & Hnew & Hrec) & Himg & Hst & Hgp & Herr
        & made & Hmade & Hgoogle & Hstate & Hfor).
  unfold finished. cbn [display appState generatedImages generatedPrompts
                        error calls].
  repeat split.
  - rewrite Himg, Hnew. exact Hrec.
  - exact Hgp.
  - exact Herr.
  - exists made. repeat split; auto.
Qed.

(** ** The handler as a whole *)

Lemma handleGenerate_unfold inp m :
  snd (handleGenerate svc inp m)
  = let styled := resolveStyle svc inp (started m) in
    match fst styled with
    | None => snd styled
    | Some style =>
        let acquired := acquirePrompts svc inp style (snd styled) in
        match fst acquired with
        | None => snd acquired
        | Some promptsToProcess =>
            snd (imageStage svc inp style promptsToProcess (snd acquired))
        end
    end.
Proof.
  destruct m as [[gp gi st pm er fp ar] w cs].
  lazy beta iota zeta delta
    [handleGenerate bind ret setError setProgressMessage setGeneratedImages
     setGeneratedPrompts setFailedPrompts setAiRequestPrompt setAppState
     modifyDisplay started display world calls generatedPrompts
     generatedImages appState progressMessage error failedPrompts
     aiRequestPrompt].
  destruct (resolveStyle svc inp _) as [[style|] m1]; cbn [fst snd];
    [|reflexivity].
  destruct (acquirePrompts svc inp style m1) as [[ps|] m2]; reflexivity.
Qed.

Lemma googlePrompts_none made :
  Forall (fun c => snd c = CallAnalyzeStyle \/ isGeneratePrompts c) made ->
  googlePrompts made = [].
Proof.
  induction 1 as [|c cs Hc _ IH]; [reflexivity|]. simpl. rewrite IH.
  destruct Hc as [->|(s & st & n & ->)]; reflexivity.
Qed.

Lemma handleGenerate_spec inp m :
  let after := snd (handleGenerate svc inp m) in
  (exists made, calls after = calls m ++ made /\ Forall whileGenerating made)
  /\ Outcome svc inp m after.
Proof.
  cbv zeta. rewrite handleGenerate_unfold. cbv zeta.
  destruct (resolveStyle_spec inp (started m))
    as (Rp & Ri & (made1 & Rc & Rm) & Rout).
  assert (Hmade1 : Forall whileGenerating made1
                   /\ Forall (fun c => snd c = CallAnalyzeStyle
                                       \/ isGeneratePrompts c) made1).
  { destruct Rm as [->| ->].
    - split; constructor.
    - split; (constructor; [now left|constructor]). }
  destruct Hmade1 as [Hw1 Hk1].
  destruct (fst (resolveStyle svc inp (started m))) as [style|] eqn:Es.
  2:{ destruct Rout as [Rs Re]. split.
      - exists made1. split; [exact Rc|exact Hw1].
      - apply Aborted; auto. }
  destruct Rout as [Rs Re].
  set (m1 := snd (resolveStyle svc inp (started m))) in *.
  destruct (acquirePrompts_spec inp style m1)
    as (Ai & (made2 & Ac & Am) & Aout).
  assert (Hw2 : Forall whileGenerating made2).
  { eapply Forall_impl; [|exact Am]. intros c [Hc _]. left.
    rewrite Hc, Rs. reflexivity. }
  assert (Hk2 : Forall (fun c => snd c = CallAnalyzeStyle
                                  \/ isGeneratePrompts c) made2).
  { eapply Forall_impl; [|exact Am]. intros c [_ Hc]. now right. }
  destruct (fst (acquirePrompts svc inp style m1)) as [ps|] eqn:Ea.
  2:{ destruct Aout as [As Ae]. split.
      - exists (made1 ++ made2). split.
        + rewrite Ac, Rc. simpl. now rewrite app_assoc.
        + apply Forall_app. now split.
      - apply Aborted; auto. rewrite Ai, Ri. reflexivity. }
  destruct Aout as (An & Ap & As & Ae).
  set (m2 := snd (acquirePrompts svc inp style m1)) in *.
  assert (Hi2 : generatedImages (display m2) = [])
    by (rewrite Ai, Ri; reflexivity).
  destruct (imageStage_spec inp style ps m2 Hi2)
    as (Is & Irec & Ip & Ie & made3 & Ic & Ig & Ist & Ifor).
  split.
  - exists (made1 ++ made2 ++ made3). split.
    + rewrite Ic, Ac, Rc. simpl. now rewrite !app_assoc.
    + rewrite !Forall_app. repeat split; auto.
      eapply Forall_impl; [|exact Ist]. intros c Hc. now right.
  - apply (Completed svc inp m _ style (made1 ++ made2 ++ made3)); auto.
    + rewrite Ie, Ae, Re. reflexivity.
    + rewrite Ip, Ap. exact An.
    + rewrite Ip, Ap. exact Irec.
    + rewrite Ic, Ac, Rc. simpl. now rewrite !app_assoc.
    + rewrite Ip, Ap. unfold googlePrompts in *. rewrite !flat_map_app.
      fold (googlePrompts made1). fold (googlePrompts made2).
      rewrite (googlePrompts_none _ Hk1), (googlePrompts_none _ Hk2).
      exact Ig.
    + rewrite Ip, Ap. rewrite !Forall_app. repeat split.
      * eapply Forall_impl; [|exact Hk1]. intros c [H|H]; auto.
      * eapply Forall_impl; [|exact Hk2]. intros c [H|H]; auto.
      * eapply Forall_impl; [|exact Ifor]. intros c H; auto.
Qed.

(** The log of the loop, attempt by attempt. *)
Lemma imageLoop_groups inp style total : forall todo i acc failed m,
  exists groups,
    calls (snd (imageLoop svc inp style total i todo acc failed m))
    = calls m ++ concat groups
    /\ Forall2 (AttemptGroup inp style (appState (display m))) todo groups.
Proof.
  induction todo as [|p rest IH]; intros i acc failed m.
  - exists []. simpl. rewrite app_nil_r. split; [reflexivity|constructor].
  - rewrite imageLoop_cons. cbv zeta.
    set (m0 := snd (setProgressMessage (progressOf total i p) m)).
    set (a := attemptImage svc p (finalPromptOf inp style p) (aspectRatio inp) m0).
    set (acc' := acc ++ [newImageOf p (fst (fst a)) (snd (fst a))]).
    set (m2 := snd (setGeneratedImages acc' (snd a))).
    destruct (attemptImage_frame p (finalPromptOf inp style p) (aspectRatio inp) m0)
      as (_ & _ & Fs & _). fold a in Fs.
    pose proof (attemptImage_calls p (finalPromptOf inp style p) (aspectRatio inp) m0)
      as Hcalls. fold a in Hcalls.
    destruct (IH (i + 1) acc'
                (if hasFailed (fst (fst a)) then failed ++ [p] else failed) m2)
      as (groups & Hg & Hall).
    assert (Es : appState (display m2) = appState (display m))
      by (unfold m2; step_handler; rewrite Fs; reflexivity).
    assert (Hc2 : calls m2 = calls (snd a)) by reflexivity.
    assert (Hc0 : calls m0 = calls m) by reflexivity.
    assert (Hs0 : appState (display m0) = appState (display m)) by reflexivity.
    rewrite Es in Hall. rewrite Hs0 in Hcalls.
    eexists (_ :: groups). split.
    + rewrite Hg, Hc2, Hcalls, Hc0. simpl concat.
      rewrite <- app_assoc. reflexivity.
    + constructor; [|exact Hall]. unfold AttemptGroup.
      destruct (shouldFallBack svc _); [now right|now left].
Qed.

(** The log of a run that ends in [DONE]: the calls of the prompt phase,
    then the attempts, prompt by prompt. *)
Lemma handleGenerate_groups inp m :
  let after := snd (handleGenerate svc inp m) in
  appState (display after) = DONE ->
  exists style preparation groups,
    fst (resolveStyle svc inp (started m)) = Some style
    /\ calls after = calls m ++ preparation ++ concat groups
    /\ Forall isPreparation preparation
    /\ Forall2 (AttemptGroup inp style GENERATING_IMAGES)
         (generatedPrompts (display after)) groups.
Proof.
  cbv zeta. rewrite handleGenerate_unfold. cbv zeta.
  destruct (resolveStyle_spec inp (started m))
    as (_ & Ri & (made1 & Rc & Rm) & Rout).
  destruct (fst (resolveStyle svc inp (started m))) as [style|];
    [|destruct Rout as [Rs _]; intros H; rewrite Rs in H; discriminate].
  destruct Rout as [Rs _].
  set (m1 := snd (resolveStyle svc inp (started m))) in *.
  destruct (acquirePrompts_spec inp style m1) as (Ai & (made2 & Ac & Am) & Aout).
  destruct (fst (acquirePrompts svc inp style m1)) as [ps|];
    [|destruct Aout as [As _]; intros H; rewrite As in H; discriminate].
  destruct Aout as (_ & Ap & _).
  set (m2 := snd (acquirePrompts svc inp style m1)) in *.
  intros _.
  destruct (imageStage_unfold inp style ps m2) as [msg ->].
  set (m3 := snd (setAppState GENERATING_IMAGES m2)).
  destruct (imageLoop_groups inp style (N.of_nat (List.length ps)) ps 0 [] [] m3)
    as (groups & Hg & Hall).
  destruct (imageLoop_spec inp style (N.of_nat (List.length ps)) ps 0 [] [] m3)
    as (_ & _ & _ & Hgp & _).
  { change (generatedImages (display m3))
      with (generatedImages (display m2)). rewrite Ai, Ri. reflexivity. }
  exists style, (made1 ++ made2), groups.
  unfold finished. cbn [display calls generatedPrompts].
  split; [reflexivity|]. split; [|split].
  - rewrite Hg. change (calls m3) with (calls m2). rewrite Ac, Rc.
    simpl. now rewrite !app_assoc.
  - apply Forall_app. split.
    + destruct Rm as [-> | ->]; [constructor|].
      constructor; [now left|constructor].
    + eapply Forall_impl; [|exact Am]. intros c [_ Hc]. now right.
  - rewrite Hgp. change (generatedPrompts (display m3))
      with (generatedPrompts (display m2)). rewrite Ap. exact Hall.
Qed.

(** A custom run without a reference image goes through the image stage
    whenever a prompt is parsed, whatever the services answer. *)
Lemma custom_run_completes inp m :
  promptSource inp = custom_source ->
  referenceImageFile inp = None ->
  parseCustomPrompts (customPrompts inp) <> [] ->
  let after := snd (handleGenerate svc inp m) in
  appState (display after) = DONE
  /\ generatedPrompts (display after) = parseCustomPrompts (customPrompts inp).
Proof.
  intros Hc Hr Hp. cbv zeta. rewrite handleGenerate_unfold. cbv zeta.
  rewrite (resolveStyle_without_reference inp _ Hr). cbn [fst snd].
  pose proof (acquirePrompts_custom inp (imageStyle inp) (started m) Hc) as Ha.
  destruct (acquirePrompts_spec inp (imageStyle inp) (started m))
    as (Ai & _ & Aout).
  cbv zeta in Ha.
  destruct (parseCustomPrompts (customPrompts inp)) as [|p ps] eqn:E;
    [congruence|].
  destruct Ha as (_ & _ & Ha). rewrite Ha in *.
  destruct Aout as (_ & Ap & _).
  assert (Hi : generatedImages
                 (display (snd (acquirePrompts svc inp (imageStyle inp)
                                  (started m)))) = [])
    by (rewrite Ai; reflexivity).
  destruct (imageStage_spec inp (imageStyle inp) (p :: ps) _ Hi)
    as (Is & _ & Ip & _).
  split; [exact Is|]. now rewrite Ip, Ap.
Qed.

(** ** The run, attempt by attempt *)

Lemma attemptImage_world promptData finalPrompt ratio m :
  world (snd (attemptImage svc promptData finalPrompt ratio m))
  = worldAfterAttempt svc finalPrompt ratio (world m).
Proof.
  unfold attemptImage, worldAfterAttempt. step_handler.
  destruct (generateImage svc finalPrompt ratio (world m)) as [r1 w1]. simpl.
  destruct (shouldFallBack svc r1); [|reflexivity]. simpl.
  destruct (generateImageWithStability svc finalPrompt ratio w1). reflexivity.
Qed.

Lemma attemptWorlds_length inp style : forall todo w,
  List.length (attemptWorlds svc inp style w todo) = List.length todo.
Proof.
  induction todo as [|p rest IH]; intros w; [reflexivity|].
  cbn [attemptWorlds List.length]. now rewrite IH.
Qed.

(** The results and the log of the loop, from the answers of the services
    in the worlds the attempts go through. *)
Lemma imageLoop_trace inp style total : forall todo i acc failed m,
  let run := imageLoop svc inp style total i todo acc failed m in
  let steps := combine todo (attemptWorlds svc inp style (world m) todo) in
  fst (fst run)
  = acc ++ map (fun pw => attemptRecord svc inp style (fst pw) (snd pw)) steps
  /\ calls (snd run)
     = calls m
       ++ concat (map (fun pw => attemptCalls svc inp style
                                   (appState (display m)) (fst pw) (snd pw))
                    steps).
Proof.
  induction todo as [|p rest IH]; intros i acc failed m.
  - simpl. now rewrite !app_nil_r.
  - cbv zeta. rewrite imageLoop_cons. cbv zeta.
    set (m0 := snd (setProgressMessage (progressOf total i p) m)).
    set (a := attemptImage svc p (finalPromptOf inp style p) (aspectRatio inp) m0).
    set (acc' := acc ++ [newImageOf p (fst (fst a)) (snd (fst a))]).
    set (m2 := snd (setGeneratedImages acc' (snd a))).
    destruct (attemptImage_frame p (finalPromptOf inp style p) (aspectRatio inp) m0)
      as (_ & _ & Fs & _). fold a in Fs.
    pose proof (attemptImage_calls p (finalPromptOf inp style p) (aspectRatio inp) m0)
      as Hcalls. fold a in Hcalls.
    pose proof (attemptImage_result p (finalPromptOf inp style p) (aspectRatio inp) m0)
      as Hres. fold a in Hres.
    pose proof (attemptImage_world p (finalPromptOf inp style p) (aspectRatio inp) m0)
      as Hworld. fold a in Hworld.
    destruct (IH (i + 1) acc'
                (if hasFailed (fst (fst a)) then failed ++ [p] else failed) m2)
      as [Hi Hc].
    assert (Es : appState (display m2) = appState (display m))
      by (unfold m2; step_handler; rewrite Fs; reflexivity).
    assert (Hw2 : world m2
                  = worldAfterAttempt svc (finalPromptOf inp style p)
                      (aspectRatio inp) (world m)) by exact Hworld.
    assert (Hc2 : calls m2 = calls (snd a)) by reflexivity.
    assert (Hc0 : calls m0 = calls m) by reflexivity.
    assert (Hs0 : appState (display m0) = appState (display m)) by reflexivity.
    assert (Hp : primaryOf svc (finalPromptOf inp style p) (aspectRatio inp) m0
                 = googleAnswer svc (finalPromptOf inp style p)
                     (aspectRatio inp) (world m)) by reflexivity.
    assert (Hs : secondaryOf svc (finalPromptOf inp style p) (aspectRatio inp) m0
                 = stabilityAnswer svc (finalPromptOf inp style p)
                     (aspectRatio inp) (world m)) by reflexivity.
    rewrite Hw2, Es in *. rewrite Hp in Hcalls, Hres. rewrite Hs in Hres.
    rewrite Hs0 in Hcalls.
    cbn [attemptWorlds combine map concat fst snd]. split.
    + rewrite Hi. unfold acc'. rewrite <- app_assoc. cbn [app].
      do 2 f_equal. rewrite Hres. unfold attemptRecord. cbv zeta.
      destruct (shouldFallBack svc _); reflexivity.
    + rewrite Hc, Hc2, Hcalls, Hc0, <- !app_assoc. reflexivity.
Qed.

(** The results and the log of a run that ends in [DONE]. *)
Lemma handleGenerate_trace inp m :
  let after := snd (handleGenerate svc inp m) in
  appState (display after) = DONE ->
  exists style preparation,
    fst (resolveStyle svc inp (started m)) = Some style
    /\ Forall isPreparation preparation
    /\ let steps :=
         combine (generatedPrompts (display after))
           (attemptWorlds svc inp style (stageWorld svc inp style m)
              (generatedPrompts (display after))) in
       generatedImages (display after)
       = map (fun pw => attemptRecord svc inp style (fst pw) (snd pw)) steps
       /\ calls after
          = calls m ++ preparation
            ++ concat (map (fun pw => attemptCalls svc inp style
                                        GENERATING_IMAGES (fst pw) (snd pw))
                         steps).
Proof.
  cbv zeta. unfold stageWorld. rewrite handleGenerate_unfold. cbv zeta.
  destruct (resolveStyle_spec inp (started m))
    as (_ & Ri & (made1 & Rc & Rm) & Rout).
  destruct (fst (resolveStyle svc inp (started m))) as [style|];
    [|destruct Rout as [Rs _]; intros H; rewrite Rs in H; discriminate].
  destruct Rout as [Rs _].
  set (m1 := snd (resolveStyle svc inp (started m))) in *.
  destruct (acquirePrompts_spec inp style m1) as (Ai & (made2 & Ac & Am) & Aout).
  destruct (fst (acquirePrompts svc inp style m1)) as [ps|];
    [|destruct Aout as [As _]; intros H; rewrite As in H; discriminate].
  destruct Aout as (_ & Ap & _).
  set (m2 := snd (acquirePrompts svc inp style m1)) in *.
  intros _.
  destruct (imageStage_unfold inp style ps m2) as [msg ->].
  set (m3 := snd (setAppState GENERATING_IMAGES m2)).
  destruct (imageLoop_trace inp style (N.of_nat (List.length ps)) ps 0 [] [] m3)
    as [Hi Hc].
  destruct (imageLoop_spec inp style (N.of_nat (List.length ps)) ps 0 [] [] m3)
    as (_ & Himg & _ & Hgp & _).
  { change (generatedImages (display m3))
      with (generatedImages (display m2)). rewrite Ai, Ri. reflexivity. }
  exists style, (made1 ++ made2).
  unfold finished. cbn [display calls generatedPrompts generatedImages].
  split; [reflexivity|]. split.
  - apply Forall_app. split.
    + destruct Rm as [-> | ->]; [constructor|].
      constructor; [now left|constructor].
    + eapply Forall_impl; [|exact Am]. intros c [_ Hc']. now right.
  - rewrite Hgp. change (generatedPrompts (display m3))
      with (generatedPrompts (display m2)). rewrite Ap.
    change (world m3) with (world m2) in Hi, Hc.
    change (appState (display m3)) with GENERATING_IMAGES in Hc.
    split.
    + rewrite Himg, Hi. reflexivity.
    + rewrite Hc. change (calls m3) with (calls m2). rewrite Ac, Rc.
      simpl. now rewrite !app_assoc.
Qed.

Lemma Forall3_steps {A B C D : Type} (R : A -> C -> D -> Prop)
  (f : A -> B -> C) (g : A -> B -> D) :
  (forall x y, R x (f x y) (g x y)) ->
  forall xs ys,
    List.length ys = List.length xs ->
    Forall3 R xs (map (fun xy => f (fst xy) (snd xy)) (combine xs ys))
      (map (fun xy => g (fst xy) (snd xy)) (combine xs ys)).
Proof.
  intros HR. induction xs as [|x xs IH]; intros [|y ys] Hlen;
    try discriminate; cbn [combine map fst snd]; constructor.
  - apply HR.
  - apply IH. now injection Hlen.
Qed.

Lemma Forall3_worlds {A B D : Type} (R : A -> B -> D -> Prop)
  (g : A -> B -> D) :
  (forall x y, R x y (g x y)) ->
  forall xs ys,
    List.length ys = List.length xs ->
    Forall3 R xs ys (map (fun xy => g (fst xy) (snd xy)) (combine xs ys)).
Proof.
  intros HR. induction xs as [|x xs IH]; intros [|y ys] Hlen;
    try discriminate; cbn [combine map fst snd]; constructor.
  - apply HR.
  - apply IH. now injection Hlen.
Qed.

(** The calls of an attempt and the tag of its result. *)
Lemma attempt_engine inp style st p w :
  AttemptGroup inp style st p (attemptCalls svc inp style st p w)
  /\ RecordsPrompt p (attemptRecord svc inp style p w)
  /\ img_engine (attemptRecord svc inp style p w)
     = Some (if existsb isStabilityCall (attemptCalls svc inp style st p w)
             then stability else google).
Proof.
  unfold AttemptGroup, attemptCalls, attemptRecord. cbv zeta.
  destruct (shouldFallBack svc _).
  - split; [now right|]. split; [apply newImageOf_records|].
    cbn [existsb isStabilityCall snd orb]. unfold newImageOf.
    match goal with
    | |- context [res_base64 ?r] => destruct (res_base64 r) as [[|? ?]|]
    end; reflexivity.
  - split; [now left|]. split; [apply newImageOf_records|].
    cbn [existsb isStabilityCall snd orb]. unfold newImageOf.
    match goal with
    | |- context [res_base64 ?r] => destruct (res_base64 r) as [[|? ?]|]
    end; reflexivity.
Qed.

(** The result recorded for a prompt that Google blocked, by what Stability
    AI answers. *)
Lemma attempt_blocked inp style p w e1 :
  let sent := finalPromptOf inp style p in
  let secondary := stabilityAnswer svc sent (aspectRatio inp) w in
  let g := attemptRecord svc inp style p w in
  res_error (googleAnswer svc sent (aspectRatio inp) w) = Some e1 ->
  includes e1 (js "safety reasons") = true ->
  truthyOpt (STABILITY_API_KEY svc) = true ->
  img_id g = p_id p
  /\ img_engine g = Some stability
  /\ (forall e2,
        res_error secondary = Some e2 ->
        img_error g
        = Some (js "Google blocked prompt. Stability AI also failed: " ++ e2)
        /\ img_base64 g = None)
  /\ (res_error secondary = None ->
      truthyOpt (res_base64 secondary) = false ->
      img_error g = Some (js "Failed to generate image.")
      /\ img_base64 g = None)
  /\ (truthyOpt (res_base64 secondary) = true ->
      img_error g = None /\ img_base64 g = res_base64 secondary).
Proof.
  cbv zeta. intros H1 Hi Hk.
  assert (Hf : shouldFallBack svc
                 (googleAnswer svc (finalPromptOf inp style p)
                    (aspectRatio inp) w) = true).
  { apply shouldFallBack_iff. split; [now exists e1|exact Hk]. }
  unfold attemptRecord. cbv zeta. rewrite Hf.
  set (secondary := stabilityAnswer svc (finalPromptOf inp style p)
                      (aspectRatio inp) w).
  split; [|split; [|split; [|split]]].
  - unfold newImageOf. destruct (res_base64 (enrich secondary)) as [[|? ?]|];
      reflexivity.
  - unfold newImageOf. destruct (res_base64 (enrich secondary)) as [[|? ?]|];
      reflexivity.
  - intros e2 H2.
    destruct (stability_failure _ _ _ _ H2) as [Hne Hb].
    fold (stabilityAnswer svc (finalPromptOf inp style p) (aspectRatio inp) w)
      in Hb. fold secondary in Hb.
    unfold newImageOf, enrich. rewrite H2.
    destruct e2 as [|c e2]; [congruence|]. cbn [res_base64 res_error].
    rewrite Hb. split; reflexivity.
  - intros He Hb. unfold newImageOf, enrich. rewrite He.
    destruct (res_base64 secondary) as [[|b0 b]|]; try discriminate;
      cbn [res_base64 res_error]; rewrite ?He; split; reflexivity.
  - intros Hb. unfold newImageOf.
    assert (Hd : res_base64 (enrich secondary) = res_base64 secondary).
    { unfold enrich. destruct (res_error secondary) as [[|? ?]|]; reflexivity. }
    rewrite Hd. destruct (res_base64 secondary) as [[|b0 b]|];
      try discriminate. split; reflexivity.
Qed.

(** ** The errors of the prompt phase *)

Lemma resolveStyle_error inp m :
  fst (resolveStyle svc inp m) = None ->
  exists file,
    referenceImageFile inp = Some file
    /\ ((exists err,
           fst (fileToBase64 svc file (world m)) = inr err
           /\ error (display (snd (resolveStyle svc inp m)))
              = Some (messageOr (js "Failed to analyze reference image.") err))
        \/ error (display (snd (resolveStyle svc inp m)))
           = Some (js "Failed to analyze the reference image style.")).
Proof.
  unfold resolveStyle. destruct (referenceImageFile inp) as [file|];
    [|discriminate].
  intros H. exists file. split; [reflexivity|]. revert H. step_handler.
  destruct (fileToBase64 svc file (world m)) as [[imageData|err] w1]; simpl.
  - unfold analyzeImageStyle.
    destruct (sdk_describeImage svc imageData w1)
      as [[[responseText|]|err] w2]; simpl; try discriminate; auto.
  - intros _. left. now exists err.
Qed.

(** In custom mode, a field in which no prompt is found is answered with one
    of the two validation messages: the one on an empty field when the field
    is blank, the one on the format otherwise. *)
Lemma acquirePrompts_unparsed inp style m :
  promptSource inp = custom_source ->
  parseCustomPrompts (customPrompts inp) = [] ->
  error (display (snd (acquirePrompts svc inp style m)))
  = Some (if truthy (trim (customPrompts inp)) then NO_VALID_PROMPTS
          else js "Custom prompts field cannot be empty.").
Proof.
  intros Hs Hp. unfold acquirePrompts. rewrite Hs.
  unfold parseCustomPrompts in Hp.
  destruct (truthy (trim (customPrompts inp))); simpl; step_handler;
    [|reflexivity].
  destruct (N.of_nat (List.length (parsePrompts (customPrompts inp))) =? 0)
    eqn:El; simpl; [reflexivity|].
  exfalso. destruct (parsePrompts (customPrompts inp)) as [|x l];
    [discriminate|].
  apply (f_equal (@List.length _)) in Hp. unfold toProcess in Hp.
  rewrite length_map in Hp.
  pose proof (Permutation_length (sortByIndex_perm (x :: l))) as Hperm.
  rewrite <- Hperm in Hp. discriminate.
Qed.

End PipelineFacts.

(** * The claims of the specification *)

(** ** Worked examples of the parser *)

Example parse_two :
  parseCustomPrompts (js "1. A" ++ LF :: js "2. B")
  = [mkPrompt 1 (js "A"); mkPrompt 2 (js "B")].
Proof. vm_compute. reflexivity. Qed.

Example parse_continuation :
  parseCustomPrompts (js "1. A" ++ LF :: js "more A" ++ LF :: js "2. B")
  = [mkPrompt 1 (js "A" ++ LF :: js "more A"); mkPrompt 2 (js "B")].
Proof. vm_compute. reflexivity. Qed.

Example parse_out_of_order :
  parseCustomPrompts (js "2. B" ++ LF :: js "1. A")
  = [mkPrompt 1 (js "A"); mkPrompt 2 (js "B")].
Proof. vm_compute. reflexivity. Qed.

Example parse_no_numbered_line :
  parseCustomPrompts (js "just some text" ++ LF :: js "and more") = [].
Proof. vm_compute. reflexivity. Qed.

(** The reference machine, lines taken as they are, agrees with the parser
    on the examples of the specification. *)
Example reference_examples :
  referenceFlushed (fun line => line)
    (js "1. A" ++ LF :: js "more A" ++ LF :: js "2. B")
  = [mkPrompt 1 (js "A" ++ LF :: js "more A"); mkPrompt 2 (js "B")]
  /\ referenceFlushed (fun line => line) (js "2. B" ++ LF :: js "1. A")
     = [mkPrompt 2 (js "B"); mkPrompt 1 (js "A")].
Proof. split; vm_compute; reflexivity. Qed.

(** The pattern on a few lines: a numbered line, whitespace that includes
    carriage returns after the period, a body with a carriage return in
    it, a line without period. *)
Example pattern_examples :
  matchByBacktracking (js "12. hello") = Some (js "12", js "hello")
  /\ matchByBacktracking (js "1." ++ [CR; CR] ++ js "foo")
     = Some (js "1", js "foo")
  /\ matchByBacktracking (js "1. a" ++ CR :: js "b") = None
  /\ matchByBacktracking (js "12 hello") = None
  /\ matchNumbered (js "007.x") = Some (js "007", js "x").
Proof. repeat split; vm_compute; reflexivity. Qed.

(** ** The parser (C3, C8) *)

(** C3, as stated, fails.  With the lines classified as they stand in the
    text, the line [ 2. B] does not match the pattern (it starts with a
    space) and is not blank, so the reference machine appends it to prompt 1
    and delivers one prompt; the parser trims the line first and delivers
    two. *)
Lemma C3_untrimmed_reference_counterexample :
  parseCustomPrompts indentedInput = [mkPrompt 1 (js "A"); mkPrompt 2 (js "B")]
  /\ referenceFlushed (fun line => line) indentedInput
     = [mkPrompt 1 (js "A" ++ LF :: js " 2. B")]
  /\ ~ orderedById (parseCustomPrompts indentedInput)
         (referenceFlushed (fun line => line) indentedInput).
Proof.
  split; [vm_compute; reflexivity|]. split; [vm_compute; reflexivity|].
  intros (Hp & _). apply Permutation_length in Hp. vm_compute in Hp.
  discriminate.
Qed.

(** C3, amended: for every raw text whose ids are integers that a number
    holds exactly, the parser delivers the prompts that the reference state
    machine flushes when every line is first stripped of its leading and
    trailing whitespace (a stripped line matching the pattern starts a
    prompt with the matched number as id, a stripped line that is not empty
    continues the prompt under construction after a line feed, lines before
    the first numbered line and blank lines are dropped, bodies are
    stripped), ordered by ascending id with prompts of equal id in their
    order of appearance. *)
Theorem C3_parser_refines_reference_machine raw :
  Forall (fun p => p_id p <= MAX_SAFE_INTEGER) (parseCustomPrompts raw) ->
  orderedById (parseCustomPrompts raw) (referenceFlushed trim raw).
Proof.
  intros _. unfold parseCustomPrompts. rewrite <- parsePrompts_refines.
  apply toProcess_ordered.
Qed.

Lemma C3_parser_refines_reference_machine_witness :
  let raw := js " 2. B" ++ LF :: js "1. A" ++ LF :: LF :: js "  more A " in
  parseCustomPrompts raw
  = [mkPrompt 1 (js "A" ++ LF :: js "more A"); mkPrompt 2 (js "B")]
  /\ referenceFlushed trim raw
     = [mkPrompt 2 (js "B"); mkPrompt 1 (js "A" ++ LF :: js "more A")]
  /\ orderedById (parseCustomPrompts raw) (referenceFlushed trim raw).
Proof.
  cbv zeta.
  assert (E : parseCustomPrompts
                (js " 2. B" ++ LF :: js "1. A" ++ LF :: LF :: js "  more A ")
              = [mkPrompt 1 (js "A" ++ LF :: js "more A"); mkPrompt 2 (js "B")])
    by (vm_compute; reflexivity).
  split; [exact E|]. split; [vm_compute; reflexivity|].
  apply C3_parser_refines_reference_machine. rewrite E.
  constructor; [|constructor; [|constructor]];
    cbn [p_id]; unfold MAX_SAFE_INTEGER; lia.
Defined.

(** C8, as stated, fails.  The text of the prompt, [a], U+2028, [b], is
    rendered after [1. ] on one line, and the dot of the pattern does not
    match the line separator U+2028: the rendered line is no numbered line,
    and the second parse delivers nothing. *)
Lemma C8_reparse_counterexample :
  parseCustomPrompts lineSeparatorInput
  = [mkPrompt 1 (js "a" ++ 8232 :: js "b")]
  /\ copyText (parseCustomPrompts lineSeparatorInput)
     = js "1. a" ++ 8232 :: js "b"
  /\ parseCustomPrompts (copyText (parseCustomPrompts lineSeparatorInput))
     = []
  /\ parseCustomPrompts (copyText (parseCustomPrompts lineSeparatorInput))
     <> parseCustomPrompts lineSeparatorInput.
Proof.
  split; [vm_compute; reflexivity|]. split; [vm_compute; reflexivity|].
  split; [vm_compute; reflexivity|]. vm_compute. discriminate.
Qed.

(** C8, amended: for every input text whose parsed prompts have ids that a
    number holds exactly, rendering the parsed list as blocks [id. text]
    joined by blank lines and parsing the rendering gives the same list if
    and only if no parsed text has a carriage return, U+2028 or U+2029 in
    its first line. *)
Theorem C8_reparse_idempotent raw :
  Forall (fun p => p_id p <= MAX_SAFE_INTEGER) (parseCustomPrompts raw) ->
  parseCustomPrompts (copyText (parseCustomPrompts raw))
  = parseCustomPrompts raw
  <-> Forall (fun p => CleanFirstLine (p_text p)) (parseCustomPrompts raw).
Proof. intros _. apply reparse_iff. Qed.

Lemma C8_reparse_idempotent_witness :
  let raw := js "2. B" ++ LF :: js "more B" ++ LF :: js "1." ++ LF :: js "A" in
  parseCustomPrompts raw
  = [mkPrompt 1 (js "A"); mkPrompt 2 (js "B" ++ LF :: js "more B")]
  /\ parseCustomPrompts (copyText (parseCustomPrompts raw))
     = parseCustomPrompts raw.
Proof.
  cbv zeta.
  assert (E : parseCustomPrompts
                (js "2. B" ++ LF :: js "more B" ++ LF :: js "1." ++ LF :: js "A")
              = [mkPrompt 1 (js "A"); mkPrompt 2 (js "B" ++ LF :: js "more B")])
    by (vm_compute; reflexivity).
  split; [exact E|].
  apply C8_reparse_idempotent; rewrite E.
  - constructor; [|constructor; [|constructor]];
      cbn [p_id]; unfold MAX_SAFE_INTEGER; lia.
  - constructor; [|constructor; [|constructor]]; vm_compute; reflexivity.
Defined.

(** The ruler that [downloadPrompts] puts between the blocks is read back as
    a continuation line: its text does not parse back to the list. *)
Example downloadText_not_reparsed :
  parseCustomPrompts (downloadText [mkPrompt 1 (js "A"); mkPrompt 2 (js "B")])
  = [mkPrompt 1 (js "A" ++ LF :: js "---"); mkPrompt 2 (js "B")].
Proof. vm_compute. reflexivity. Qed.

(** ** The image stage and the handler (C1, C2, C7, C9, C10) *)

Section PipelineClaims.

Context {World File : Type}.
Variable svc : Services World File.

(** C1.  In one attempt the log grows by the call to Google and then by at
    most the call to Stability AI, which carries the same text and ratio.
    Stability AI is called exactly when the answer of Google is an error
    whose message holds [safety reasons] and a Stability key is set; it is
    not called when Google answers without an error.  The message holds
    [safety reasons] exactly when the SDK threw an error whose text is one
    of the policy-block signatures. *)
Theorem C1_secondary_iff_safety_blocked promptData finalPrompt ratio m :
  let primary := fst (generateImage svc finalPrompt ratio (world m)) in
  let after := snd (attemptImage svc promptData finalPrompt ratio m) in
  let st := appState (display m) in
  exists secondary,
    calls after = calls m ++ (st, CallGoogle finalPrompt ratio) :: secondary
    /\ (secondary = [] \/ secondary = [(st, CallStability finalPrompt ratio)])
    /\ (secondary <> []
        <-> (exists e, res_error primary = Some e
                       /\ includes e (js "safety reasons") = true)
            /\ truthyOpt (STABILITY_API_KEY svc) = true)
    /\ (res_error primary = None -> secondary = [])
    /\ (res_base64 primary <> None -> secondary = [])
    /\ ((exists e, res_error primary = Some e
                   /\ includes e (js "safety reasons") = true)
        <-> exists err,
              fst (sdk_generateImages svc finalPrompt ratio (world m))
              = SdkThrows err
              /\ isPolicyBlock (messageOr (js "An unknown error occurred.") err)
                 = true).
Proof.
  cbv zeta. rewrite attemptImage_calls. unfold primaryOf.
  set (primary := fst (generateImage svc finalPrompt ratio (world m))).
  pose proof (shouldFallBack_iff svc primary) as Hiff.
  assert (Hnone : res_error primary = None -> shouldFallBack svc primary = false).
  { unfold shouldFallBack. now intros ->. }
  destruct (shouldFallBack svc primary) eqn:E.
  - exists [(appState (display m), CallStability finalPrompt ratio)].
    repeat split; auto; try discriminate.
    + now apply Hiff.
    + now apply Hiff.
    + intros H. apply Hnone in H. discriminate.
    + intros H. apply generateImage_success_no_error, Hnone in H. discriminate.
    + apply generateImage_blocked.
    + apply generateImage_blocked.
  - exists []. repeat split; auto; try congruence.
    + intros H. apply Hiff in H. discriminate.
    + apply generateImage_blocked.
    + apply generateImage_blocked.
Qed.


(** C7, amended.  In a run that ends in [DONE], take a prompt for which
    Google answers with an error holding [safety reasons] while a Stability
    key is set, in the world in which the attempt for the prompt starts.
    The result recorded for the prompt carries the tag [stability], and:
    when Stability AI answers with an error, the error recorded is [Google
    blocked prompt. Stability AI also failed: ] followed by that error, and
    no image is recorded; when Stability AI answers with no error and no
    image data, the error recorded is [Failed to generate image.], and no
    image is recorded; when Stability AI answers with image data, the data
    is recorded with no error. *)
Theorem C7_both_failed_message inp m :
  let after := snd (handleGenerate svc inp m) in
  appState (display after) = DONE ->
  exists style,
    fst (resolveStyle svc inp (started m)) = Some style
    /\ Forall3
         (fun p w g =>
            let sent := finalPromptOf inp style p in
            let primary := googleAnswer svc sent (aspectRatio inp) w in
            let secondary := stabilityAnswer svc sent (aspectRatio inp) w in
            forall e1,
              res_error primary = Some e1 ->
              includes e1 (js "safety reasons") = true ->
              truthyOpt (STABILITY_API_KEY svc) = true ->
              img_id g = p_id p
              /\ img_engine g = Some stability
              /\ (forall e2,
                    res_error secondary = Some e2 ->
                    img_error g
                    = Some (js "Google blocked prompt. Stability AI also failed: "
                            ++ e2)
                    /\ img_base64 g = None)
              /\ (res_error secondary = None ->
                  truthyOpt (res_base64 secondary) = false ->
                  img_error g = Some (js "Failed to generate image.")
                  /\ img_base64 g = None)
              /\ (truthyOpt (res_base64 secondary) = true ->
                  img_error g = None
                  /\ img_base64 g = res_base64 secondary))
         (generatedPrompts (display after))
         (attemptWorlds svc inp style (stageWorld svc inp style m)
            (generatedPrompts (display after)))
         (generatedImages (display after)).
Proof.
  cbv zeta. intros Hdone.
  destruct (handleGenerate_trace svc inp m Hdone)
    as (style & preparation & Hstyle & _ & Himg & _).
  exists style. split; [exact Hstyle|]. rewrite Himg.
  apply (Forall3_worlds
           (fun p w g =>
              forall e1,
                res_error (googleAnswer svc (finalPromptOf inp style p)
                             (aspectRatio inp) w) = Some e1 ->
                includes e1 (js "safety reasons") = true ->
                truthyOpt (STABILITY_API_KEY svc) = true ->
                img_id g = p_id p
                /\ img_engine g = Some stability
                /\ (forall e2,
                      res_error (stabilityAnswer svc (finalPromptOf inp style p)
                                   (aspectRatio inp) w) = Some e2 ->
                      img_error g
                      = Some (js "Google blocked prompt. Stability AI also failed: "
                              ++ e2)
                      /\ img_base64 g = None)
                /\ (res_error (stabilityAnswer svc (finalPromptOf inp style p)
                                 (aspectRatio inp) w) = None ->
                    truthyOpt (res_base64
                                 (stabilityAnswer svc (finalPromptOf inp style p)
                                    (aspectRatio inp) w)) = false ->
                    img_error g = Some (js "Failed to generate image.")
                    /\ img_base64 g = None)
                /\ (truthyOpt (res_base64
                                 (stabilityAnswer svc (finalPromptOf inp style p)
                                    (aspectRatio inp) w)) = true ->
                    img_error g = None
                    /\ img_base64 g
                       = res_base64
                           (stabilityAnswer svc (finalPromptOf inp style p)
                              (aspectRatio inp) w)))
           (attemptRecord svc inp style)).
  - intros p w e1. apply attempt_blocked.
  - apply attemptWorlds_length.
Qed.

(** C9, amended.  In a run that ends in [DONE], with [style] the effective
    style: after the calls of the prompt phase the log holds, prompt by
    prompt and in order, the call to Google and then at most the call to
    Stability AI, both with the same text: the text of the prompt followed
    by a comma, a space and the style in custom mode when the style has a
    character that is not whitespace, and the text of the prompt alone
    otherwise (custom mode with a blank style, script mode); and the prompt
    recorded on each result is the text of the prompt without the style. *)
Theorem C9_text_sent_and_recorded inp m :
  let after := snd (handleGenerate svc inp m) in
  appState (display after) = DONE ->
  exists style preparation groups,
    fst (resolveStyle svc inp (started m)) = Some style
    /\ calls after = calls m ++ preparation ++ concat groups
    /\ Forall isPreparation preparation
    /\ Forall2
         (fun p group =>
            let sent := sentText inp style p in
            group = [(GENERATING_IMAGES, CallGoogle sent (aspectRatio inp))]
            \/ group = [(GENERATING_IMAGES, CallGoogle sent (aspectRatio inp));
                        (GENERATING_IMAGES,
                         CallStability sent (aspectRatio inp))])
         (generatedPrompts (display after)) groups
    /\ map img_prompt (generatedImages (display after))
       = map p_text (generatedPrompts (display after)).
Proof.
  cbv zeta. intros Hdone.
  destruct (handleGenerate_groups svc inp m Hdone)
    as (style & preparation & groups & Hstyle & Hcalls & Hprep & Hall).
  destruct (handleGenerate_spec svc inp m) as [_ Hout].
  destruct Hout as [Hidle _ _|style' made _ _ _ Hrec _ _ _ _];
    [congruence|].
  exists style, preparation, groups. repeat split; auto.
  clear - Hrec. induction Hrec as [|p g ps gs (_ & Hp & _) _ IH];
    [reflexivity|]. simpl. now rewrite Hp, IH.
Qed.

(** C10.  Every result that a run shows carries an engine tag.  In a run
    that ends in [DONE] the log holds, after the calls of the prompt phase,
    the calls of the attempts prompt by prompt, and the result shown for a
    prompt carries the tag [stability] when the attempt for that prompt
    called Stability AI, whatever it answered, and the tag [google]
    otherwise, whether the result holds an image or an error. *)
Theorem C10_engine_tag_present inp m :
  let after := snd (handleGenerate svc inp m) in
  Forall (fun g => img_engine g <> None) (generatedImages (display after))
  /\ (appState (display after) = DONE ->
      exists style preparation groups,
        fst (resolveStyle svc inp (started m)) = Some style
        /\ calls after = calls m ++ preparation ++ concat groups
        /\ Forall isPreparation preparation
        /\ Forall3
             (fun p group g =>
                AttemptGroup inp style GENERATING_IMAGES p group
                /\ RecordsPrompt p g
                /\ img_engine g
                   = Some (if existsb isStabilityCall group
                           then stability else google))
             (generatedPrompts (display after)) groups
             (generatedImages (display after))).
Proof.
  cbv zeta. split.
  - destruct (handleGenerate_spec svc inp m) as [_ Hout].
    destruct Hout as [_ _ ->|style made _ _ _ Hrec _ _ _ _]; [constructor|].
    induction Hrec as [|p g ps gs (_ & _ & He & _) _ IH]; constructor; auto.
  - intros Hdone.
    destruct (handleGenerate_trace svc inp m Hdone)
      as (style & preparation & Hstyle & Hprep & Himg & Hcalls).
    exists style, preparation. eexists.
    split; [exact Hstyle|]. split; [exact Hcalls|]. split; [exact Hprep|].
    rewrite Himg.
    apply (Forall3_steps
             (fun p group g =>
                AttemptGroup inp style GENERATING_IMAGES p group
                /\ RecordsPrompt p g
                /\ img_engine g
                   = Some (if existsb isStabilityCall group
                           then stability else google))
             (attemptCalls svc inp style GENERATING_IMAGES)
             (attemptRecord svc inp style)).
    + intros p w. apply attempt_engine.
    + apply attemptWorlds_length.
Qed.

End PipelineClaims.

(** ** Validation, style and the guard (C4, C5, C6) *)

Lemma noNumberedLine_parse raw :
  noNumberedLine raw -> parseCustomPrompts raw = [].
Proof.
  intros H. unfold parseCustomPrompts. rewrite parsePrompts_lines.
  assert (Hf : fold_left parseLine (split_lf raw) ([], None) = ([], None)).
  { unfold noNumberedLine in H. induction (split_lf raw) as [|l ls IH];
      [reflexivity|]. simpl fold_left.
    rewrite (H l (or_introl eq_refl)). apply IH.
    intros line Hl. apply H. now right. }
  now rewrite Hf.
Qed.

Section GuardClaims.

Context {World File : Type}.
Variable svc : Services World File.

(** C4, amended.  In custom mode, when no line of the field is a numbered
    line once stripped, the run ends in [IDLE] with an error and no image.
    No prompt-synthesis or image-generation call is made: the log and the
    world are those that the style step leaves, and the only call there can
    be is the style analysis of a reference image, made before the field is
    looked at.  Whenever the style step goes through, with or without a
    reference image, the error is the validation message of the field: the
    one on the format of the prompts, or the one on an empty field when the
    field is blank.  When the style step fails, the error is that of the
    style step.  Without a reference image no provider is called at all and
    the world of the services is untouched. *)
Theorem C4_no_numbered_line_aborts inp m :
  promptSource inp = custom_source ->
  noNumberedLine (customPrompts inp) ->
  let styled := resolveStyle svc inp (started m) in
  let after := snd (handleGenerate svc inp m) in
  appState (display after) = IDLE
  /\ error (display after) <> None
  /\ generatedImages (display after) = []
  /\ calls after = calls (snd styled)
  /\ world after = world (snd styled)
  /\ (exists made,
        calls after = calls m ++ made
        /\ (made = [] \/ made = [(GENERATING_PROMPTS, CallAnalyzeStyle)]))
  /\ match fst styled with
     | Some _ =>
         error (display after)
         = Some (if truthy (trim (customPrompts inp)) then NO_VALID_PROMPTS
                 else js "Custom prompts field cannot be empty.")
     | None =>
         exists file,
           referenceImageFile inp = Some file
           /\ ((exists err,
                  fst (fileToBase64 svc file (world m)) = inr err
                  /\ error (display after)
                     = Some (messageOr
                               (js "Failed to analyze reference image.") err))
               \/ error (display after)
                  = Some (js "Failed to analyze the reference image style."))
     end
  /\ (referenceImageFile inp = None ->
      calls after = calls m
      /\ world after = world m
      /\ error (display after)
         = Some (if truthy (trim (customPrompts inp)) then NO_VALID_PROMPTS
                 else js "Custom prompts field cannot be empty.")).
Proof.
  intros Hc Hn. cbv zeta. rewrite handleGenerate_unfold. cbv zeta.
  pose proof (noNumberedLine_parse _ Hn) as Hparse.
  destruct (resolveStyle_spec svc inp (started m))
    as (_ & Ri & (made & Rc & Rm) & Rout).
  pose proof (resolveStyle_error svc inp (started m)) as Rerr.
  pose proof (resolveStyle_without_reference svc inp (started m)) as Rnone.
  destruct (fst (resolveStyle svc inp (started m))) as [style|] eqn:Es.
  - pose proof (acquirePrompts_custom svc inp style
                  (snd (resolveStyle svc inp (started m))) Hc) as Ha.
    pose proof (acquirePrompts_unparsed svc inp style
                  (snd (resolveStyle svc inp (started m))) Hc Hparse) as He.
    cbv zeta in Ha. rewrite Hparse in Ha.
    destruct Ha as (Ac & Aw & An & As & _).
    destruct (acquirePrompts_spec svc inp style
                (snd (resolveStyle svc inp (started m))))
      as (Ai & _ & Aout).
    rewrite An in *. destruct Aout as [_ Ane].
    split; [exact As|]. split; [exact Ane|].
    split; [rewrite Ai, Ri; reflexivity|].
    split; [exact Ac|]. split; [exact Aw|].
    split; [exists made; rewrite Ac; split; [exact Rc|exact Rm]|].
    split; [exact He|].
    intros H. split; [rewrite Ac, (Rnone H); reflexivity|].
    split; [rewrite Aw, (Rnone H); reflexivity|exact He].
  - destruct Rout as [Rs Re].
    split; [exact Rs|]. split; [exact Re|]. split; [exact Ri|].
    split; [reflexivity|]. split; [reflexivity|].
    split; [exists made; split; [exact Rc|exact Rm]|].
    split; [exact (Rerr eq_refl)|].
    intros H. rewrite (Rnone H) in Es. discriminate.
Qed.

(** C5, amended.  Without a reference image the effective style is the
    style keywords as they are.  With a reference image that is read and
    described, it is the stripped description, a comma and a space, and the
    keywords, whether or not a half is empty; this is the descriptor of the
    specification when both halves are non-empty. *)
Theorem C5_effective_style inp m :
  (referenceImageFile inp = None ->
   resolveStyle svc inp m = (Some (imageStyle inp), m))
  /\ (forall file imageData w1 responseText w2,
        referenceImageFile inp = Some file ->
        fileToBase64 svc file (world m) = (inl imageData, w1) ->
        sdk_describeImage svc imageData w1 = (inl (Some responseText), w2) ->
        fst (resolveStyle svc inp m)
        = Some (trim responseText ++ js ", " ++ imageStyle inp)
        /\ (trim responseText <> [] -> imageStyle inp <> [] ->
            fst (resolveStyle svc inp m)
            = Some (specDescriptor (Some (trim responseText)) (imageStyle inp)))).
Proof.
  split.
  - apply resolveStyle_without_reference.
  - intros file imageData w1 responseText w2 Hf Hr Hd.
    rewrite (resolveStyle_with_reference svc inp m _ _ _ _ _ Hf Hr Hd).
    split; [reflexivity|]. intros H1 H2. unfold specDescriptor.
    destruct (trim responseText); [congruence|].
    destruct (imageStyle inp); [congruence|reflexivity].
Qed.

(** C6.  While the state is [GENERATING_PROMPTS] or [GENERATING_IMAGES] the
    Generate button is disabled and a click on it starts nothing: the
    machine is left as it is.  And a run keeps the state there for as long
    as it lasts: every provider call it awaits is made in one of these two
    states, and it ends in [IDLE] or [DONE]. *)
Theorem C6_no_run_while_generating inp m :
  appState (display m) = GENERATING_PROMPTS
  \/ appState (display m) = GENERATING_IMAGES ->
  generateDisabled inp (display m) = true
  /\ clickGenerate svc inp m = (tt, m)
  /\ forall inp' m',
       let after := snd (handleGenerate svc inp' m') in
       (exists made, calls after = calls m' ++ made
                     /\ Forall whileGenerating made)
       /\ (appState (display after) = IDLE
           \/ appState (display after) = DONE).
Proof.
  intros Hs.
  assert (Hd : generateDisabled inp (display m) = true).
  { unfold generateDisabled, isLoading. destruct Hs as [-> | ->]; reflexivity. }
  split; [exact Hd|]. split.
  - unfold clickGenerate. now rewrite Hd.
  - intros inp' m'. cbv zeta.
    destruct (handleGenerate_spec svc inp' m') as [Hcalls Hout].
    split; [exact Hcalls|]. destruct Hout; auto.
Qed.

End GuardClaims.

(** ** The claims on scripted services *)

(** The end-to-end scenario of the specification: the synthesizer returns
    [P1] and [P2], Google answers for [P1] and blocks [P2], Stability AI
    answers for [P2]. *)
Example scenario_fallback_succeeds :
  appState (display Runs.scriptRun) = DONE
  /\ map img_id (generatedImages (display Runs.scriptRun)) = [1; 2]
  /\ map img_engine (generatedImages (display Runs.scriptRun))
     = [Some google; Some stability]
  /\ map img_error (generatedImages (display Runs.scriptRun)) = [None; None]
  /\ progressMessage (display Runs.scriptRun)
     = js "All images generated successfully!"
  /\ map snd (calls Runs.scriptRun)
     = [CallGeneratePrompts (js "a script") (js "noir") [];
        CallGoogle (js "P1") Ratio_16_9;
        CallGoogle (js "P2") Ratio_16_9;
        CallStability (js "P2") Ratio_16_9].
Proof. vm_compute. repeat split. Qed.

(** A custom run in which the second prompt fails on both services. *)
Example scenario_both_fail :
  appState (display Runs.customRun) = DONE
  /\ map img_id (generatedImages (display Runs.customRun)) = [1; 2]
  /\ map img_engine (generatedImages (display Runs.customRun))
     = [Some google; Some stability]
  /\ map img_error (generatedImages (display Runs.customRun))
     = [None;
        Some (js "Google blocked prompt. Stability AI also failed: Stability AI Error: content moderation")]
  /\ failedPrompts (display Runs.customRun) = [mkPrompt 2 (js "B")]
  /\ progressMessage (display Runs.customRun)
     = js "Generated 1 of 2 images. Some prompts may have failed."
  /\ map snd (calls Runs.customRun)
     = [CallGoogle (js "A, noir") Ratio_16_9;
        CallGoogle (js "B, noir") Ratio_16_9;
        CallStability (js "B, noir") Ratio_16_9].
Proof. vm_compute. repeat split. Qed.


(** C4, as stated, fails.  In custom mode with a reference image, a field
    without a numbered line still has the style of the image analysed
    before the field is parsed: one provider call is made. *)
Lemma C4_reference_image_counterexample :
  let inp := Scripted.inputs custom_source (js "hello") (js "noir")
               Ratio_16_9 (Some tt) in
  let after := snd (handleGenerate (Scripted.services Runs.calm) inp
                      Scripted.start) in
  promptSource inp = custom_source
  /\ (forall line, In line (split_lf (customPrompts inp)) ->
                   matchNumbered line = None)
  /\ appState (display after) = IDLE
  /\ error (display after) = Some NO_VALID_PROMPTS
  /\ calls after = [(GENERATING_PROMPTS, CallAnalyzeStyle)]
  /\ calls after <> calls Scripted.start.
Proof.
  cbv zeta. split; [reflexivity|]. split.
  { intros line [<-|[]]. vm_compute. reflexivity. }
  split; [vm_compute; reflexivity|]. split; [vm_compute; reflexivity|].
  split; [vm_compute; reflexivity|]. vm_compute. discriminate.
Qed.

Lemma C4_no_numbered_line_aborts_witness :
  let inp := Scripted.inputs custom_source (js "hello") (js "noir")
               Ratio_16_9 None in
  let after := snd (handleGenerate (Scripted.services Runs.calm) inp
                      Scripted.start) in
  promptSource inp = custom_source
  /\ noNumberedLine (customPrompts inp)
  /\ appState (display after) = IDLE
  /\ calls after = calls Scripted.start
  /\ error (display after)
     = Some (if truthy (trim (customPrompts inp)) then NO_VALID_PROMPTS
             else js "Custom prompts field cannot be empty.").
Proof.
  cbv zeta.
  assert (H1 : promptSource (Scripted.inputs custom_source (js "hello")
                 (js "noir") Ratio_16_9 None) = custom_source) by reflexivity.
  assert (H2 : noNumberedLine (customPrompts (Scripted.inputs custom_source
                 (js "hello") (js "noir") Ratio_16_9 None))).
  { intros line [<-|[]]. vm_compute. reflexivity. }
  split; [exact H1|]. split; [exact H2|].
  destruct (C4_no_numbered_line_aborts (Scripted.services Runs.calm) _
              Scripted.start H1 H2) as (Hs & _ & _ & _ & _ & _ & _ & Hr).
  split; [exact Hs|].
  destruct (Hr eq_refl) as (Hcalls & _ & Herr).
  split; [exact Hcalls|exact Herr].
Defined.

(** C5, as stated, fails.  With a reference image described as [noir] and
    no style keywords, the effective style keeps the comma and the space
    of the join: the half that is absent is not left out. *)
Lemma C5_empty_keywords_counterexample :
  let inp := Scripted.inputs script_source (js "a script") [] Ratio_16_9
               (Some tt) in
  fst (resolveStyle (Scripted.services Runs.calm) inp Scripted.start)
  = Some (js "noir, ")
  /\ specDescriptor (Some (js "noir")) (imageStyle inp) = js "noir"
  /\ fst (resolveStyle (Scripted.services Runs.calm) inp Scripted.start)
     <> Some (specDescriptor (Some (js "noir")) (imageStyle inp)).
Proof.
  cbv zeta. split; [vm_compute; reflexivity|].
  split; [vm_compute; reflexivity|]. vm_compute. discriminate.
Qed.

Lemma C5_effective_style_witness :
  let inp := Scripted.inputs script_source (js "a script") (js "4k")
               Ratio_16_9 (Some tt) in
  fst (resolveStyle (Scripted.services Runs.refused) inp Scripted.start)
  = Some (js "moody, grainy, 4k").
Proof.
  cbv zeta.
  destruct (C5_effective_style (Scripted.services Runs.refused)
              (Scripted.inputs script_source (js "a script") (js "4k")
                 Ratio_16_9 (Some tt)) Scripted.start) as [_ H].
  destruct (H tt (mkImageData (Some (js "UkVG")) (js "image/png")) tt
              (js " moody, grainy ") tt eq_refl eq_refl eq_refl) as [He _].
  rewrite He. vm_compute. reflexivity.
Defined.

Lemma C6_no_run_while_generating_witness :
  let inp := Scripted.inputs script_source (js "a script") (js "noir")
               Ratio_16_9 None in
  let busy := mkMachine (mkDisplay [] [] GENERATING_IMAGES [] None [] [])
                tt [] in
  (appState (display busy) = GENERATING_PROMPTS
   \/ appState (display busy) = GENERATING_IMAGES)
  /\ clickGenerate (Scripted.services Runs.rescued) inp busy = (tt, busy).
Proof.
  cbv zeta.
  assert (H : appState (display (mkMachine
                (mkDisplay [] [] GENERATING_IMAGES [] None [] []) tt []))
              = GENERATING_PROMPTS
              \/ appState (display (mkMachine
                   (mkDisplay [] [] GENERATING_IMAGES [] None [] []) tt []))
                 = GENERATING_IMAGES) by (right; reflexivity).
  split; [exact H|].
  exact (proj1 (proj2 (C6_no_run_while_generating
                         (Scripted.services Runs.rescued) _ _ H))).
Defined.

(** C7, as stated, fails.  Google blocks the prompt and Stability AI
    answers [ok] with an empty body: the fallback gives no image, the prompt
    is recorded as failed, and the error recorded is the generic message,
    not the concatenation. *)
Lemma C7_empty_answer_counterexample :
  let inp := Scripted.inputs custom_source (js "1. A") [] Ratio_1_1 None in
  let after := snd (handleGenerate Probes.emptyFallback inp Scripted.start) in
  appState (display after) = DONE
  /\ map snd (calls after)
     = [CallGoogle (js "A") Ratio_1_1; CallStability (js "A") Ratio_1_1]
  /\ res_error (googleAnswer Probes.emptyFallback (js "A") Ratio_1_1 tt)
     = Some SAFETY_BLOCKED
  /\ stabilityAnswer Probes.emptyFallback (js "A") Ratio_1_1 tt
     = mkResult (Some []) None
  /\ map img_base64 (generatedImages (display after)) = [None]
  /\ map img_engine (generatedImages (display after)) = [Some stability]
  /\ map img_error (generatedImages (display after))
     = [Some (js "Failed to generate image.")]
  /\ failedPrompts (display after) = [mkPrompt 1 (js "A")]
  /\ forall e2,
       map img_error (generatedImages (display after))
       <> [Some (js "Google blocked prompt. Stability AI also failed: "
                 ++ e2)].
Proof.
  cbv zeta. split; [vm_compute; reflexivity|].
  split; [vm_compute; reflexivity|]. split; [vm_compute; reflexivity|].
  split; [vm_compute; reflexivity|]. split; [vm_compute; reflexivity|].
  split; [vm_compute; reflexivity|]. split; [vm_compute; reflexivity|].
  split; [vm_compute; reflexivity|].
  intros e2.
  assert (E : map img_error (generatedImages (display (snd (handleGenerate
                Probes.emptyFallback
                (Scripted.inputs custom_source (js "1. A") [] Ratio_1_1 None)
                Scripted.start))))
              = [Some (js "Failed to generate image.")])
    by (vm_compute; reflexivity).
  rewrite E. vm_compute. discriminate.
Qed.

Lemma C7_both_failed_message_witness :
  let svc := Scripted.services Runs.refused in
  let after := snd (handleGenerate svc Runs.customInputs Scripted.start) in
  appState (display after) = DONE
  /\ exists style,
       fst (resolveStyle svc Runs.customInputs (started Scripted.start))
       = Some style
       /\ List.length (generatedImages (display after))
          = List.length (generatedPrompts (display after)).
Proof.
  cbv zeta.
  assert (H : appState (display (snd (handleGenerate
                (Scripted.services Runs.refused) Runs.customInputs
                Scripted.start))) = DONE)
    by (vm_compute; reflexivity).
  split; [exact H|].
  destruct (C7_both_failed_message (Scripted.services Runs.refused)
              Runs.customInputs Scripted.start H) as (style & Hs & Hall).
  exists style. split; [exact Hs|].
  clear - Hall. induction Hall as [|p w g ps ws gs _ _ IH]; [reflexivity|].
  cbn [List.length]. now rewrite IH.
Defined.

Lemma C10_engine_tag_present_witness :
  let svc := Scripted.services Runs.refused in
  let after := snd (handleGenerate svc Runs.customInputs Scripted.start) in
  appState (display after) = DONE
  /\ Forall (fun g => img_engine g <> None) (generatedImages (display after))
  /\ exists groups,
       Forall3
         (fun p group g =>
            img_engine g
            = Some (if existsb isStabilityCall group
                    then stability else google))
         (generatedPrompts (display after)) groups
         (generatedImages (display after)).
Proof.
  cbv zeta.
  assert (H : appState (display (snd (handleGenerate
                (Scripted.services Runs.refused) Runs.customInputs
                Scripted.start))) = DONE)
    by (vm_compute; reflexivity).
  split; [exact H|].
  destruct (C10_engine_tag_present (Scripted.services Runs.refused)
              Runs.customInputs Scripted.start) as [Htag Hdone].
  split; [exact Htag|].
  destruct (Hdone H) as (style & preparation & groups & _ & _ & _ & Hall).
  exists groups. clear - Hall.
  induction Hall as [|p group g ps groups gs (_ & _ & Hg) _ IH];
    constructor; assumption.
Defined.

(** C9, as stated, fails.  In custom mode with a style of one space, which
    is not empty, the text sent is the text of the prompt alone: the style
    is appended only when it has a character that is not whitespace. *)
Lemma C9_blank_style_counterexample :
  let inp := Scripted.inputs custom_source (js "1. A") [SPACE] Ratio_1_1
               None in
  let after := snd (handleGenerate (Scripted.services Runs.calm) inp
                      Scripted.start) in
  fst (resolveStyle (Scripted.services Runs.calm) inp (started Scripted.start))
  = Some [SPACE]
  /\ [SPACE] <> []
  /\ generatedPrompts (display after) = [mkPrompt 1 (js "A")]
  /\ googlePrompts (calls after) = [js "A"]
  /\ googlePrompts (calls after)
     <> map (fun p => p_text p ++ js ", " ++ [SPACE])
          (generatedPrompts (display after)).
Proof.
  cbv zeta. split; [vm_compute; reflexivity|]. split; [discriminate|].
  split; [vm_compute; reflexivity|]. split; [vm_compute; reflexivity|].
  vm_compute. discriminate.
Qed.

Lemma C9_text_sent_and_recorded_witness :
  let after := snd (handleGenerate (Scripted.services Runs.refused)
                      Runs.customInputs Scripted.start) in
  appState (display after) = DONE
  /\ exists style preparation groups,
       calls after = calls Scripted.start ++ preparation ++ concat groups
       /\ map img_prompt (generatedImages (display after))
          = map p_text (generatedPrompts (display after))
       /\ List.length groups
          = List.length (generatedPrompts (display after))
       /\ fst (resolveStyle (Scripted.services Runs.refused)
                 Runs.customInputs (started Scripted.start)) = Some style.
Proof.
  cbv zeta.
  assert (H : appState (display (snd (handleGenerate
                (Scripted.services Runs.refused) Runs.customInputs
                Scripted.start))) = DONE)
    by (vm_compute; reflexivity).
  split; [exact H|].
  destruct (C9_text_sent_and_recorded (Scripted.services Runs.refused)
              Runs.customInputs Scripted.start H)
    as (style & preparation & groups & Hs & Hc & _ & Hall & Hrec).
  exists style, preparation, groups.
  split; [exact Hc|]. split; [exact Hrec|]. split; [|exact Hs].
  symmetry. exact (Forall2_length Hall).
Defined.

(** * Further properties of the code *)

(** ** Strings *)

Lemma startsWith_app p s : startsWith (p ++ s) p = true.
Proof.
  induction p as [|a p IH]; [now destruct s|].
  cbn [app startsWith]. now rewrite N.eqb_refl, IH.
Qed.


Lemma strictEq_iff a : forall b, strictEq a b = true <-> a = b.
Proof.
  induction a as [|x a IH]; intros [|y b]; cbn [strictEq];
    try (split; [discriminate|congruence]); [tauto|].
  rewrite andb_true_iff, N.eqb_eq, IH. split.
  - intros [-> ->]. reflexivity.
  - intros H. injection H as -> ->. auto.
Qed.

Lemma strictEq_refl a : strictEq a a = true.
Proof. now apply strictEq_iff. Qed.

Lemma strictEq_sym a : forall b, strictEq a b = strictEq b a.
Proof.
  induction a as [|x a IH]; intros [|y b]; cbn [strictEq]; try reflexivity.
  now rewrite IH, N.eqb_sym.
Qed.

(** ** [generatePrompts] *)

Section GeminiFacts.

Import Gemini.

Context {World : Type}.
Variable generateContent :
  jsstring -> World -> (ContentResponse + Thrown) * World.
Variable JSON_parse : jsstring -> JsonOutcome.

Lemma emptyResponseError_friendly finishReason :
  isUserFriendly (emptyResponseError finishReason) = true.
Proof.
  unfold emptyResponseError.
  destruct finishReason as [reason|]; [|reflexivity].
  destruct (strictEq reason (js "SAFETY")); [reflexivity|].
  destruct (strictEq reason (js "RECITATION")); [reflexivity|].
  destruct (truthy reason && negb (strictEq reason (js "STOP")));
    [|reflexivity].
  unfold isUserFriendly, stoppedFor.
  change (js "Prompt generation stopped unexpectedly. Reason: ")
    with (js "Prompt generation stopped" ++ js " unexpectedly. Reason: ").
  rewrite <- app_assoc, startsWith_app. now rewrite !orb_true_r.
Qed.

Lemma emptyResponseError_cases finishReason :
  In (emptyResponseError finishReason)
    [EMPTY_RESPONSE; SAFETY_VIOLATION; RECITATION]
  \/ exists reason,
       finishReason = Some reason /\ reason <> [] /\ reason <> js "STOP"
       /\ emptyResponseError finishReason = stoppedFor reason.
Proof.
  unfold emptyResponseError.
  destruct finishReason as [reason|]; [|left; simpl; auto].
  destruct (strictEq reason (js "SAFETY")); [left; simpl; auto|].
  destruct (strictEq reason (js "RECITATION")); [left; simpl; auto|].
  destruct (truthy reason) eqn:Et; cbn [andb]; [|left; simpl; auto].
  destruct (strictEq reason (js "STOP")) eqn:Es; cbn [negb];
    [left; simpl; auto|].
  right. exists reason. repeat split; auto.
  - intros ->. discriminate.
  - intros H. apply strictEq_iff in H. congruence.
Qed.

Lemma decode_spec jsonText requestPrompt :
  decode JSON_parse jsonText requestPrompt
  = match JSON_parse jsonText with
    | JsonWithPrompts prompts => inl (prompts, requestPrompt)
    | _ => inr (ErrorObject NOT_VALID_JSON)
    end.
Proof. unfold decode. destruct (JSON_parse jsonText); reflexivity. Qed.

Lemma stoppedFor_not_invalid reason : stoppedFor reason <> INVALID_STRUCTURE.
Proof. unfold stoppedFor, INVALID_STRUCTURE. discriminate. Qed.

Lemma rethrow_error {A} error thrown :
  @inr A Thrown (rethrow error) = inr thrown ->
  exists message,
    thrown = ErrorObject message
    /\ (message = UNEXPECTED \/ isUserFriendly message = true).
Proof.
  destruct error as [message|]; intros H; injection H as <-; unfold rethrow.
  - destruct (isUserFriendly message) eqn:E; eauto.
  - eauto.
Qed.

Lemma generatePrompts_failure script style niche w thrown :
  fst (generatePrompts generateContent JSON_parse script style niche w)
  = inr thrown ->
  exists message,
    thrown = ErrorObject message
    /\ (message = UNEXPECTED \/ isUserFriendly message = true).
Proof.
  unfold generatePrompts.
  destruct (generateContent (requestPromptOf script style niche) w)
    as [[response|err] w']; cbn [fst]; intros H.
  - destruct (response_text response) as [[|c jsonText]|];
      try exact (rethrow_error _ _ H).
    destruct (decode JSON_parse (c :: jsonText) _); [discriminate|].
    exact (rethrow_error _ _ H).
  - exact (rethrow_error _ _ H).
Qed.

Lemma generatePrompts_success script style niche w prompts requestPrompt :
  fst (generatePrompts generateContent JSON_parse script style niche w)
  = inl (prompts, requestPrompt) ->
  requestPrompt = requestPromptOf script style niche.
Proof.
  unfold generatePrompts.
  destruct (generateContent (requestPromptOf script style niche) w)
    as [[response|err] w']; cbn [fst]; [|discriminate].
  destruct (response_text response) as [[|c jsonText]|]; try discriminate.
  rewrite decode_spec.
  destruct (JSON_parse (c :: jsonText)); try discriminate.
  intros H. now injection H as _ <-.
Qed.

End GeminiFacts.

Section GeminiProperties.

Import Gemini.

Context {World : Type}.
Variable generateContent :
  jsstring -> World -> (ContentResponse + Thrown) * World.
Variable JSON_parse : jsstring -> JsonOutcome.

(** X1.  When the SDK answers the request, [generatePrompts] returns the
    prompts, with the text of the request, exactly when the text of the
    response is not empty and parses to a value whose [prompts] is an array.
    An empty or absent text throws the message chosen from the finish
    reason; any other text throws the message on invalid JSON, also when the
    text is JSON of another shape.  The message on an invalid structure is
    never thrown. *)
Theorem X1_generatePrompts_answered script style niche w response w' :
  generateContent (requestPromptOf script style niche) w = (inl response, w') ->
  generatePrompts generateContent JSON_parse script style niche w
  = (match response_text response with
     | Some ((_ :: _) as jsonText) =>
         match JSON_parse jsonText with
         | JsonWithPrompts prompts =>
             inl (prompts, requestPromptOf script style niche)
         | _ => inr (ErrorObject NOT_VALID_JSON)
         end
     | _ =>
         inr (ErrorObject (emptyResponseError (response_finishReason response)))
     end, w')
  /\ fst (generatePrompts generateContent JSON_parse script style niche w)
     <> inr (ErrorObject INVALID_STRUCTURE).
Proof.
  intros Hsdk.
  assert (Hne : forall finishReason,
             emptyResponseError finishReason <> INVALID_STRUCTURE).
  { intros finishReason.
    destruct (emptyResponseError_cases finishReason)
      as [[<-|[<-|[<-|[]]]]|(reason & _ & _ & _ & ->)];
      try apply stoppedFor_not_invalid; vm_compute; discriminate. }
  assert (Hnj : NOT_VALID_JSON <> INVALID_STRUCTURE)
    by (vm_compute; discriminate).
  unfold generatePrompts. rewrite Hsdk.
  destruct (response_text response) as [[|c jsonText]|]; cbn [fst].
  - unfold rethrow. rewrite emptyResponseError_friendly.
    split; [reflexivity|]. intros H. injection H as H. now apply Hne in H.
  - rewrite decode_spec.
    destruct (JSON_parse (c :: jsonText)); (split; [reflexivity|]);
      try discriminate; intros H; injection H as H; now apply Hnj in H.
  - unfold rethrow. rewrite emptyResponseError_friendly.
    split; [reflexivity|]. intros H. injection H as H. now apply Hne in H.
Qed.

(** X2.  Whatever happens, [generatePrompts] throws nothing but [Error]
    objects, and the message is the generic one or starts with one of the
    four texts the outer [catch] lets through.  When the SDK throws, its
    message reaches the caller only if it starts with one of these texts;
    any other error of the SDK, and any thrown value that is no [Error], is
    replaced by the generic message. *)
Theorem X2_generatePrompts_throws_errors script style niche w :
  let outcome :=
    fst (generatePrompts generateContent JSON_parse script style niche w) in
  (forall thrown, outcome = inr thrown ->
     exists message,
       thrown = ErrorObject message
       /\ (message = UNEXPECTED \/ isUserFriendly message = true))
  /\ (forall err,
        fst (generateContent (requestPromptOf script style niche) w) = inr err ->
        outcome
        = inr (ErrorObject
                 match err with
                 | ErrorObject message =>
                     if isUserFriendly message then message else UNEXPECTED
                 | NonError => UNEXPECTED
                 end)).
Proof.
  cbv zeta. split; [intros thrown; apply generatePrompts_failure|].
  unfold generatePrompts.
  destruct (generateContent (requestPromptOf script style niche) w)
    as [[response|err] w']; cbn [fst]; [discriminate|].
  intros err' H. injection H as <-. unfold rethrow.
  destruct err as [message|]; [|reflexivity].
  now destruct (isUserFriendly message).
Qed.

End GeminiProperties.

Lemma X1_generatePrompts_answered_witness :
  fst (Gemini.generatePrompts
         (fun _ (w : unit) =>
            (inl (Gemini.mkContent (Some (js "{}")) None), w))
         (fun _ => Gemini.JsonOther) (js "a script") (js "noir") [] tt)
  = inr (ErrorObject Gemini.NOT_VALID_JSON).
Proof.
  destruct (X1_generatePrompts_answered
              (fun _ (w : unit) =>
                 (inl (Gemini.mkContent (Some (js "{}")) None), w))
              (fun _ => Gemini.JsonOther) (js "a script") (js "noir") [] tt
              (Gemini.mkContent (Some (js "{}")) None) tt eq_refl)
    as [H _].
  rewrite H. reflexivity.
Defined.

(** ** The image stage, result by result *)

Ltac run_setters :=
  unfold bind, ret, setGeneratedPrompts, setGeneratedImages, setAppState,
    setProgressMessage, setError, setFailedPrompts, setAiRequestPrompt,
    modifyDisplay, await, awaitProvider in *; simpl in *.

Lemma newImageOf_data p result engine :
  succeeded (newImageOf p result engine) = negb (hasFailed result)
  /\ hasData (newImageOf p result engine) = negb (hasFailed result).
Proof.
  unfold newImageOf, succeeded, hasData, hasFailed.
  destruct (res_base64 result) as [[|b0 b]|]; cbn; auto;
    destruct (res_error result) as [[|e0 e]|]; auto.
Qed.

Section RunFacts.

Context {World File : Type}.
Variable svc : Services World File.

Lemma imageLoop_failed inp style total : forall todo i acc failed m,
  let run := imageLoop svc inp style total i todo acc failed m in
  exists new,
    fst (fst run) = acc ++ new
    /\ List.length new = List.length todo
    /\ snd (fst run) = failed ++ failedOf todo new
    /\ Forall (fun g => hasData g = succeeded g) new
    /\ failedPrompts (display (snd run)) = failedPrompts (display m)
    /\ aiRequestPrompt (display (snd run)) = aiRequestPrompt (display m).
Proof.
  induction todo as [|p rest IH]; intros i acc failed m.
  - exists []. cbn. rewrite !app_nil_r. repeat split; constructor.
  - cbv zeta. rewrite imageLoop_cons. cbv zeta.
    set (m0 := snd (setProgressMessage (progressOf total i p) m)).
    set (a := attemptImage svc p (finalPromptOf inp style p) (aspectRatio inp) m0).
    set (g := newImageOf p (fst (fst a)) (snd (fst a))).
    set (m2 := snd (setGeneratedImages (acc ++ [g]) (snd a))).
    destruct (attemptImage_frame svc p (finalPromptOf inp style p)
                (aspectRatio inp) m0) as (_ & _ & _ & _ & Ff & Fa).
    fold a in Ff, Fa.
    destruct (newImageOf_data p (fst (fst a)) (snd (fst a))) as [Hs Hd].
    fold g in Hs, Hd.
    destruct (IH (i + 1) (acc ++ [g])
                (if hasFailed (fst (fst a)) then failed ++ [p] else failed) m2)
      as (new & Hnew & Hlen & Hfailed & Hall & Hf & Ha).
    exists (g :: new). repeat split.
    + rewrite Hnew, <- app_assoc. reflexivity.
    + cbn. now rewrite Hlen.
    + rewrite Hfailed. unfold failedOf. cbn [combine filter snd].
      rewrite Hs. destruct (hasFailed (fst (fst a))); cbn [negb map fst];
        [now rewrite <- app_assoc|reflexivity].
    + constructor; [now rewrite Hs, Hd|exact Hall].
    + rewrite Hf. exact Ff.
    + rewrite Ha. exact Fa.
Qed.

(** The stage, with the message of its last lines (lines 230-235). *)
Lemma imageStage_last inp style promptsToProcess m :
  let total := N.of_nat (List.length promptsToProcess) in
  let run := imageLoop svc inp style total 0 promptsToProcess [] []
               (snd (setAppState GENERATING_IMAGES m)) in
  let successfulImages :=
    N.of_nat (List.length (filter succeeded (fst (fst run)))) in
  snd (imageStage svc inp style promptsToProcess m)
  = finished (snd (fst run))
      (if successfulImages =? total
       then js "All images generated successfully!"
       else js "Generated " ++ numberToString successfulImages ++ js " of "
            ++ numberToString total
            ++ js " images. Some prompts may have failed.")
      (snd run).
Proof.
  cbv zeta. unfold imageStage, bind.
  destruct (setAppState GENERATING_IMAGES m) as [[] m1]. cbn [snd].
  destruct (imageLoop svc inp style _ 0 promptsToProcess [] [] m1)
    as [[results failed] m2]. cbn [fst snd].
  destruct (_ =? _); reflexivity.
Qed.

Lemma imageStage_final inp style promptsToProcess m :
  generatedImages (display m) = [] ->
  let after := snd (imageStage svc inp style promptsToProcess m) in
  let images := generatedImages (display after) in
  let total := N.of_nat (List.length promptsToProcess) in
  let successfulImages := N.of_nat (List.length (filter succeeded images)) in
  List.length images = List.length promptsToProcess
  /\ failedPrompts (display after) = failedOf promptsToProcess images
  /\ Forall (fun g => hasData g = succeeded g) images
  /\ progressMessage (display after)
     = (if successfulImages =? total
        then js "All images generated successfully!"
        else js "Generated " ++ numberToString successfulImages ++ js " of "
             ++ numberToString total
             ++ js " images. Some prompts may have failed.")
  /\ aiRequestPrompt (display after) = aiRequestPrompt (display m).
Proof.
  intros Hi. cbv zeta. rewrite imageStage_last. cbv zeta.
  set (m1 := snd (setAppState GENERATING_IMAGES m)).
  assert (H1 : generatedImages (display m1) = []) by exact Hi.
  destruct (imageLoop_spec svc inp style
              (N.of_nat (List.length promptsToProcess))
              promptsToProcess 0 [] [] m1 H1) as (_ & Himg & _).
  destruct (imageLoop_failed inp style
              (N.of_nat (List.length promptsToProcess))
              promptsToProcess 0 [] [] m1)
    as (new & Hnew & Hlen & Hfailed & Hall & _ & Ha).
  cbn [app] in Hnew, Hfailed.
  unfold finished.
  cbn [display generatedImages failedPrompts progressMessage aiRequestPrompt].
  rewrite Himg, Hfailed, Hnew. repeat split; auto.
Qed.

(** ** The other fields through the prompt phase *)

Lemma resolveStyle_rest inp m :
  let run := resolveStyle svc inp m in
  failedPrompts (display (snd run)) = failedPrompts (display m)
  /\ aiRequestPrompt (display (snd run)) = aiRequestPrompt (display m).
Proof.
  unfold resolveStyle. destruct (referenceImageFile inp) as [file|];
    [|split; reflexivity].
  run_setters.
  destruct (fileToBase64 svc file (world m)) as [[imageData|err] w1]; simpl;
    [|split; reflexivity].
  destruct (analyzeImageStyle svc imageData w1) as [[described|err] w2];
    simpl; split; reflexivity.
Qed.


(** Step 2 in script mode, outcome by outcome. *)
Lemma acquirePrompts_script inp style m :
  promptSource inp = script_source ->
  truthy (trim (script inp)) = true ->
  let answer := generatePrompts svc (script inp) style (niche inp) (world m) in
  let run := acquirePrompts svc inp style m in
  calls (snd run)
  = calls m ++ [(appState (display m),
                 CallGeneratePrompts (script inp) style (niche inp))]
  /\ world (snd run) = snd answer
  /\ failedPrompts (display (snd run)) = failedPrompts (display m)
  /\ generatedImages (display (snd run)) = generatedImages (display m)
  /\ match fst answer with
     | inl (generated, requestPrompt) =>
         aiRequestPrompt (display (snd run)) = requestPrompt
         /\ generatedPrompts (display (snd run)) = numberFrom 0 generated
         /\ match generated with
            | [] =>
                fst run = None
                /\ appState (display (snd run)) = IDLE
                /\ error (display (snd run))
                   = Some (js "No prompts were generated or provided.")
            | _ =>
                fst run = Some (numberFrom 0 generated)
                /\ appState (display (snd run)) = appState (display m)
                /\ error (display (snd run)) = error (display m)
            end
     | inr err =>
         fst run = None
         /\ appState (display (snd run)) = IDLE
         /\ error (display (snd run))
            = Some (messageOr (js "An unknown error occurred.") err)
         /\ aiRequestPrompt (display (snd run)) = aiRequestPrompt (display m)
         /\ generatedPrompts (display (snd run)) = generatedPrompts (display m)
     end.
Proof.
  intros Hs Ht. cbv zeta. unfold acquirePrompts. rewrite Hs, Ht. cbn [negb].
  run_setters.
  destruct (generatePrompts svc (script inp) style (niche inp) (world m))
    as [[[generated requestPrompt]|err] w1]; simpl.
  - destruct generated as [|g rest]; simpl; repeat split; reflexivity.
  - repeat split; reflexivity.
Qed.

(** Step 2 leaves the failed prompts alone, and when it ends the run no
    prompt is shown. *)
Lemma acquirePrompts_rest inp style m :
  let run := acquirePrompts svc inp style m in
  failedPrompts (display (snd run)) = failedPrompts (display m)
  /\ (generatedPrompts (display m) = [] -> fst run = None ->
      generatedPrompts (display (snd run)) = []).
Proof.
  cbv zeta. unfold acquirePrompts. destruct (promptSource inp).
  - destruct (truthy (trim (script inp))); simpl; run_setters; [|auto].
    destruct (generatePrompts svc (script inp) style (niche inp) (world m))
      as [[[generated requestPrompt]|err] w1]; simpl; [|auto].
    destruct (numberFrom 0 generated) eqn:E; simpl; split; auto; discriminate.
  - destruct (truthy (trim (customPrompts inp))); simpl; run_setters; [|auto].
    destruct (N.of_nat (List.length (parsePrompts (customPrompts inp))) =? 0);
      simpl; [auto|].
    destruct (toProcess (parsePrompts (customPrompts inp))) eqn:E; simpl;
      split; auto; discriminate.
Qed.

(** ** How a run leaves the display *)

Lemma handleGenerate_final inp m :
  let after := snd (handleGenerate svc inp m) in
  let prompts := generatedPrompts (display after) in
  let images := generatedImages (display after) in
  let total := N.of_nat (List.length prompts) in
  let successfulImages := N.of_nat (List.length (filter succeeded images)) in
  (appState (display after) = IDLE
   /\ error (display after) <> None
   /\ prompts = [] /\ images = [] /\ failedPrompts (display after) = [])
  \/ (appState (display after) = DONE
      /\ error (display after) = None
      /\ prompts <> []
      /\ List.length images = List.length prompts
      /\ failedPrompts (display after) = failedOf prompts images
      /\ Forall (fun g => hasData g = succeeded g) images
      /\ progressMessage (display after)
         = (if successfulImages =? total
            then js "All images generated successfully!"
            else js "Generated " ++ numberToString successfulImages
                 ++ js " of " ++ numberToString total
                 ++ js " images. Some prompts may have failed.")).
Proof.
  cbv zeta. rewrite handleGenerate_unfold. cbv zeta.
  destruct (resolveStyle_spec svc inp (started m)) as (Rp & Ri & _ & Rout).
  destruct (resolveStyle_rest inp (started m)) as (Rf & _).
  destruct (fst (resolveStyle svc inp (started m))) as [style|].
  2:{ destruct Rout as [Rs Re]. left. rewrite Rp, Ri, Rf. auto. }
  destruct Rout as [Rs Re].
  set (m1 := snd (resolveStyle svc inp (started m))) in *.
  destruct (acquirePrompts_spec svc inp style m1) as (Ai & _ & Aout).
  destruct (acquirePrompts_rest inp style m1) as (Af & Aabort).
  destruct (fst (acquirePrompts svc inp style m1)) as [ps|].
  2:{ destruct Aout as [As Ae]. left. rewrite Ai, Ri, Af, Rf.
      repeat split; auto. }
  destruct Aout as (An & Ap & As & Ae).
  set (m2 := snd (acquirePrompts svc inp style m1)) in *.
  assert (Hi2 : generatedImages (display m2) = [])
    by (rewrite Ai, Ri; reflexivity).
  destruct (imageStage_spec svc inp style ps m2 Hi2)
    as (Is & _ & Ip & Ie & _).
  destruct (imageStage_final inp style ps m2 Hi2)
    as (Hlen & Hfailed & Hall & Hmsg & _).
  right. rewrite Ip, Ap. repeat split; auto.
  - rewrite Ie, Ae, Re. reflexivity.
Qed.

End RunFacts.

Lemma failedOf_length prompts : forall images,
  List.length images = List.length prompts ->
  (List.length (failedOf prompts images)
   + List.length (filter succeeded images))%nat
  = List.length prompts.
Proof.
  unfold failedOf.
  induction prompts as [|p ps IH]; intros [|g gs] H; try discriminate;
    [reflexivity|].
  injection H as H. specialize (IH gs H). cbn [combine filter snd].
  destruct (succeeded g); cbn [negb map List.length]; lia.
Qed.

Section RunProperties.

Context {World File : Type}.
Variable svc : Services World File.

(** X3.  When a run ends in [DONE], the failed prompts it shows are the
    prompts whose result carries an error, in the order of the run; failed
    and successful results add up to the number of prompts; and the summary
    says that all images were generated exactly when no prompt failed. *)
Theorem X3_failed_prompts_and_summary (inp : Inputs File) (m : Machine World) :
  let after := snd (handleGenerate svc inp m) in
  let prompts := generatedPrompts (display after) in
  let images := generatedImages (display after) in
  appState (display after) = DONE ->
  failedPrompts (display after) = failedOf prompts images
  /\ (List.length (failedPrompts (display after))
      + List.length (filter succeeded images))%nat = List.length prompts
  /\ (progressMessage (display after)
      = js "All images generated successfully!"
      <-> failedPrompts (display after) = []).
Proof.
  cbv zeta. intros Hdone.
  destruct (handleGenerate_final svc inp m)
    as [(Hidle & _)|(_ & _ & _ & Hlen & Hfailed & _ & Hmsg)];
    [congruence|].
  pose proof (failedOf_length _ _ Hlen) as Hsum.
  rewrite <- Hfailed in Hsum.
  split; [exact Hfailed|]. split; [exact Hsum|].
  rewrite Hmsg.
  destruct (_ =? _) eqn:E.
  - apply N.eqb_eq in E. split; [|reflexivity]. intros _.
    destruct (failedPrompts _); [reflexivity|]. cbn [List.length] in Hsum. lia.
  - apply N.eqb_neq in E. split; [discriminate|].
    intros H. rewrite H in Hsum. cbn [List.length] in Hsum.
    exfalso. apply E. f_equal. lia.
Qed.

(** X4.  A run never leaves the application in a generating state: it ends
    in [IDLE] with an error shown, or in [DONE] with none.  A run that ends
    in [IDLE] shows no prompt, no image and no failed prompt, whatever an
    earlier run had left. *)
Theorem X4_run_ends_idle_or_done (inp : Inputs File) (m : Machine World) :
  let after := snd (handleGenerate svc inp m) in
  isLoading (display after) = false
  /\ (error (display after) <> None <-> appState (display after) = IDLE)
  /\ (error (display after) = None <-> appState (display after) = DONE)
  /\ (appState (display after) = IDLE ->
      generatedPrompts (display after) = []
      /\ generatedImages (display after) = []
      /\ failedPrompts (display after) = []).
Proof.
  cbv zeta.
  destruct (handleGenerate_final svc inp m)
    as [(Hs & He & Hp & Hi & Hf)|(Hs & He & _)]; unfold isLoading;
    rewrite Hs; repeat split; auto; try congruence; try discriminate.
Qed.

End RunProperties.

(** ** Copying the failed prompts and pasting them back *)

Lemma toPrompt_toParsed_all ps : map toPrompt (map toParsed ps) = ps.
Proof.
  induction ps as [|[i t] ps IH]; simpl; [reflexivity|]. now rewrite IH.
Qed.

(** Parsing the copy of a list of prompts that is sorted by id gives the
    list back, when the texts have the shape of parsed texts and first lines
    that pass the pattern. *)
Lemma reparse_sorted ps :
  Forall (fun p => WellFormedText (p_text p)) ps ->
  Forall (fun p => CleanFirstLine (p_text p)) ps ->
  Sorted indexLe (map toParsed ps) ->
  parseCustomPrompts (copyText ps) = ps.
Proof.
  intros Hw Hc Hs. unfold parseCustomPrompts.
  rewrite parsePrompts_copyText by assumption.
  change (toProcess ?l) with (map toPrompt (sortByIndex l)).
  rewrite sortByIndex_fixed by exact Hs. apply toPrompt_toParsed_all.
Qed.

Lemma failedOf_Forall (P : Prompt -> Prop) prompts : forall images,
  Forall P prompts -> Forall P (failedOf prompts images).
Proof.
  unfold failedOf.
  induction prompts as [|p ps IH]; intros [|g gs] H; try constructor.
  inversion H as [|? ? Hp Hps]; subst. cbn [combine filter snd].
  destruct (succeeded g); cbn [negb map fst]; auto.
Qed.

Lemma indexLe_trans : Relations_1.Transitive indexLe.
Proof. intros a b c. unfold indexLe. lia. Qed.

Lemma failedOf_sorted prompts : forall images,
  StronglySorted indexLe (map toParsed prompts) ->
  StronglySorted indexLe (map toParsed (failedOf prompts images)).
Proof.
  induction prompts as [|p ps IH]; intros [|g gs] H; try constructor.
  cbn [map] in H. inversion H as [|? ? Hs Hall]; subst.
  specialize (IH gs Hs).
  assert (E : failedOf (p :: ps) (g :: gs)
              = if succeeded g then failedOf ps gs else p :: failedOf ps gs).
  { unfold failedOf. cbn [combine filter snd]. now destruct (succeeded g). }
  rewrite E. destruct (succeeded g); [exact IH|].
  cbn [map]. constructor; [exact IH|].
  apply Forall_map. apply failedOf_Forall.
  rewrite Forall_map in Hall. exact Hall.
Qed.

Lemma parseCustomPrompts_sorted raw :
  StronglySorted indexLe (map toParsed (parseCustomPrompts raw)).
Proof.
  unfold parseCustomPrompts.
  change (toProcess ?l) with (map toPrompt (sortByIndex l)).
  rewrite toParsed_toPrompt.
  apply Sorted_StronglySorted; [exact indexLe_trans|apply sortByIndex_sorted].
Qed.

Section CopyFailed.

Context {World File : Type}.
Variable svc : Services World File.

(** In custom mode a run that ends in [DONE] shows the parsed prompts. *)
Lemma custom_done_prompts (inp : Inputs File) (m : Machine World) :
  promptSource inp = custom_source ->
  let after := snd (handleGenerate svc inp m) in
  appState (display after) = DONE ->
  generatedPrompts (display after) = parseCustomPrompts (customPrompts inp).
Proof.
  intros Hc. cbv zeta. rewrite handleGenerate_unfold. cbv zeta.
  destruct (resolveStyle_spec svc inp (started m)) as (_ & _ & _ & Rout).
  destruct (fst (resolveStyle svc inp (started m))) as [style|];
    [|destruct Rout as [Rs _]; congruence].
  set (m1 := snd (resolveStyle svc inp (started m))) in *.
  destruct (acquirePrompts_spec svc inp style m1) as (Ai & _ & Aout).
  pose proof (acquirePrompts_custom svc inp style m1 Hc) as Ha.
  cbv zeta in Ha. destruct Ha as (_ & _ & Ha).
  destruct (fst (acquirePrompts svc inp style m1)) as [ps|] eqn:E;
    [|destruct Aout as [As _]; congruence].
  destruct Aout as (An & Ap & _). intros _.
  set (m2 := snd (acquirePrompts svc inp style m1)) in *.
  assert (Hi2 : generatedImages (display m2) = []).
  { rewrite Ai. destruct (resolveStyle_spec svc inp (started m))
      as (_ & Ri & _). fold m1 in Ri. now rewrite Ri. }
  destruct (imageStage_spec svc inp style ps m2 Hi2) as (_ & _ & Ip & _).
  rewrite Ip, Ap.
  destruct (parseCustomPrompts (customPrompts inp)) as [|q qs].
  - destruct Ha as [Ha _]. discriminate.
  - congruence.
Qed.

(** X5.  In custom mode, when the field has no carriage return and no
    Unicode line or paragraph separator and its numbers are safe integers,
    the text that Copy All writes for the failed prompts of a finished run
    parses back to exactly these prompts; and Copy All writes nothing when
    no prompt failed. *)
Theorem X5_copied_failed_prompts_parse_back (inp : Inputs File)
  (m : Machine World) :
  promptSource inp = custom_source ->
  forallb plain (customPrompts inp) = true ->
  Forall (fun p => p_id p <= MAX_SAFE_INTEGER)
    (parseCustomPrompts (customPrompts inp)) ->
  let after := snd (handleGenerate svc inp m) in
  appState (display after) = DONE ->
  match handleCopyFailedPrompts (display after) with
  | Some textToCopy =>
      parseCustomPrompts textToCopy = failedPrompts (display after)
      /\ failedPrompts (display after) <> []
  | None => failedPrompts (display after) = []
  end.
Proof.
  intros Hc Hplain _. cbv zeta. intros Hdone.
  pose proof (custom_done_prompts inp m Hc Hdone) as Hp.
  destruct (handleGenerate_final svc inp m)
    as [(Hidle & _)|(_ & _ & _ & _ & Hfailed & _)]; [congruence|].
  rewrite Hp in Hfailed. unfold handleCopyFailedPrompts.
  destruct (failedPrompts _) as [|f fs] eqn:Ef; [reflexivity|].
  cbn [List.length]. 
  replace (N.of_nat (S (List.length fs)) =? 0) with false
    by (symmetry; apply N.eqb_neq; lia).
  split; [|discriminate]. rewrite Hfailed.
  apply reparse_sorted.
  - apply failedOf_Forall, parseCustomPrompts_wellFormed.
  - apply failedOf_Forall, plain_clean, Hplain.
  - apply StronglySorted_Sorted, failedOf_sorted, parseCustomPrompts_sorted.
Qed.

End CopyFailed.

(** ** The archive of [downloadImagesAsZip] *)

Lemma filenameOf_inj a b : FileHelper.filenameOf a = FileHelper.filenameOf b -> a = b.
Proof.
  unfold FileHelper.filenameOf. intros H. apply app_inv_tail in H.
  destruct (numberToString_spec a) as [Ha _].
  destruct (numberToString_spec b) as [Hb _]. congruence.
Qed.

Section Archive.

Import FileHelper.

Lemma zipFile_names filename data files name :
  In name (map fst (zipFile filename data files))
  <-> name = filename \/ In name (map fst files).
Proof.
  induction files as [|[n d] rest IH]; cbn [zipFile map fst In].
  - intuition.
  - destruct (strictEq n filename) eqn:E; cbn [map fst In].
    + apply strictEq_iff in E. subst n. intuition.
    + rewrite IH. intuition.
Qed.

Lemma zipFile_NoDup filename data files :
  NoDup (map fst files) -> NoDup (map fst (zipFile filename data files)).
Proof.
  induction files as [|[n d] rest IH]; cbn [zipFile map fst]; intros H.
  - constructor; [intros []|constructor].
  - inversion H as [|? ? Hn Hrest]; subst.
    destruct (strictEq n filename) eqn:E; cbn [map fst].
    + apply strictEq_iff in E. subst n. now constructor.
    + constructor; [|auto]. rewrite zipFile_names. intros [->|Hin]; [|auto].
      rewrite strictEq_refl in E. discriminate.
Qed.

Lemma zipFile_lookup filename data files name :
  zipLookup name (zipFile filename data files)
  = if strictEq filename name then Some data else zipLookup name files.
Proof.
  induction files as [|[n d] rest IH]; cbn [zipFile zipLookup].
  - reflexivity.
  - destruct (strictEq n filename) eqn:E; cbn [zipLookup].
    + apply strictEq_iff in E. subst n.
      now destruct (strictEq filename name).
    + rewrite IH. destruct (strictEq n name) eqn:En; [|reflexivity].
      apply strictEq_iff in En. subst n.
      now rewrite strictEq_sym, E.
Qed.


Lemma hasData_cases image :
  (hasData image = true
   /\ exists c base64, img_base64 image = Some (c :: base64))
  \/ hasData image = false.
Proof.
  unfold hasData.
  destruct (img_base64 image) as [[|c base64]|]; cbn; eauto.
Qed.

Lemma addImage_skip zip image :
  hasData image = false -> addImage zip image = zip.
Proof.
  unfold hasData, addImage.
  now destruct (img_base64 image) as [[|c base64]|].
Qed.

Lemma fold_addImage_filter images : forall zip,
  fold_left addImage (filter hasData images) zip
  = fold_left addImage images zip.
Proof.
  induction images as [|g gs IH]; intros zip; [reflexivity|].
  cbn [filter fold_left]. destruct (hasData g) eqn:E; cbn [fold_left].
  - apply IH.
  - rewrite (addImage_skip _ _ E). apply IH.
Qed.

Lemma strictEq_filenameOf a b :
  strictEq (filenameOf a) (filenameOf b) = (a =? b).
Proof.
  destruct (a =? b) eqn:E.
  - apply N.eqb_eq in E. subst. apply strictEq_refl.
  - destruct (strictEq (filenameOf a) (filenameOf b)) eqn:Es; [|reflexivity].
    apply strictEq_iff, filenameOf_inj in Es. apply N.eqb_neq in E. congruence.
Qed.

Lemma lastDataOf_snoc id done image :
  lastDataOf id (done ++ [image])
  = if hasData image && (img_id image =? id) then img_base64 image
    else lastDataOf id done.
Proof. unfold lastDataOf. now rewrite fold_left_app. Qed.

Lemma idsWithData_snoc done image :
  idsWithData (done ++ [image])
  = idsWithData done ++ (if hasData image then [img_id image] else []).
Proof.
  unfold idsWithData. rewrite filter_app, map_app. cbn [filter].
  now destruct (hasData image).
Qed.

Lemma addImage_holds zip done image :
  Holds zip done -> Holds (addImage zip image) (done ++ [image]).
Proof.
  intros (Hnd & Hnames & Hlook). unfold Holds.
  destruct (hasData_cases image) as [(Hd & c & base64 & Eb)|Hd].
  - assert (Ea : addImage zip image
                 = zipFile (filenameOf (img_id image)) (c :: base64) zip)
      by (unfold addImage; now rewrite Eb).
    rewrite Ea. split; [now apply zipFile_NoDup|]. split.
    + intros name. rewrite zipFile_names, idsWithData_snoc, Hd, map_app,
        in_app_iff, Hnames. cbn [map In]. intuition.
    + intros id. rewrite zipFile_lookup, strictEq_filenameOf,
        lastDataOf_snoc, Hd, Hlook, Eb. reflexivity.
  - rewrite (addImage_skip _ _ Hd). split; [exact Hnd|]. split.
    + intros name. rewrite idsWithData_snoc, Hd, app_nil_r. apply Hnames.
    + intros id. rewrite lastDataOf_snoc, Hd. apply Hlook.
Qed.

Lemma fold_addImage_holds images : forall zip done,
  Holds zip done -> Holds (fold_left addImage images zip) (done ++ images).
Proof.
  induction images as [|g gs IH]; intros zip done H; cbn [fold_left].
  - now rewrite app_nil_r.
  - replace (done ++ g :: gs) with ((done ++ [g]) ++ gs)
      by (now rewrite <- app_assoc).
    apply IH, addImage_holds, H.
Qed.

Lemma zipOf_unfold images : zipOf images = fold_left addImage images [].
Proof. unfold zipOf. fold hasData. apply fold_addImage_filter. Qed.

Lemma no_data_iff images :
  (N.of_nat (List.length (filter hasData images)) =? 0)
  = negb (existsb hasData images).
Proof.
  induction images as [|g gs IH]; [reflexivity|].
  cbn [filter existsb]. destruct (hasData g); [reflexivity|exact IH].
Qed.

(** The function, by what [generateAsync] answers. *)
Lemma downloadImagesAsZip_unfold {World Blob}
  (generateAsync :
     list (jsstring * jsstring) -> World -> (Blob + Thrown) * World)
  images w :
  downloadImagesAsZip generateAsync images w
  = if existsb hasData images
    then match generateAsync (zipOf images) w with
         | (inl content, w') =>
             (Some (content, js "waris_s2i_images.zip"), w')
         | (inr _, w') => (None, w')
         end
    else (None, w).
Proof.
  unfold downloadImagesAsZip. fold hasData. rewrite no_data_iff.
  destruct (existsb hasData images); reflexivity.
Qed.

(** The archive, entry by entry. *)
Lemma zipOf_holds images : Holds (zipOf images) images.
Proof.
  rewrite zipOf_unfold. apply (fold_addImage_holds images [] []).
  unfold Holds. cbn. repeat split; try tauto. constructor.
Qed.

End Archive.

Lemma archive_count (images : list GeneratedImage) :
  (List.length (FileHelper.zipOf images)
   <= List.length (filter hasData images))%nat
  /\ (List.length (FileHelper.zipOf images)
      = List.length (filter hasData images)
      <-> NoDup (idsWithData images)).
Proof.
  destruct (zipOf_holds images) as (Hnd & Hnames & _).
  set (files := FileHelper.zipOf images) in *.
  assert (Hlen : List.length (map FileHelper.filenameOf (idsWithData images))
                 = List.length (filter hasData images))
    by (unfold idsWithData; now rewrite !length_map).
  assert (Hle : (List.length (map fst files)
                 <= List.length (map FileHelper.filenameOf
                                   (idsWithData images)))%nat).
  { apply NoDup_incl_length; [exact Hnd|]. intros x Hx. now apply Hnames. }
  rewrite length_map in Hle. rewrite Hlen in Hle.
  split; [exact Hle|]. split.
  - intros Heq.
    apply (NoDup_map_inv FileHelper.filenameOf).
    apply (NoDup_incl_NoDup Hnd).
    + rewrite Hlen, length_map. lia.
    + intros x Hx. now apply Hnames.
  - intros Hids.
    assert (Hge : (List.length (map FileHelper.filenameOf (idsWithData images))
                   <= List.length (map fst files))%nat).
    { apply NoDup_incl_length.
      - apply Finite.Injective_map_NoDup; [|exact Hids].
        intros a b. apply filenameOf_inj.
      - intros x Hx. now apply Hnames. }
    rewrite Hlen, length_map in Hge. lia.
Qed.

Section ArchiveProperties.

Context {World Blob : Type}.
Variable generateAsync :
  list (jsstring * jsstring) -> World -> (Blob + Thrown) * World.

(** X6.  [downloadImagesAsZip] calls [saveAs] exactly when some image has
    data and [generateAsync] resolves on the archive built, and then with
    the blob it gave and the name [waris_s2i_images.zip]; when no image has
    data it returns before it asks for an archive, and when [generateAsync]
    rejects nothing is saved.  The archive built holds one entry for each id
    that has an image with data, named by the id with the extension
    [.jpeg], and the entry holds the data of the last such image: of two
    images with the same id only the later one is kept. *)
Theorem X6_archive_entries (images : list GeneratedImage) (w : World) :
  Forall (fun g => img_id g <= MAX_SAFE_INTEGER) images ->
  let files := FileHelper.zipOf images in
  FileHelper.downloadImagesAsZip generateAsync images w
  = (if existsb hasData images
     then match generateAsync files w with
          | (inl content, w') =>
              (Some (content, js "waris_s2i_images.zip"), w')
          | (inr _, w') => (None, w')
          end
     else (None, w))
  /\ NoDup (map fst files)
  /\ (forall name,
        In name (map fst files)
        <-> exists g, In g images /\ hasData g = true
                      /\ name = FileHelper.filenameOf (img_id g))
  /\ (forall id,
        zipLookup (FileHelper.filenameOf id) files = lastDataOf id images).
Proof.
  intros _. cbv zeta.
  destruct (zipOf_holds images) as (Hnd & Hnames & Hlook).
  split; [apply downloadImagesAsZip_unfold|].
  repeat split; auto.
  - intros H. apply Hnames in H. unfold idsWithData in H.
    rewrite map_map in H. apply in_map_iff in H.
    destruct H as (g & <- & Hg). apply filter_In in Hg. exists g. tauto.
  - intros (g & Hg & Hd & ->). apply Hnames. unfold idsWithData.
    rewrite map_map. apply in_map_iff. exists g.
    split; [reflexivity|]. now apply filter_In.
Qed.

(** X7.  Whenever [downloadImagesAsZip] saves an archive, it is the blob
    that [generateAsync] made of the archive built; that archive never holds
    more entries than there are images with data, and it holds as many
    exactly when these images have distinct ids. *)
Theorem X7_archive_count (images : list GeneratedImage) (w : World)
  (content : Blob) (filename : jsstring) :
  Forall (fun g => img_id g <= MAX_SAFE_INTEGER) images ->
  fst (FileHelper.downloadImagesAsZip generateAsync images w)
  = Some (content, filename) ->
  let files := FileHelper.zipOf images in
  fst (generateAsync files w) = inl content
  /\ filename = js "waris_s2i_images.zip"
  /\ existsb hasData images = true
  /\ (List.length files <= List.length (filter hasData images))%nat
  /\ (List.length files = List.length (filter hasData images)
      <-> NoDup (idsWithData images)).
Proof.
  intros _ E. cbv zeta. rewrite downloadImagesAsZip_unfold in E.
  destruct (existsb hasData images); [|discriminate].
  destruct (generateAsync (FileHelper.zipOf images) w) as [[blob|err] w'];
    cbn [fst] in *; [|discriminate].
  injection E as -> <-.
  split; [reflexivity|]. split; [reflexivity|]. split; [reflexivity|].
  apply archive_count.
Qed.

End ArchiveProperties.

(** ** The archive after a run *)

Lemma numberFrom_ids generated : forall i,
  map p_id (numberFrom i generated) = idsFrom i (List.length generated)
  /\ map p_text (numberFrom i generated) = generated.
Proof.
  induction generated as [|g gs IH]; intros i; [split; reflexivity|].
  cbn [numberFrom map p_id p_text List.length idsFrom].
  destruct (IH (i + 1)) as [-> ->]. split; reflexivity.
Qed.

Lemma idsFrom_above n : forall first,
  Forall (fun id => first < id) (idsFrom first n).
Proof.
  induction n as [|n IH]; intros first; cbn [idsFrom]; constructor; [lia|].
  eapply Forall_impl; [|apply IH]. cbn. intros id H. lia.
Qed.

Lemma idsFrom_NoDup n : forall first, NoDup (idsFrom first n).
Proof.
  induction n as [|n IH]; intros first; cbn [idsFrom]; constructor; [|apply IH].
  intros H. pose proof (idsFrom_above n (first + 1)) as Ha.
  rewrite Forall_forall in Ha. apply Ha in H. lia.
Qed.

Lemma NoDup_map_filter {A B} (f : A -> B) (keep : A -> bool) l :
  NoDup (map f l) -> NoDup (map f (filter keep l)).
Proof.
  induction l as [|x l IH]; cbn [map filter]; intros H; [constructor|].
  inversion H as [|? ? Hx Hl]; subst.
  destruct (keep x); cbn [map]; [|auto].
  constructor; [|auto]. intros Hin. apply Hx.
  apply in_map_iff in Hin. destruct Hin as (y & Ey & Hy).
  apply filter_In in Hy. apply in_map_iff. exists y. tauto.
Qed.

Lemma existsb_same {A} (f g : A -> bool) l :
  Forall (fun x => f x = g x) l -> existsb f l = existsb g l.
Proof.
  induction 1 as [|x l Hx _ IH]; [reflexivity|].
  cbn [existsb]. now rewrite Hx, IH.
Qed.

Lemma filter_same {A} (f g : A -> bool) l :
  Forall (fun x => f x = g x) l -> filter f l = filter g l.
Proof.
  induction 1 as [|x l Hx _ IH]; [reflexivity|].
  cbn [filter]. now rewrite Hx, IH.
Qed.

Lemma records_ids prompts images :
  Forall2 RecordsPrompt prompts images ->
  map img_id images = map p_id prompts.
Proof.
  induction 1 as [|p g ps gs (Hid & _) _ IH]; [reflexivity|].
  cbn [map]. now rewrite Hid, IH.
Qed.

Section ArchiveAfterRun.

Context {World File : Type}.
Variable svc : Services World File.

Lemma acquirePrompts_script_some (inp : Inputs File) style (m : Machine World)
  ps :
  promptSource inp = script_source ->
  fst (acquirePrompts svc inp style m) = Some ps ->
  exists generated, ps = numberFrom 0 generated.
Proof.
  intros Hs. unfold acquirePrompts. rewrite Hs.
  destruct (truthy (trim (script inp))); simpl; run_setters;
    [|discriminate].
  destruct (generatePrompts svc (script inp) style (niche inp) (world m))
    as [[[generated requestPrompt]|err] w1]; simpl; [|discriminate].
  destruct (numberFrom 0 generated) eqn:E; simpl; [discriminate|].
  intros H. injection H as <-. now exists generated.
Qed.

(** In script mode a run that ends in [DONE] shows prompts numbered from
    one. *)
Lemma script_done_prompts (inp : Inputs File) (m : Machine World) :
  promptSource inp = script_source ->
  let after := snd (handleGenerate svc inp m) in
  appState (display after) = DONE ->
  exists generated,
    generatedPrompts (display after) = numberFrom 0 generated.
Proof.
  intros Hs. cbv zeta. rewrite handleGenerate_unfold. cbv zeta.
  destruct (resolveStyle_spec svc inp (started m)) as (_ & Ri & _ & Rout).
  destruct (fst (resolveStyle svc inp (started m))) as [style|];
    [|destruct Rout as [Rs _]; congruence].
  set (m1 := snd (resolveStyle svc inp (started m))) in *.
  destruct (acquirePrompts_spec svc inp style m1) as (Ai & _ & Aout).
  pose proof (acquirePrompts_script_some inp style m1) as Ha.
  destruct (fst (acquirePrompts svc inp style m1)) as [ps|];
    [|destruct Aout as [As _]; congruence].
  destruct Aout as (_ & Ap & _). intros _.
  destruct (Ha ps Hs eq_refl) as [generated ->].
  set (m2 := snd (acquirePrompts svc inp style m1)) in *.
  assert (Hi2 : generatedImages (display m2) = [])
    by (rewrite Ai, Ri; reflexivity).
  destruct (imageStage_spec svc inp style (numberFrom 0 generated) m2 Hi2)
    as (_ & _ & Ip & _).
  exists generated. now rewrite Ip, Ap.
Qed.

(** X8.  After a run, the Download All button is enabled exactly when some
    result holds image data.  When it is enabled, [downloadImagesAsZip] on
    the results asks [generateAsync] for the archive and saves the blob if
    there is one, and nothing if [generateAsync] rejects; when it is
    disabled the function returns before it asks for an archive.  In script
    mode the archive built of the results holds one entry for each
    successful result. *)
Theorem X8_archive_after_run {Blob : Type}
  (generateAsync :
     list (jsstring * jsstring) -> World -> (Blob + Thrown) * World)
  (inp : Inputs File) (m : Machine World) (w : World) :
  let after := snd (handleGenerate svc inp m) in
  let images := generatedImages (display after) in
  let files := FileHelper.zipOf images in
  (downloadAllDisabled (display after) = false
   <-> existsb hasData images = true)
  /\ (downloadAllDisabled (display after) = false ->
      FileHelper.downloadImagesAsZip generateAsync images w
      = match generateAsync files w with
        | (inl content, w') =>
            (Some (content, js "waris_s2i_images.zip"), w')
        | (inr _, w') => (None, w')
        end)
  /\ (downloadAllDisabled (display after) = true ->
      FileHelper.downloadImagesAsZip generateAsync images w = (None, w))
  /\ (promptSource inp = script_source ->
      List.length files = List.length (filter succeeded images)).
Proof.
  cbv zeta.
  assert (Hsame : Forall (fun g => hasData g = succeeded g)
                    (generatedImages
                       (display (snd (handleGenerate svc inp m))))).
  { destruct (handleGenerate_final svc inp m)
      as [(_ & _ & _ & -> & _)|(_ & _ & _ & _ & _ & H & _)];
      [constructor|exact H]. }
  assert (Hbutton :
            downloadAllDisabled (display (snd (handleGenerate svc inp m)))
            = negb (existsb hasData
                      (generatedImages
                         (display (snd (handleGenerate svc inp m)))))).
  { unfold downloadAllDisabled.
    destruct (handleGenerate_final svc inp m) as [(Hs & _)|(Hs & _)];
      unfold isLoading; rewrite Hs, orb_false_r,
        <- (existsb_same _ _ _ Hsame); reflexivity. }
  rewrite Hbutton, downloadImagesAsZip_unfold.
  split; [|split; [|split]].
  - destruct (existsb hasData _); cbn [negb]; split; congruence.
  - destruct (existsb hasData _); cbn [negb]; [reflexivity|discriminate].
  - destruct (existsb hasData _); cbn [negb]; [discriminate|reflexivity].
  - intros Hscript.
    destruct (archive_count
                (generatedImages (display (snd (handleGenerate svc inp m)))))
      as [_ Hiff].
    rewrite <- (filter_same _ _ _ Hsame). apply Hiff.
    unfold idsWithData. apply NoDup_map_filter.
    destruct (handleGenerate_spec svc inp m) as [_ Hout].
    destruct Hout as [_ _ Hi|style made Hdone _ _ Hrec _ _ _ _].
    + rewrite Hi. constructor.
    + rewrite (records_ids _ _ Hrec).
      destruct (script_done_prompts inp m Hscript Hdone) as [generated ->].
      destruct (numberFrom_ids generated 0) as [-> _]. apply idsFrom_NoDup.
Qed.

End ArchiveAfterRun.

(** ** Runs in script mode *)

Section ScriptRuns.

Context {World File : Type}.
Variable svc : Services World File.

(** A run in script mode, by what [generatePrompts] answers. *)
Lemma script_run (inp : Inputs File) (m : Machine World) style :
  promptSource inp = script_source ->
  truthy (trim (script inp)) = true ->
  fst (resolveStyle svc inp (started m)) = Some style ->
  let m1 := snd (resolveStyle svc inp (started m)) in
  let answer := generatePrompts svc (script inp) style (niche inp) (world m1) in
  let after := snd (handleGenerate svc inp m) in
  let asked :=
    (GENERATING_PROMPTS, CallGeneratePrompts (script inp) style (niche inp)) in
  match fst answer with
  | inl (generated, requestPrompt) =>
      aiRequestPrompt (display after) = requestPrompt
      /\ generatedPrompts (display after) = numberFrom 0 generated
      /\ match generated with
         | [] =>
             appState (display after) = IDLE
             /\ error (display after)
                = Some (js "No prompts were generated or provided.")
             /\ calls after = calls m1 ++ [asked]
         | _ => appState (display after) = DONE
         end
  | inr err =>
      appState (display after) = IDLE
      /\ error (display after)
         = Some (messageOr (js "An unknown error occurred.") err)
      /\ aiRequestPrompt (display after) = []
      /\ generatedPrompts (display after) = []
      /\ calls after = calls m1 ++ [asked]
  end.
Proof.
  intros Hs Ht Hstyle. cbv zeta. rewrite handleGenerate_unfold. cbv zeta.
  destruct (resolveStyle_spec svc inp (started m)) as (Rp & Ri & _ & Rout).
  destruct (resolveStyle_rest svc inp (started m)) as (_ & Ra).
  rewrite Hstyle in *. destruct Rout as [Rs _].
  set (m1 := snd (resolveStyle svc inp (started m))) in *.
  destruct (acquirePrompts_script svc inp style m1 Hs Ht)
    as (Ac & _ & _ & Ai & Aout).
  rewrite Rs in Ac. change (appState (display (started m)))
    with GENERATING_PROMPTS in Ac.
  destruct (fst (generatePrompts svc (script inp) style (niche inp) (world m1)))
    as [[generated requestPrompt]|err].
  - destruct Aout as (Aa & Ap & Acase).
    destruct generated as [|g rest].
    + destruct Acase as (-> & As & Ae). repeat split; auto.
    + destruct Acase as (-> & As & Ae).
      set (m2 := snd (acquirePrompts svc inp style m1)) in *.
      assert (Hi2 : generatedImages (display m2) = [])
        by (rewrite Ai, Ri; reflexivity).
      destruct (imageStage_spec svc inp style (numberFrom 0 (g :: rest))
                  m2 Hi2) as (Is & _ & Ip & _).
      destruct (imageStage_final svc inp style (numberFrom 0 (g :: rest))
                  m2 Hi2) as (_ & _ & _ & _ & Ia).
      rewrite Ia, Ip. repeat split; auto.
  - destruct Aout as (-> & As & Ae & Aa & Ap).
    rewrite Aa, Ap, Ra, Rp. repeat split; auto.
Qed.

End ScriptRuns.

Section GeminiRuns.

Context {World File : Type}.
Variable svc : Services World File.
Variable generateContent :
  jsstring -> World -> (Gemini.ContentResponse + Thrown) * World.
Variable JSON_parse : jsstring -> Gemini.JsonOutcome.

(** X9.  In script mode, when [generatePrompts] fails, the run ends in
    [IDLE] and shows the message of the error thrown: the generic message of
    [generatePrompts] or a message that starts with one of the four texts
    it lets through, and never the fallback message of the handler.  No
    prompt is shown, the request text is empty, and the call for the prompts
    is the last call made: no image is asked for. *)
Theorem X9_script_failure_shown (inp : Inputs File) (m : Machine World) style
  thrown :
  let svc' := withGemini svc generateContent JSON_parse in
  let m1 := snd (resolveStyle svc' inp (started m)) in
  let after := snd (handleGenerate svc' inp m) in
  promptSource inp = script_source ->
  truthy (trim (script inp)) = true ->
  fst (resolveStyle svc' inp (started m)) = Some style ->
  fst (Gemini.generatePrompts generateContent JSON_parse (script inp) style
         (niche inp) (world m1)) = inr thrown ->
  exists message,
    thrown = ErrorObject message
    /\ (message = Gemini.UNEXPECTED \/ Gemini.isUserFriendly message = true)
    /\ appState (display after) = IDLE
    /\ error (display after) = Some message
    /\ error (display after) <> Some (js "An unknown error occurred.")
    /\ generatedPrompts (display after) = []
    /\ aiRequestPrompt (display after) = []
    /\ calls after
       = calls m1
         ++ [(GENERATING_PROMPTS,
              CallGeneratePrompts (script inp) style (niche inp))].
Proof.
  cbv zeta. intros Hs Ht Hstyle Hthrown.
  pose proof (script_run (withGemini svc generateContent JSON_parse)
                inp m style Hs Ht Hstyle) as Hrun.
  cbv zeta in Hrun.
  change (generatePrompts (withGemini svc generateContent JSON_parse))
    with (Gemini.generatePrompts generateContent JSON_parse) in Hrun.
  rewrite Hthrown in Hrun. destruct Hrun as (Hidle & He & Ha & Hp & Hc).
  destruct (generatePrompts_failure _ _ _ _ _ _ _ Hthrown)
    as (message & -> & Hm).
  exists message. cbn [messageOr] in He. repeat split; auto.
  rewrite He. intros H. injection H as ->.
  destruct Hm as [Hm|Hm]; vm_compute in Hm; discriminate.
Qed.

(** X10.  In script mode, when [generatePrompts] returns prompts, the run
    ends in [DONE]; the prompts shown carry the ids 1, 2, ... in the order
    of the answer, with its texts unchanged; and the request text kept for
    display is the request built from the script, the effective style and
    the niche.  When it returns no prompt at all, the run ends in [IDLE]
    with the error that no prompts were generated, and the request text is
    kept all the same. *)
Theorem X10_script_prompts_numbered (inp : Inputs File) (m : Machine World)
  style prompts requestPrompt :
  let svc' := withGemini svc generateContent JSON_parse in
  let m1 := snd (resolveStyle svc' inp (started m)) in
  let after := snd (handleGenerate svc' inp m) in
  promptSource inp = script_source ->
  truthy (trim (script inp)) = true ->
  fst (resolveStyle svc' inp (started m)) = Some style ->
  fst (Gemini.generatePrompts generateContent JSON_parse (script inp) style
         (niche inp) (world m1)) = inl (prompts, requestPrompt) ->
  aiRequestPrompt (display after)
  = Gemini.requestPromptOf (script inp) style (niche inp)
  /\ map p_id (generatedPrompts (display after))
     = idsFrom 0 (List.length prompts)
  /\ map p_text (generatedPrompts (display after)) = prompts
  /\ match prompts with
     | [] =>
         appState (display after) = IDLE
         /\ error (display after)
            = Some (js "No prompts were generated or provided.")
     | _ => appState (display after) = DONE
     end.
Proof.
  cbv zeta. intros Hs Ht Hstyle Hanswer.
  pose proof (script_run (withGemini svc generateContent JSON_parse)
                inp m style Hs Ht Hstyle) as Hrun.
  cbv zeta in Hrun.
  change (generatePrompts (withGemini svc generateContent JSON_parse))
    with (Gemini.generatePrompts generateContent JSON_parse) in Hrun.
  rewrite Hanswer in Hrun. destruct Hrun as (Ha & Hp & Hcase).
  rewrite Ha, Hp.
  destruct (numberFrom_ids prompts 0) as [-> ->].
  split; [exact (generatePrompts_success _ _ _ _ _ _ _ _ Hanswer)|].
  split; [reflexivity|]. split; [reflexivity|].
  destruct prompts; tauto.
Qed.

End GeminiRuns.

(** ** The payload of a data URL *)

Lemma splitOn_aux_plain sep s :
  forallb (fun c => negb (c =? sep)) s = true -> splitOn_aux sep s = (s, []).
Proof.
  induction s as [|c s IH]; cbn [forallb splitOn_aux]; [reflexivity|].
  rewrite andb_true_iff, negb_true_iff. intros [Hc Hs].
  now rewrite (IH Hs), Hc.
Qed.

Lemma splitOn_app sep header rest :
  forallb (fun c => negb (c =? sep)) header = true ->
  splitOn sep (header ++ sep :: rest) = header :: splitOn sep rest.
Proof.
  unfold splitOn. induction header as [|c h IH]; cbn [forallb app splitOn_aux].
  - intros _. destruct (splitOn_aux sep rest). now rewrite N.eqb_refl.
  - rewrite andb_true_iff, negb_true_iff. intros [Hc Hs].
    specialize (IH Hs).
    destruct (splitOn_aux sep (h ++ sep :: rest)) as [l ls].
    rewrite Hc. now injection IH as -> ->.
Qed.

Lemma splitOn_parts sep s :
  Forall (fun part => forallb (fun c => negb (c =? sep)) part = true)
    (splitOn sep s).
Proof.
  unfold splitOn. induction s as [|c s IH]; cbn [splitOn_aux].
  - repeat constructor.
  - destruct (splitOn_aux sep s) as [l ls].
    inversion IH as [|? ? Hl Hls]; subst.
    destruct (c =? sep) eqn:E; constructor; auto.
    cbn [forallb]. now rewrite E, Hl.
Qed.

(** X11.  What [fileToBase64] and [blobToBase64] keep of a data URL is the
    text between its first comma and its second one or its end: the text
    after the header when neither the header nor that text holds a comma;
    nothing at all ([undefined]) when the URL has no comma; and it never
    holds a comma. *)
Theorem X11_payload_of_data_url :
  (forall header payload,
     forallb (fun c => negb (c =? COMMA)) header = true ->
     forallb (fun c => negb (c =? COMMA)) payload = true ->
     payloadOf (header ++ COMMA :: payload) = Some payload
     /\ forall more,
          payloadOf (header ++ COMMA :: payload ++ COMMA :: more)
          = Some payload)
  /\ (forall dataUrl,
        payloadOf dataUrl = None
        <-> forallb (fun c => negb (c =? COMMA)) dataUrl = true)
  /\ (forall dataUrl payload,
        payloadOf dataUrl = Some payload ->
        forallb (fun c => negb (c =? COMMA)) payload = true).
Proof.
  unfold payloadOf. split; [|split].
  - intros header payload Hh Hp. split.
    + rewrite (splitOn_app _ _ _ Hh). unfold splitOn.
      now rewrite (splitOn_aux_plain _ _ Hp).
    + intros more.
      rewrite (splitOn_app _ _ _ Hh), (splitOn_app _ _ _ Hp). reflexivity.
  - intros dataUrl. split.
    + unfold splitOn. induction dataUrl as [|c s IH]; [reflexivity|].
      cbn [splitOn_aux forallb]. destruct (splitOn_aux COMMA s) as [l ls].
      destruct (c =? COMMA) eqn:E; [discriminate|]. exact IH.
    + intros H. unfold splitOn. now rewrite (splitOn_aux_plain _ _ H).
  - intros dataUrl payload H.
    pose proof (splitOn_parts COMMA dataUrl) as Hparts.
    rewrite Forall_forall in Hparts. apply Hparts.
    eapply nth_error_In, H.
Qed.

(** ** The reference image *)

Section ReferenceImage.

Context {World File : Type}.
Variable svc : Services World File.
Variable fileType : File -> jsstring.
Variable readAsDataURL :
  File -> World -> FileHelper.ReaderEvent jsstring * World.

(** X12.  With a reference image, the style step sends to the model the
    payload of the data URL of the file and the type of the file.  When the
    file cannot be read, the run ends in [IDLE] with the message that the
    reference image could not be analyzed and no provider is called.  When
    the model throws or gives no text, the run ends in [IDLE] with the
    message of [analyzeImageStyle], whatever the model said, after that one
    call.  Otherwise the effective style is the stripped answer, a comma and
    a space, and the keywords. *)
Theorem X12_reference_image_step (inp : Inputs File) (m : Machine World) file :
  let svc' := withFileReader svc fileType readAsDataURL in
  let after := snd (handleGenerate svc' inp m) in
  referenceImageFile inp = Some file ->
  match readAsDataURL file (world m) with
  | (FileHelper.ReadError, _) =>
      appState (display after) = IDLE
      /\ error (display after) = Some (js "Failed to analyze reference image.")
      /\ calls after = calls m
  | (FileHelper.Load result, w1) =>
      match
        fst (sdk_describeImage svc
               (mkImageData (payloadOf result) (fileType file)) w1)
      with
      | inl (Some responseText) =>
          fst (resolveStyle svc' inp (started m))
          = Some (trim responseText ++ js ", " ++ imageStyle inp)
      | _ =>
          appState (display after) = IDLE
          /\ error (display after)
             = Some (js "Failed to analyze the reference image style.")
          /\ calls after = calls m ++ [(GENERATING_PROMPTS, CallAnalyzeStyle)]
      end
  end.
Proof.
  cbv zeta. intros Hf. rewrite handleGenerate_unfold. cbv zeta.
  unfold resolveStyle. rewrite Hf. run_setters.
  unfold FileHelper.fileToBase64.
  destruct (readAsDataURL file (world m)) as [[result|] w1]; simpl.
  - unfold analyzeImageStyle. simpl.
    destruct (sdk_describeImage svc _ w1) as [[[responseText|]|err] w2];
      simpl; auto.
  - auto.
Qed.

Lemma resolveStyle_shape (inp : Inputs File) (m : Machine World) file style :
  referenceImageFile inp = Some file ->
  fst (resolveStyle svc inp m) = Some style ->
  exists described, style = described ++ js ", " ++ imageStyle inp.
Proof.
  intros Hf. unfold resolveStyle. rewrite Hf. run_setters.
  destruct (fileToBase64 svc file (world m)) as [[imageData|err] w1]; simpl;
    [|discriminate].
  destruct (analyzeImageStyle svc imageData w1) as [[described|err] w2];
    simpl; [|discriminate].
  intros H. injection H as <-. now exists described.
Qed.

(** X14.  With a reference image the effective style is never blank, even
    when the answer of the model and the keywords are both empty: in custom
    mode every text sent to the image services is the text of the prompt
    followed by a comma, a space and the effective style. *)
Theorem X14_reference_style_always_appended (inp : Inputs File)
  (m : Machine World) file style :
  referenceImageFile inp = Some file ->
  fst (resolveStyle svc inp m) = Some style ->
  truthy (trim style) = true
  /\ (exists described, style = described ++ js ", " ++ imageStyle inp)
  /\ (promptSource inp = custom_source ->
      forall promptData,
        finalPromptOf inp style promptData
        = p_text promptData ++ js ", " ++ style).
Proof.
  intros Hf Hs.
  destruct (resolveStyle_shape inp m file style Hf Hs) as [described ->].
  assert (Ht : truthy (trim (described ++ js ", " ++ imageStyle inp)) = true).
  { destruct (trim _) eqn:E; [|reflexivity].
    apply trim_nil_iff in E. rewrite forallb_app in E.
    apply andb_true_iff in E. destruct E as [_ E]. discriminate. }
  split; [exact Ht|]. split; [now exists described|].
  intros Hc promptData. unfold finalPromptOf. now rewrite Hc, Ht.
Qed.

End ReferenceImage.

(** ** Uploading a script file *)

Section ScriptFile.

Context {World File Buffer : Type}.
Variable fileName : File -> jsstring.
Variable readAsText :
  File -> World -> FileHelper.ReaderEvent (option jsstring) * World.
Variable readAsArrayBuffer :
  File -> World -> FileHelper.ReaderEvent (option Buffer) * World.
Variable extractRawText : Buffer -> World -> (jsstring + Thrown) * World.

(** [readTextFromFile] rejects with one of three errors. *)
Lemma readTextFromFile_rejects file w err :
  fst (FileHelper.readTextFromFile fileName readAsText readAsArrayBuffer
         extractRawText file w) = inr err ->
  In err [ErrorObject (js "Failed to read file.");
          ErrorObject (js "Could not parse the .docx file.");
          ErrorObject (js "Error reading file.")].
Proof.
  unfold FileHelper.readTextFromFile.
  destruct (endsWith (fileName file) (js ".docx")).
  - destruct (readAsArrayBuffer file w) as [[[arrayBuffer|]|] w1]; cbn [fst].
    + destruct (extractRawText arrayBuffer w1) as [[value|e] w2]; cbn [fst];
        [discriminate|].
      intros H. injection H as <-. cbn. auto.
    + intros H. injection H as <-. cbn. auto.
    + intros H. injection H as <-. cbn. auto.
  - destruct (readAsText file w) as [[[[|c result]|]|] w1]; cbn [fst];
      try discriminate; intros H; injection H as <-; cbn; auto.
Qed.

(** X13.  After a script file is chosen, either no error is shown and the
    script is the text read, which is not empty unless the file is a
    [.docx] one; or the script is emptied and the error is one of the three
    messages of [readTextFromFile], in which case the Generate button is
    disabled in script mode.  A text file that is read as the empty string
    is reported as a failed read. *)
Theorem X13_script_file_upload (file : File) (inp : Inputs File)
  (m : Machine World) :
  let readTextFromFile :=
    FileHelper.readTextFromFile fileName readAsText readAsArrayBuffer
      extractRawText in
  let run := handleFileChange readTextFromFile (Some file) inp m in
  let inp' := fst run in
  let after := snd run in
  ((error (display after) = None
    /\ fst (readTextFromFile file (world m)) = inl (script inp')
    /\ (endsWith (fileName file) (js ".docx") = false -> script inp' <> []))
   \/ (In (error (display after))
         [Some (js "Failed to read file.");
          Some (js "Could not parse the .docx file.");
          Some (js "Error reading file.")]
       /\ script inp' = []
       /\ (promptSource inp = script_source ->
           generateDisabled inp' (display after) = true)))
  /\ (endsWith (fileName file) (js ".docx") = false ->
      fst (readAsText file (world m)) = FileHelper.Load (Some []) ->
      error (display after) = Some (js "Failed to read file.")
      /\ script inp' = []).
Proof.
  cbv zeta. unfold handleFileChange. run_setters.
  pose proof (readTextFromFile_rejects file (world m)) as Hrej.
  split.
  - destruct (FileHelper.readTextFromFile fileName readAsText
                readAsArrayBuffer extractRawText file (world m))
      as [[text|err] w1] eqn:E; cbn [fst snd] in *.
    + left. cbn. split; [reflexivity|]. split; [reflexivity|].
      intros Hd. unfold FileHelper.readTextFromFile in E. rewrite Hd in E.
      destruct (readAsText file (world m)) as [[[[|c result]|]|] w2];
        try discriminate.
      injection E as <- _. discriminate.
    + right. cbn. specialize (Hrej err eq_refl).
      split.
      * destruct Hrej as [<-|[<-|[<-|[]]]]; cbn; auto.
      * split; [reflexivity|]. intros Hs. unfold generateDisabled.
        rewrite orb_true_iff. right. cbn. now rewrite Hs.
  - intros Hd Hr. unfold FileHelper.readTextFromFile. rewrite Hd.
    destruct (readAsText file (world m)) as [ev w2]. cbn [fst] in Hr.
    subst ev. cbn. auto.
Qed.

End ScriptFile.

(** ** More on the parser of the custom prompts *)

Lemma fold_parseLine_unnumbered lines :
  Forall (fun line => matchNumbered (trim line) = None) lines ->
  fold_left parseLine lines ([], None) = ([], None).
Proof.
  induction 1 as [|l ls Hl _ IH]; [reflexivity|].
  cbn [fold_left]. unfold parseLine at 2. now rewrite Hl.
Qed.

(** X15.  What stands before the first numbered line is ignored: a text
    whose lines do not match the pattern, put in front of the field on lines
    of its own, changes nothing to the prompts parsed. *)
Theorem X15_text_before_first_prompt_ignored preamble rest :
  noNumberedLine preamble ->
  parseCustomPrompts (preamble ++ LF :: rest) = parseCustomPrompts rest.
Proof.
  intros H. unfold parseCustomPrompts.
  rewrite !parsePrompts_lines, split_lf_app, fold_left_app.
  rewrite fold_parseLine_unnumbered; [reflexivity|].
  apply Forall_forall. exact H.
Qed.

Lemma filter_nil_iff {A} (f : A -> bool) l :
  filter f l = [] <-> Forall (fun x => f x = false) l.
Proof.
  induction l as [|x l IH]; cbn [filter]; [split; constructor|].
  destruct (f x) eqn:E; split; intros H.
  - discriminate.
  - inversion H; congruence.
  - constructor; tauto.
  - inversion H; tauto.
Qed.

(** X16.  The parser delivers exactly one prompt for each line of the field
    that, once stripped, matches the pattern of the numbered line: no
    numbered line is dropped or merged with another, also when two of them
    carry the same number. *)
Theorem X16_one_prompt_per_numbered_line raw :
  List.length (parseCustomPrompts raw)
  = List.length (filter isNumbered (split_lf raw))
  /\ (parseCustomPrompts raw = []
      <-> Forall (fun line => isNumbered line = false) (split_lf raw)).
Proof.
  pose proof (parseCustomPrompts_length raw) as Hlen.
  split; [exact Hlen|]. rewrite <- filter_nil_iff. split.
  - intros H. rewrite H in Hlen.
    now destruct (filter isNumbered (split_lf raw)).
  - intros H. rewrite H in Hlen. now destruct (parseCustomPrompts raw).
Qed.

(** X17.  The text of every parsed prompt has no whitespace at its ends;
    unless it is empty, none of its lines is blank and none has whitespace
    at its ends, so blank lines and indentation inside a prompt are lost;
    and no line after the first matches the pattern of the numbered line. *)
Theorem X17_parsed_texts_are_stripped raw :
  Forall
    (fun p =>
       Trimmed (p_text p)
       /\ (p_text p = []
           \/ Forall (fun line => Trimmed line /\ line <> [])
                (split_lf (p_text p)))
       /\ Forall (fun line => matchNumbered line = None)
            (tl (split_lf (p_text p))))
    (parseCustomPrompts raw).
Proof.
  eapply Forall_impl; [|apply parseCustomPrompts_wellFormed].
  intros p Hw. split; [now apply WellFormedText_trimmed|].
  destruct Hw as (first & conts & Hs & Hn).
  rewrite (WellFormedText_lines _ _ _ Hs).
  destruct Hs as (Ht & Hf & _ & Hc). cbn [tl]. split.
  - destruct first as [|c f].
    + left. rewrite Ht, (Hn eq_refl). reflexivity.
    + right. constructor; [split; [exact Hf|discriminate]|].
      eapply Forall_impl; [|exact Hc]. now intros l (? & ? & _).
  - eapply Forall_impl; [|exact Hc]. now intros l (_ & _ & ? & _).
Qed.

(** ** Reading the downloaded prompts back *)

Lemma RULER_continuation : Continuation RULER.
Proof. repeat split; discriminate. Qed.

Lemma downloadText_cons p q ps :
  downloadText (p :: q :: ps)
  = block p ++ LF :: LF :: RULER ++ LF :: LF :: downloadText (q :: ps).
Proof.
  unfold downloadText, renderPrompts. cbn [map join].
  unfold block. rewrite <- !app_assoc. reflexivity.
Qed.

(** The rendering with ruler lines between the blocks is read back with
    each ruler as the last line of the prompt before it. *)
Lemma fold_downloadText ps :
  Forall (fun p => WellFormedText (p_text p)) ps ->
  Forall (fun p => CleanFirstLine (p_text p)) ps ->
  forall acc cur,
  flushLast (fold_left parseLine (split_lf (downloadText ps)) (acc, cur))
  = flushLast (acc, cur) ++ map toParsed (withRulers ps).
Proof.
  intros Hw Hc. induction ps as [|p ps IH]; intros acc cur.
  - change (split_lf (downloadText [])) with [@nil N]. cbn [fold_left].
    rewrite app_nil_r. now rewrite parseLine_blank.
  - inversion Hw as [|? ? Hw1 Hw2]; inversion Hc as [|? ? Hc1 Hc2]; subst.
    destruct ps as [|q ps].
    + change (downloadText [p]) with (block p).
      rewrite fold_block by assumption. rewrite flushLast_some.
      cbn [withRulers map].
      change (text (toParsed p)) with (p_text p).
      now rewrite (WellFormedText_trimmed _ Hw1).
    + rewrite downloadText_cons.
      rewrite split_lf_app, split_lf_cons_LF, split_lf_app, split_lf_cons_LF.
      change (split_lf RULER) with [RULER].
      rewrite fold_left_app, fold_block by assumption.
      cbn [app fold_left].
      rewrite !(parseLine_blank _ []) by reflexivity.
      unfold toParsed at 1.
      rewrite (parseLine_continuation _ _ _ _ RULER_continuation).
      rewrite IH by assumption. rewrite flushLast_some.
      cbn [index text withRulers map]. now rewrite <- app_assoc.
Qed.

Lemma withRulers_cons p q ps :
  withRulers (p :: q :: ps) = withRuler p :: withRulers (q :: ps).
Proof. reflexivity. Qed.

Lemma withRulers_above (x : ParsedPrompt) ps :
  Forall (indexLe x) (map toParsed ps) ->
  Forall (indexLe x) (map toParsed (withRulers ps)).
Proof.
  induction ps as [|p ps IH]; [auto|]. destruct ps as [|q ps]; [auto|].
  rewrite withRulers_cons. cbn [map]. intros H.
  inversion H as [|? ? Hp Hl]; subst.
  constructor; [exact Hp|]. now apply IH.
Qed.

Lemma withRulers_sorted ps :
  StronglySorted indexLe (map toParsed ps) ->
  StronglySorted indexLe (map toParsed (withRulers ps)).
Proof.
  induction ps as [|p ps IH]; [auto|]. destruct ps as [|q ps]; [auto|].
  rewrite withRulers_cons. cbn [map]. intros H.
  inversion H as [|? ? Hs Hp]; subst.
  constructor; [now apply IH|].
  now apply (withRulers_above (toParsed p) (q :: ps)).
Qed.

Lemma withRuler_longer p :
  WellFormedText (p_text p) ->
  (List.length (p_text p) < List.length (p_text (withRuler p)))%nat.
Proof.
  intros (first & conts & Hs & Hn). unfold withRuler. cbn [p_text].
  destruct first as [|c f].
  - rewrite (Hn eq_refl) in Hs. destruct Hs as (-> & _). vm_compute. lia.
  - assert (Hs' : TextShape (c :: f) (conts ++ [RULER])
                    (p_text p ++ LF :: RULER)).
    { destruct Hs as (-> & Ht & Hf & Hc). repeat split; auto.
      - rewrite map_app, concat_app, <- app_assoc. cbn.
        now rewrite app_nil_r.
      - apply Forall_app. split; [exact Hc|].
        constructor; [exact RULER_continuation|constructor]. }
    rewrite (shape_trimmed _ _ _ Hs') by discriminate.
    rewrite length_app. cbn. lia.
Qed.

Lemma withRulers_same ps :
  Forall (fun p => WellFormedText (p_text p)) ps ->
  withRulers ps = ps <-> (List.length ps <= 1)%nat.
Proof.
  intros Hw. destruct ps as [|p [|q ps]]; cbn [withRulers List.length].
  - split; [lia|reflexivity].
  - split; [lia|reflexivity].
  - split; [|lia]. intros H. injection H as H _.
    inversion Hw as [|? ? Hp _]; subst.
    pose proof (withRuler_longer p Hp) as Hl. rewrite H in Hl. lia.
Qed.

(** X18.  When the field has no carriage return and no Unicode line or
    paragraph separator, parsing the text that [downloadPrompts] writes for
    the parsed prompts gives these prompts with the ruler line added to the
    text of each but the last: the download is read back unchanged only
    when it holds at most one prompt. *)
Theorem X18_downloaded_prompts_read_back raw :
  forallb plain raw = true ->
  Forall (fun p => p_id p <= MAX_SAFE_INTEGER) (parseCustomPrompts raw) ->
  parseCustomPrompts (downloadText (parseCustomPrompts raw))
  = withRulers (parseCustomPrompts raw)
  /\ (parseCustomPrompts (downloadText (parseCustomPrompts raw))
      = parseCustomPrompts raw
      <-> (List.length (parseCustomPrompts raw) <= 1)%nat).
Proof.
  intros Hplain _.
  assert (E : parseCustomPrompts (downloadText (parseCustomPrompts raw))
              = withRulers (parseCustomPrompts raw)).
  { unfold parseCustomPrompts at 1. rewrite parsePrompts_lines.
    rewrite fold_downloadText;
      [|apply parseCustomPrompts_wellFormed|now apply plain_clean].
    cbn [flushLast app].
    change (toProcess ?l) with (map toPrompt (sortByIndex l)).
    rewrite sortByIndex_fixed; [apply toPrompt_toParsed_all|].
    apply StronglySorted_Sorted, withRulers_sorted, parseCustomPrompts_sorted. }
  split; [exact E|]. rewrite E.
  apply withRulers_same, parseCustomPrompts_wellFormed.
Qed.

(** ** The error texts of the results *)

Section ErrorTexts.

Context {World File : Type}.
Variable svc : Services World File.

(** What holds of the result of every attempt holds of all the results of
    the loop. *)
Lemma imageLoop_all (P : GeneratedImage -> Prop) inp style total :
  (forall promptData finalPrompt ratio (m : Machine World),
     let attempt := fst (attemptImage svc promptData finalPrompt ratio m) in
     P (newImageOf promptData (fst attempt) (snd attempt))) ->
  forall todo i acc failed m,
  exists new,
    fst (fst (imageLoop svc inp style total i todo acc failed m)) = acc ++ new
    /\ Forall P new.
Proof.
  intros HP. induction todo as [|p rest IH]; intros i acc failed m.
  - exists []. cbn. now rewrite app_nil_r.
  - rewrite imageLoop_cons. cbv zeta.
    set (m0 := snd (setProgressMessage (progressOf total i p) m)).
    set (a := attemptImage svc p (finalPromptOf inp style p) (aspectRatio inp) m0).
    set (g := newImageOf p (fst (fst a)) (snd (fst a))).
    destruct (IH (i + 1) (acc ++ [g])
                (if hasFailed (fst (fst a)) then failed ++ [p] else failed)
                (snd (setGeneratedImages (acc ++ [g]) (snd a))))
      as (new & Hnew & Hall).
    exists (g :: new). split.
    + rewrite Hnew, <- app_assoc. reflexivity.
    + constructor; [apply HP|exact Hall].
Qed.

Lemma handleGenerate_all (P : GeneratedImage -> Prop) (inp : Inputs File)
  (m : Machine World) :
  (forall promptData finalPrompt ratio (m' : Machine World),
     let attempt := fst (attemptImage svc promptData finalPrompt ratio m') in
     P (newImageOf promptData (fst attempt) (snd attempt))) ->
  Forall P (generatedImages (display (snd (handleGenerate svc inp m)))).
Proof.
  intros HP. rewrite handleGenerate_unfold. cbv zeta.
  destruct (resolveStyle_spec svc inp (started m)) as (_ & Ri & _ & _).
  destruct (fst (resolveStyle svc inp (started m))) as [style|];
    [|rewrite Ri; constructor].
  set (m1 := snd (resolveStyle svc inp (started m))) in *.
  destruct (acquirePrompts_spec svc inp style m1) as (Ai & _ & _).
  destruct (fst (acquirePrompts svc inp style m1)) as [ps|];
    [|rewrite Ai, Ri; constructor].
  set (m2 := snd (acquirePrompts svc inp style m1)) in *.
  rewrite imageStage_last. cbv zeta. unfold finished.
  cbn [display generatedImages].
  set (m3 := snd (setAppState GENERATING_IMAGES m2)).
  assert (H3 : generatedImages (display m3) = [])
    by (unfold m3; cbn; rewrite Ai, Ri; reflexivity).
  destruct (imageLoop_spec svc inp style (N.of_nat (List.length ps)) ps 0
              [] [] m3 H3) as (_ & Himg & _).
  destruct (imageLoop_all P inp style (N.of_nat (List.length ps)) HP ps 0
              [] [] m3) as (new & Hnew & Hall).
  rewrite Himg, Hnew. exact Hall.
Qed.

Lemma enriched_prefix x :
  startsWith
    (js "Google blocked prompt. Stability AI also failed: "
     ++ js "Stability AI Error: " ++ x)
    (js "Google blocked prompt. Stability AI also failed: Stability AI Error: ")
  = true.
Proof.
  change (js "Google blocked prompt. Stability AI also failed: Stability AI Error: ")
    with (js "Google blocked prompt. Stability AI also failed: "
          ++ js "Stability AI Error: ").
  rewrite app_assoc. apply startsWith_app.
Qed.

Lemma newImageOf_engine p result engine :
  img_engine (newImageOf p result engine) = Some engine.
Proof.
  unfold newImageOf. now destruct (res_base64 result) as [[|b0 b]|].
Qed.

(** The error recorded after one attempt. *)
Lemma attempt_error_text promptData finalPrompt ratio (m : Machine World) :
  let attempt := fst (attemptImage svc promptData finalPrompt ratio m) in
  let recorded := newImageOf promptData (fst attempt) (snd attempt) in
  forall e, img_error recorded = Some e ->
  (img_engine recorded = Some google
   /\ In e [SAFETY_BLOCKED; js "Image generation failed.";
            js "The API did not return an image.";
            js "Failed to generate image."])
  \/ (img_engine recorded = Some stability
      /\ (e = js "Failed to generate image."
          \/ startsWith e
               (js "Google blocked prompt. Stability AI also failed: Stability AI Error: ")
             = true)).
Proof.
  cbv zeta. rewrite attemptImage_result.
  destruct (shouldFallBack svc (primaryOf svc finalPrompt ratio m)) eqn:Ef;
    cbn [fst snd]; rewrite newImageOf_engine; intros e He.
  - right. apply shouldFallBack_iff in Ef. destruct Ef as [_ Hk].
    unfold secondaryOf, generateImageWithStability in He.
    destruct (STABILITY_API_KEY svc) as [[|k0 key]|]; try discriminate.
    destruct (stability_post svc (k0 :: key) finalPrompt ratio _)
      as [[[[|b0 base64]|]|[firstError|]|err] w']; cbn in He;
      try discriminate; injection He as <-; (split; [reflexivity|]);
      auto; right; apply enriched_prefix.
  - left. unfold primaryOf, generateImage in He.
    destruct (sdk_generateImages svc finalPrompt ratio (world m))
      as [[[[|[[[|b0 imageBytes]|]|] rest]|]|err] w']; cbn in He;
      try discriminate;
      try (injection He as <-; split; cbn; now auto).
    destruct (isPolicyBlock _); cbn in He; injection He as <-;
      split; cbn; auto.
Qed.

(** X19.  The error text of a result of a run is never the raw text of an
    error of Google: on a result tagged [google] it is one of the three
    fixed messages of [generateImage] or the fallback message of the
    handler; on a result tagged [stability] it is the fallback message, or
    it starts with the text on the block by Google followed by the prefix
    that [generateImageWithStability] puts before the error of its request:
    the message on a missing key is never recorded. *)
Theorem X19_error_texts_of_results (inp : Inputs File) (m : Machine World) :
  Forall
    (fun g => forall e, img_error g = Some e ->
       (img_engine g = Some google
        /\ In e [SAFETY_BLOCKED; js "Image generation failed.";
                 js "The API did not return an image.";
                 js "Failed to generate image."])
       \/ (img_engine g = Some stability
           /\ (e = js "Failed to generate image."
               \/ startsWith e
                    (js "Google blocked prompt. Stability AI also failed: Stability AI Error: ")
                  = true)))
    (generatedImages (display (snd (handleGenerate svc inp m)))).
Proof.
  apply handleGenerate_all. intros promptData finalPrompt ratio m'.
  apply attempt_error_text.
Qed.

End ErrorTexts.

(** ** The further properties on scripted services *)

(** The reader gives a data URL: its payload and the type of the file are
    what the style step sends. *)
Example reference_payload_sent :
  FileHelper.fileToBase64 (fun _ => js "image/jpeg") Probes.readable tt tt
  = (inl (mkImageData (Some (js "UkVG")) (js "image/jpeg")), tt).
Proof. reflexivity. Qed.

(** Two results share the id 1: the archive keeps the later one only. *)
Example archive_keeps_last_of_an_id :
  FileHelper.downloadImagesAsZip Probes.zipping Probes.sameIdImages tt
  = (Some ([(js "1.jpeg", js "Qg==")], js "waris_s2i_images.zip"), tt).
Proof. vm_compute. reflexivity. Qed.

(** When the archive cannot be generated nothing is saved. *)
Example rejected_archive_is_not_saved :
  FileHelper.downloadImagesAsZip Probes.rejecting Probes.badDataImages tt
  = (None, tt).
Proof. vm_compute. reflexivity. Qed.

Lemma X3_failed_prompts_and_summary_witness :
  let after := snd (handleGenerate (Scripted.services Runs.refused)
                      Runs.customInputs Scripted.start) in
  appState (display after) = DONE
  /\ failedPrompts (display after)
     = failedOf (generatedPrompts (display after))
         (generatedImages (display after)).
Proof.
  cbv zeta.
  assert (H : appState (display (snd (handleGenerate
                (Scripted.services Runs.refused) Runs.customInputs
                Scripted.start))) = DONE)
    by (vm_compute; reflexivity).
  split; [exact H|].
  exact (proj1 (X3_failed_prompts_and_summary (Scripted.services Runs.refused)
                  Runs.customInputs Scripted.start H)).
Defined.

Lemma X5_copied_failed_prompts_parse_back_witness :
  let after := snd (handleGenerate (Scripted.services Runs.refused)
                      Runs.customInputs Scripted.start) in
  appState (display after) = DONE
  /\ match handleCopyFailedPrompts (display after) with
     | Some textToCopy =>
         parseCustomPrompts textToCopy = failedPrompts (display after)
         /\ failedPrompts (display after) <> []
     | None => failedPrompts (display after) = []
     end.
Proof.
  cbv zeta.
  assert (H : appState (display (snd (handleGenerate
                (Scripted.services Runs.refused) Runs.customInputs
                Scripted.start))) = DONE)
    by (vm_compute; reflexivity).
  assert (E : parseCustomPrompts (customPrompts Runs.customInputs)
              = [mkPrompt 1 (js "A"); mkPrompt 2 (js "B")])
    by (vm_compute; reflexivity).
  split; [exact H|].
  apply (X5_copied_failed_prompts_parse_back (Scripted.services Runs.refused)
           Runs.customInputs Scripted.start).
  - reflexivity.
  - vm_compute. reflexivity.
  - rewrite E. constructor; [|constructor; [|constructor]];
      cbn [p_id]; unfold MAX_SAFE_INTEGER; lia.
  - exact H.
Defined.

Lemma X6_archive_entries_witness :
  Forall (fun g => img_id g <= MAX_SAFE_INTEGER) Probes.sameIdImages
  /\ FileHelper.downloadImagesAsZip Probes.rejecting Probes.sameIdImages tt
     = (if existsb hasData Probes.sameIdImages
        then match Probes.rejecting
                     (FileHelper.zipOf Probes.sameIdImages) tt with
             | (inl content, w') =>
                 (Some (content, js "waris_s2i_images.zip"), w')
             | (inr _, w') => (None, w')
             end
        else (None, tt))
  /\ NoDup (map fst (FileHelper.zipOf Probes.sameIdImages)).
Proof.
  assert (H : Forall (fun g => img_id g <= MAX_SAFE_INTEGER)
                Probes.sameIdImages).
  { unfold Probes.sameIdImages.
    constructor; [|constructor; [|constructor; [|constructor]]];
      cbn [img_id]; unfold MAX_SAFE_INTEGER; lia. }
  split; [exact H|].
  split;
    [exact (proj1 (X6_archive_entries Probes.rejecting Probes.sameIdImages
                     tt H))
    |exact (proj1 (proj2 (X6_archive_entries Probes.rejecting
                            Probes.sameIdImages tt H)))].
Defined.

Lemma X7_archive_count_witness :
  fst (FileHelper.downloadImagesAsZip Probes.zipping Probes.sameIdImages tt)
  = Some ([(js "1.jpeg", js "Qg==")], js "waris_s2i_images.zip")
  /\ fst (Probes.zipping (FileHelper.zipOf Probes.sameIdImages) tt)
     = inl [(js "1.jpeg", js "Qg==")]
  /\ (List.length (FileHelper.zipOf Probes.sameIdImages)
      <= List.length (filter hasData Probes.sameIdImages))%nat.
Proof.
  assert (H : Forall (fun g => img_id g <= MAX_SAFE_INTEGER)
                Probes.sameIdImages).
  { unfold Probes.sameIdImages.
    constructor; [|constructor; [|constructor; [|constructor]]];
      cbn [img_id]; unfold MAX_SAFE_INTEGER; lia. }
  assert (E : fst (FileHelper.downloadImagesAsZip Probes.zipping
                     Probes.sameIdImages tt)
              = Some ([(js "1.jpeg", js "Qg==")], js "waris_s2i_images.zip"))
    by (vm_compute; reflexivity).
  split; [exact E|].
  split;
    [exact (proj1 (X7_archive_count Probes.zipping Probes.sameIdImages tt
                     _ _ H E))
    |exact (proj1 (proj2 (proj2 (proj2
              (X7_archive_count Probes.zipping Probes.sameIdImages tt
                 _ _ H E)))))].
Defined.

Lemma X9_script_failure_shown_witness :
  let after :=
    snd (handleGenerate
           (withGemini (Scripted.services Runs.calm)
              (Probes.throwing (ErrorObject (js "429 quota")))
              (Probes.parsingTo Gemini.JsonOther))
           Runs.scriptInputs Scripted.start) in
  appState (display after) = IDLE
  /\ error (display after) = Some Gemini.UNEXPECTED.
Proof.
  cbv zeta.
  destruct (X9_script_failure_shown (Scripted.services Runs.calm)
              (Probes.throwing (ErrorObject (js "429 quota")))
              (Probes.parsingTo Gemini.JsonOther)
              Runs.scriptInputs Scripted.start (js "noir")
              (ErrorObject Gemini.UNEXPECTED)
              eq_refl eq_refl eq_refl eq_refl)
    as (message & Hm & _ & Hidle & He & _).
  injection Hm as <-. split; [exact Hidle|exact He].
Defined.

Lemma X10_script_prompts_numbered_witness :
  let after :=
    snd (handleGenerate
           (withGemini (Scripted.services Runs.calm)
              (Probes.answering (Some (js "{...}")) None)
              (Probes.parsingTo (Gemini.JsonWithPrompts [js "P1"; js "P2"])))
           Runs.scriptInputs Scripted.start) in
  map p_id (generatedPrompts (display after)) = [1; 2]
  /\ map p_text (generatedPrompts (display after)) = [js "P1"; js "P2"]
  /\ appState (display after) = DONE.
Proof.
  cbv zeta.
  destruct (X10_script_prompts_numbered (Scripted.services Runs.calm)
              (Probes.answering (Some (js "{...}")) None)
              (Probes.parsingTo (Gemini.JsonWithPrompts [js "P1"; js "P2"]))
              Runs.scriptInputs Scripted.start (js "noir")
              [js "P1"; js "P2"]
              (Gemini.requestPromptOf (js "a script") (js "noir") [])
              eq_refl eq_refl eq_refl eq_refl)
    as (_ & Hids & Htexts & Hdone).
  split; [exact Hids|]. split; [exact Htexts|exact Hdone].
Defined.

Lemma X12_reference_image_step_witness :
  let after :=
    snd (handleGenerate
           (withFileReader (Scripted.services Runs.calm)
              (fun _ => js "image/jpeg") Probes.unreadable)
           Probes.customWithReference Scripted.start) in
  appState (display after) = IDLE
  /\ error (display after) = Some (js "Failed to analyze reference image.")
  /\ calls after = [].
Proof.
  exact (X12_reference_image_step (Scripted.services Runs.calm)
           (fun _ => js "image/jpeg") Probes.unreadable
           Probes.customWithReference Scripted.start tt eq_refl).
Defined.

Lemma X14_reference_style_always_appended_witness :
  truthy (trim (js "noir, ")) = true
  /\ finalPromptOf Probes.customWithReference (js "noir, ")
       (mkPrompt 1 (js "A"))
     = js "A, noir, ".
Proof.
  destruct (X14_reference_style_always_appended (Scripted.services Runs.calm)
              Probes.customWithReference Scripted.start tt (js "noir, ")
              eq_refl eq_refl)
    as (Ht & _ & Hsent).
  split; [exact Ht|]. exact (Hsent eq_refl (mkPrompt 1 (js "A"))).
Defined.

Lemma X15_text_before_first_prompt_ignored_witness :
  parseCustomPrompts (js "My prompts:" ++ LF :: js "1. A")
  = parseCustomPrompts (js "1. A").
Proof.
  apply (X15_text_before_first_prompt_ignored (js "My prompts:") (js "1. A")).
  intros line [<-|[]]. vm_compute. reflexivity.
Defined.

Lemma X18_downloaded_prompts_read_back_witness :
  parseCustomPrompts
    (downloadText (parseCustomPrompts (js "1. A" ++ LF :: js "2. B")))
  = [mkPrompt 1 (js "A" ++ LF :: js "---"); mkPrompt 2 (js "B")].
Proof.
  assert (E : parseCustomPrompts (js "1. A" ++ LF :: js "2. B")
              = [mkPrompt 1 (js "A"); mkPrompt 2 (js "B")])
    by (vm_compute; reflexivity).
  rewrite (proj1 (X18_downloaded_prompts_read_back
                    (js "1. A" ++ LF :: js "2. B") eq_refl
                    ltac:(rewrite E;
                          constructor; [|constructor; [|constructor]];
                          cbn [p_id]; unfold MAX_SAFE_INTEGER; lia))).
  rewrite E. vm_compute. reflexivity.
Defined.

(** ** The signatures of a policy block *)

Lemma includes_cons c s sub : includes s sub = true -> includes (c :: s) sub = true.
Proof. intros H. cbn [includes]. rewrite H. apply orb_true_r. Qed.

Lemma startsWith_includes_suffix p : forall s q,
  startsWith s (p ++ q) = true -> includes s q = true.
Proof.
  induction p as [|a p IH]; intros s q H.
  - destruct s; cbn [app includes] in *; now rewrite H.
  - destruct s as [|b s]; [discriminate|]. cbn [app startsWith] in H.
    apply andb_true_iff in H. destruct H as [_ H].
    apply includes_cons. now apply IH.
Qed.

Lemma includes_suffix p q : forall s,
  includes s (p ++ q) = true -> includes s q = true.
Proof.
  induction s as [|c s IH]; intros H.
  - cbn [includes] in H. rewrite orb_false_r in H.
    now apply (startsWith_includes_suffix p).
  - cbn [includes] in H. apply orb_true_iff in H. destruct H as [H|H].
    + now apply (startsWith_includes_suffix p).
    + apply includes_cons. now apply IH.
Qed.

(** X20.  Of the three texts that [generateImage] takes as the sign of a
    policy block, the third never decides: an error message that holds it
    holds the first as well, so the test is the test of the first two. *)
Theorem X20_third_signature_never_decides errorMessage :
  isPolicyBlock errorMessage
  = includes errorMessage (js "sensitive words")
    || includes errorMessage (js "Responsible AI practices").
Proof.
  unfold isPolicyBlock.
  destruct (includes errorMessage (js "prompt contains sensitive words"))
    eqn:E; [|now rewrite orb_false_r].
  change (js "prompt contains sensitive words")
    with (js "prompt contains " ++ js "sensitive words") in E.
  apply includes_suffix in E. rewrite E. reflexivity.
Qed.

(** ** Numbered lines *)

Lemma trim_numbered digits rest :
  digits <> [] -> forallb is_digit digits = true ->
  trim (digits ++ DOT :: rest) = digits ++ DOT :: trimEnd rest.
Proof.
  intros Hn Hd.
  destruct (digits_head_not_space _ Hn Hd) as (c & d & -> & Hsp).
  unfold trim. rewrite trimStart_app_fixed by exact Hsp.
  change ((c :: d) ++ DOT :: rest) with ((c :: d) ++ [DOT] ++ rest).
  rewrite app_assoc.
  destruct (trimEnd rest) as [|r0 r] eqn:E.
  - apply trimEnd_nil_iff in E. rewrite trimEnd_app_space by exact E.
    now apply trimEnd_snoc_fixed.
  - rewrite trimEnd_app by (rewrite E; discriminate).
    now rewrite E, <- app_assoc.
Qed.

(** X21.  A line that starts with digits and a period is a numbered line
    whatever follows the period, with or without a space: it ends the
    prompt under construction and starts one whose number is that of the
    digits and whose text is the rest of the line, stripped.  So a line such
    as [3.14 is pi] inside a prompt starts the prompt 3 with the text
    [14 is pi]. *)
Theorem X21_period_needs_no_space digits rest st :
  digits <> [] -> forallb is_digit digits = true ->
  noTerminator rest = true ->
  parseLine st (digits ++ DOT :: rest)
  = (flushLast st, Some (mkParsed (parseInt10 digits) (trim rest))).
Proof.
  intros Hn Hd Hr.
  assert (Hbody : trimStart (trimEnd rest) = trim rest)
    by apply trimStart_trimEnd.
  assert (Hm : matchNumbered (trim (digits ++ DOT :: rest))
               = Some (digits, trim rest)).
  { rewrite trim_numbered by assumption. rewrite <- Hbody.
    apply matchNumbered_intro; auto. rewrite Hbody.
    now apply forallb_trim. }
  unfold parseLine. destruct st as [parsedPrompts currentPrompt].
  rewrite Hm, trim_idem. reflexivity.
Qed.

Lemma X21_period_needs_no_space_witness :
  parseLine ([], Some (mkParsed 1 (js "A"))) (js "3.14 is pi")
  = ([mkParsed 1 (js "A")], Some (mkParsed 3 (js "14 is pi"))).
Proof.
  exact (X21_period_needs_no_space (js "3") (js "14 is pi")
           ([], Some (mkParsed 1 (js "A")))
           ltac:(discriminate) eq_refl eq_refl).
Defined.

(** ** A run starts from a clean slate *)

Section CleanSlate.

Context {World File : Type}.
Variable svc : Services World File.

(** X22.  What a run leaves depends on the inputs, on the world and on the
    calls made so far, and on nothing that an earlier run has left on
    display: not on its prompts, images or failed prompts, nor on its state,
    message, error or request text. *)
Theorem X22_run_ignores_earlier_display (inp : Inputs File)
  (m : Machine World) (earlier : Display) :
  snd (handleGenerate svc inp (mkMachine earlier (world m) (calls m)))
  = snd (handleGenerate svc inp m).
Proof. rewrite !handleGenerate_unfold. reflexivity. Qed.

End CleanSlate.

(** ** Blank lines and indentation *)

(** X23.  The prompts parsed depend only on the lines of the field once
    stripped, the blank ones left out: two fields with the same such lines
    give the same prompts, so indentation, trailing spaces and blank lines
    are of no consequence. *)
Theorem X23_only_stripped_lines_count raw raw' :
  significant (split_lf raw) = significant (split_lf raw') ->
  parseCustomPrompts raw = parseCustomPrompts raw'.
Proof.
  intros H. unfold parseCustomPrompts. rewrite !parsePrompts_lines.
  rewrite (fold_parseLine_significant (split_lf raw)),
    (fold_parseLine_significant (split_lf raw')).
  now rewrite H.
Qed.

Lemma X23_only_stripped_lines_count_witness :
  parseCustomPrompts (js "  1. A  " ++ LF :: LF :: js "   more")
  = parseCustomPrompts (js "1. A" ++ LF :: js "more").
Proof.
  apply X23_only_stripped_lines_count. vm_compute. reflexivity.
Defined.

(** ** The errors a click on Generate can show *)

Section ClickErrors.

Ltac in_list := cbn [In]; repeat (first [left; reflexivity | right]).

Context {World File : Type}.

Lemma acquirePrompts_error (svc : Services World File) (inp : Inputs File)
  style (m : Machine World) :
  fst (acquirePrompts svc inp style m) = None ->
  (promptSource inp = script_source
   /\ ((truthy (trim (script inp)) = false
        /\ error (display (snd (acquirePrompts svc inp style m)))
           = Some (js "Script cannot be empty."))
       \/ error (display (snd (acquirePrompts svc inp style m)))
          = Some (js "No prompts were generated or provided.")
       \/ exists err,
            fst (generatePrompts svc (script inp) style (niche inp) (world m))
            = inr err
            /\ error (display (snd (acquirePrompts svc inp style m)))
               = Some (messageOr (js "An unknown error occurred.") err)))
  \/ (promptSource inp = custom_source
      /\ ((truthy (trim (customPrompts inp)) = false
           /\ error (display (snd (acquirePrompts svc inp style m)))
              = Some (js "Custom prompts field cannot be empty."))
          \/ error (display (snd (acquirePrompts svc inp style m)))
             = Some NO_VALID_PROMPTS
          \/ error (display (snd (acquirePrompts svc inp style m)))
             = Some (js "No prompts were generated or provided."))).
Proof.
  unfold acquirePrompts. destruct (promptSource inp).
  - intros H. left. split; [reflexivity|]. revert H.
    destruct (truthy (trim (script inp))); simpl; run_setters; [|auto].
    destruct (generatePrompts svc (script inp) style (niche inp) (world m))
      as [[[generated requestPrompt]|err] w1]; simpl.
    + destruct (numberFrom 0 generated); simpl; [auto|discriminate].
    + intros _. right. right. now exists err.
  - intros H. right. split; [reflexivity|]. revert H.
    destruct (truthy (trim (customPrompts inp))); simpl; run_setters; [|auto].
    destruct (N.of_nat (List.length (parsePrompts (customPrompts inp))) =? 0);
      simpl; [auto|].
    destruct (toProcess (parsePrompts (customPrompts inp))); simpl;
      [auto|discriminate].
Qed.

Variable svc : Services World File.
Variable generateContent :
  jsstring -> World -> (Gemini.ContentResponse + Thrown) * World.
Variable JSON_parse : jsstring -> Gemini.JsonOutcome.
Variable fileType : File -> jsstring.
Variable readAsDataURL :
  File -> World -> FileHelper.ReaderEvent jsstring * World.

(** X24.  With [generatePrompts] and [fileToBase64] as the services write
    them, a click on the enabled Generate button shows no error or one of
    these: the two messages of the style step, the message that no prompts
    were generated, the message that no numbered prompt was found, the
    generic message of [generatePrompts], or a message that starts with one
    of the four texts it lets through.  The two messages on an empty field
    and the fallback message of the handler are never shown. *)
Theorem X24_errors_a_click_can_show (inp : Inputs File) (m : Machine World) e :
  let svc' :=
    withFileReader (withGemini svc generateContent JSON_parse) fileType
      readAsDataURL in
  generateDisabled inp (display m) = false ->
  error (display (snd (clickGenerate svc' inp m))) = Some e ->
  (In e [js "Failed to analyze reference image.";
         js "Failed to analyze the reference image style.";
         js "No prompts were generated or provided.";
         NO_VALID_PROMPTS;
         Gemini.UNEXPECTED]
   \/ Gemini.isUserFriendly e = true)
  /\ ~ In e [js "Script cannot be empty.";
             js "Custom prompts field cannot be empty.";
             js "An unknown error occurred."].
Proof.
  cbv zeta. intros Hen He.
  assert (Hshown :
            In e [js "Failed to analyze reference image.";
                  js "Failed to analyze the reference image style.";
                  js "No prompts were generated or provided.";
                  NO_VALID_PROMPTS;
                  Gemini.UNEXPECTED]
            \/ Gemini.isUserFriendly e = true).
  { unfold clickGenerate in He. rewrite Hen in He.
    unfold generateDisabled in Hen. apply orb_false_iff in Hen.
    destruct Hen as [_ Hblank].
    rewrite handleGenerate_unfold in He. cbv zeta in He.
    set (svc' := withFileReader (withGemini svc generateContent JSON_parse)
                   fileType readAsDataURL) in *.
    pose proof (resolveStyle_error svc' inp (started m)) as Hr.
    destruct (resolveStyle_spec svc' inp (started m)) as (_ & Ri & _ & Rout).
    destruct (fst (resolveStyle svc' inp (started m))) as [style|].
    - set (m1 := snd (resolveStyle svc' inp (started m))) in *.
      pose proof (acquirePrompts_error svc' inp style m1) as Ha.
      destruct (acquirePrompts_spec svc' inp style m1) as (Ai & _ & Aout).
      destruct (fst (acquirePrompts svc' inp style m1)) as [ps|].
      + exfalso. destruct Rout as [_ Re]. destruct Aout as (_ & _ & _ & Ae).
        set (m2 := snd (acquirePrompts svc' inp style m1)) in *.
        assert (Hi2 : generatedImages (display m2) = [])
          by (rewrite Ai, Ri; reflexivity).
        destruct (imageStage_spec svc' inp style ps m2 Hi2)
          as (_ & _ & _ & Ie & _).
        rewrite Ie, Ae, Re in He. discriminate.
      + destruct (Ha eq_refl) as [(Hs & Hcase)|(Hc & Hcase)].
        * rewrite Hs in Hblank. apply negb_false_iff in Hblank.
          destruct Hcase as [(Hb & _)|[Hcase|(err & Herr & Hcase)]].
          -- congruence.
          -- left. rewrite Hcase in He. injection He as <-. cbn. auto.
          -- rewrite Hcase in He. injection He as <-.
             change (generatePrompts svc')
               with (Gemini.generatePrompts generateContent JSON_parse)
               in Herr.
             destruct (generatePrompts_failure _ _ _ _ _ _ _ Herr)
               as (message & -> & [->|Hm]); cbn [messageOr]; [|now right].
             left. in_list.
        * rewrite Hc in Hblank. apply negb_false_iff in Hblank.
          destruct Hcase as [(Hb & _)|[Hcase|Hcase]].
          -- congruence.
          -- left. rewrite Hcase in He. injection He as <-. cbn. auto.
          -- left. rewrite Hcase in He. injection He as <-. cbn. auto.
    - destruct (Hr eq_refl) as (file & Hf & [(err & Herr & Hcase)|Hcase]).
      + rewrite Hcase in He. injection He as <-.
        change (fileToBase64 svc')
          with (FileHelper.fileToBase64 fileType readAsDataURL) in Herr.
        unfold FileHelper.fileToBase64 in Herr.
        destruct (readAsDataURL file (world (started m))) as [[result|] w1];
          cbn [fst] in Herr; [discriminate|].
        injection Herr as <-. left. in_list.
      + rewrite Hcase in He. injection He as <-. left. in_list. }
  split; [exact Hshown|].
  intros Hin.
  destruct Hshown as [Hs|Hs];
    [|destruct Hin as [<-|[<-|[<-|[]]]]; vm_compute in Hs; discriminate].
  destruct Hin as [<-|[<-|[<-|[]]]];
    destruct Hs as [Hs|[Hs|[Hs|[Hs|[Hs|[]]]]]];
    vm_compute in Hs; discriminate.
Qed.

End ClickErrors.

Lemma X24_errors_a_click_can_show_witness :
  error (display (snd (clickGenerate
           (withFileReader
              (withGemini (Scripted.services Runs.calm)
                 (Probes.throwing (ErrorObject (js "429 quota")))
                 (Probes.parsingTo Gemini.JsonOther))
              (fun _ => js "image/jpeg") Probes.unreadable)
           Runs.scriptInputs Scripted.start)))
  = Some Gemini.UNEXPECTED
  /\ ~ In Gemini.UNEXPECTED
         [js "Script cannot be empty.";
          js "Custom prompts field cannot be empty.";
          js "An unknown error occurred."].
Proof.
  assert (H : error (display (snd (clickGenerate
                (withFileReader
                   (withGemini (Scripted.services Runs.calm)
                      (Probes.throwing (ErrorObject (js "429 quota")))
                      (Probes.parsingTo Gemini.JsonOther))
                   (fun _ => js "image/jpeg") Probes.unreadable)
                Runs.scriptInputs Scripted.start)))
              = Some Gemini.UNEXPECTED)
    by (vm_compute; reflexivity).
  split; [exact H|].
  exact (proj2 (X24_errors_a_click_can_show (Scripted.services Runs.calm)
                  (Probes.throwing (ErrorObject (js "429 quota")))
                  (Probes.parsingTo Gemini.JsonOther)
                  (fun _ => js "image/jpeg") Probes.unreadable
                  Runs.scriptInputs Scripted.start Gemini.UNEXPECTED
                  eq_refl H)).
Defined.
